(** * webflow-scraper: the mirroring engine, embedded and verified

    A shallow embedding of the parts of [scrape.mjs], [rescrape-blank.mjs]
    and [fix-links.mjs] that the specification makes claims about:
    the path mapper ([safeFileName]), the asset store ([downloadAsset]),
    the stylesheet and attribute rewriters ([rewriteHtml]), the link
    resolver ([rewriteInternalLinks], both copies), the blank-page
    detector ([findBlankPages]) and the report merge of the main script.

    JavaScript strings are modelled as [string] (code units in the Latin-1
    range); regular expressions by a small backtracking matcher whose
    priority order is the one of ECMAScript; the platform (WHATWG URL,
    Node's [path]) is an interface, with a POSIX instance used to
    evaluate the functions on concrete inputs. *)

From Stdlib Require Import Ascii String List Arith Lia Bool.
From stdpp Require Import base option list strings gmap.

Local Open Scope list_scope.

(* ===================================================================== *)
(** * JavaScript strings *)
(* ===================================================================== *)

Module Js.

(** ** Characters *)

Definition chr_eqb (a b : ascii) : bool := Ascii.eqb a b.

Definition is_upper (c : ascii) : bool :=
  let n := nat_of_ascii c in (65 <=? n) && (n <=? 90).

Definition to_lower (c : ascii) : ascii :=
  if is_upper c then ascii_of_nat (nat_of_ascii c + 32) else c.

(** Comparison under the [i] flag: ASCII letters match in both cases. *)
Definition chr_eqb_ci (a b : ascii) : bool :=
  Ascii.eqb (to_lower a) (to_lower b).

(** White space of [String.prototype.trim] and of the class [\s], in the
    Latin-1 range: TAB, LF, VT, FF, CR, SP and NBSP. *)
Definition is_ws (c : ascii) : bool :=
  let n := nat_of_ascii c in
  (n =? 9) || (n =? 10) || (n =? 11) || (n =? 12) || (n =? 13)
  || (n =? 32) || (n =? 160).

(** ** [startsWith], [endsWith], [includes], [indexOf] *)

Fixpoint startsWith (p s : string) : bool :=
  match p with
  | "" => true
  | String a p' =>
      match s with
      | "" => false
      | String b s' => chr_eqb a b && startsWith p' s'
      end
  end.

Fixpoint skipn (n : nat) (s : string) : string :=
  match n with
  | 0 => s
  | S n' => match s with "" => "" | String _ s' => skipn n' s' end
  end.

Fixpoint firstn (n : nat) (s : string) : string :=
  match n with
  | 0 => ""
  | S n' => match s with "" => "" | String c s' => String c (firstn n' s') end
  end.

Definition endsWith (p s : string) : bool :=
  (String.length p <=? String.length s)
  && String.eqb (skipn (String.length s - String.length p) s) p.

(** [indexOf p s]: the first position at which [p] occurs in [s]. *)
Fixpoint indexOf (p s : string) : option nat :=
  if startsWith p s then Some 0
  else match s with
       | "" => None
       | String _ s' => option_map S (indexOf p s')
       end.

Definition includes (p s : string) : bool :=
  match indexOf p s with Some _ => true | None => false end.

(** ** [split] on a one-character separator *)

Fixpoint split (sep : ascii) (s : string) : list string :=
  match s with
  | "" => [""]
  | String c s' =>
      if chr_eqb c sep then "" :: split sep s'
      else match split sep s' with
           | [] => [String c ""]
           | x :: xs => String c x :: xs
           end
  end.

(** [a[0]] of the array that [split] returns (never empty). *)
Definition first (l : list string) : string := hd "" l.

(** [split(/\s+/)]: the pieces between maximal runs of white space. *)
Fixpoint splitWs_go (skipping : bool) (s : string) : list string :=
  match s with
  | "" => [""]
  | String c s' =>
      if is_ws c then
        if skipping then splitWs_go true s' else "" :: splitWs_go true s'
      else match splitWs_go false s' with
           | [] => [String c ""]
           | x :: xs => String c x :: xs
           end
  end.

Definition splitWs (s : string) : list string := splitWs_go false s.

(** ** [slice(0, -1)], [substring(0, n)], [trim], [join] *)

Fixpoint dropLast (s : string) : string :=
  match s with
  | "" => ""
  | String c s' => match s' with "" => "" | _ => String c (dropLast s') end
  end.

Fixpoint trimStart (s : string) : string :=
  match s with
  | "" => ""
  | String c s' => if is_ws c then trimStart s' else s
  end.

(** [trimEnd] as one right-to-left pass: a suffix of white space vanishes. *)
Fixpoint trimEnd (s : string) : string :=
  match s with
  | "" => ""
  | String c s' =>
      match trimEnd s' with
      | "" => if is_ws c then "" else String c ""
      | t => String c t
      end
  end.

Definition trim (s : string) : string := trimEnd (trimStart s).

Fixpoint join (sep : string) (l : list string) : string :=
  match l with
  | [] => ""
  | [x] => x
  | x :: xs => x +:+ sep +:+ join sep xs
  end.

(** A string is falsy when it is empty; [null] and [undefined] are [None]. *)
Definition truthy (o : option string) : option string :=
  match o with
  | Some "" => None
  | _ => o
  end.

(** [a || b] on strings. *)
Definition orElse (a : string) (b : string) : string :=
  match a with "" => b | _ => a end.

Definition dquote : string := String "034" "".

(** ** [String.prototype.replace] with a string pattern and a string
       replacement

    The first occurrence of [pat] is replaced; the replacement text goes
    through [GetSubstitution], so that [$$], [$&], [$`] and [$'] are
    expanded (a string pattern has no capture groups: [$1] ... stay). *)

Fixpoint getSubstitution (matched before after tpl : string) : string :=
  match tpl with
  | "" => ""
  | String c tpl' =>
      if chr_eqb c "$" then
        match tpl' with
        | String d tpl'' =>
            if chr_eqb d "$" then
              String "$" (getSubstitution matched before after tpl'')
            else if chr_eqb d "&" then
              matched +:+ getSubstitution matched before after tpl''
            else if chr_eqb d "`" then
              before +:+ getSubstitution matched before after tpl''
            else if chr_eqb d "'" then
              after +:+ getSubstitution matched before after tpl''
            else String c (getSubstitution matched before after tpl')
        | "" => String c ""
        end
      else String c (getSubstitution matched before after tpl')
  end.

Definition replaceStr (s pat repl : string) : string :=
  match indexOf pat s with
  | None => s
  | Some i =>
      let before := firstn i s in
      let after := skipn (i + String.length pat) s in
      before +:+ getSubstitution pat before after repl +:+ after
  end.

End Js.

(* ===================================================================== *)
(** * Regular expressions *)
(* ===================================================================== *)

Module Regex.

(** The fragment of ECMAScript patterns that the scripts use: character
    tests, sequence, alternation, greedy and lazy star, one capture
    group.  [x+] is [x x*] and [x?] is [(x|)]. *)
Inductive regex : Type :=
| REps
| RChr (p : ascii -> bool)
| RSeq (r1 r2 : regex)
| RAlt (r1 r2 : regex)
| RStar (greedy : bool) (r : regex)
| RCap (r : regex).

Definition RPlus (r : regex) : regex := RSeq r (RStar true r).
Definition ROpt (r : regex) : regex := RAlt r REps.

(** A literal under the [i] flag, and a case-sensitive one. *)
Fixpoint RLit (s : string) : regex :=
  match s with
  | "" => REps
  | String c s' => RSeq (RChr (Js.chr_eqb_ci c)) (RLit s')
  end.

Fixpoint RStr (s : string) : regex :=
  match s with
  | "" => REps
  | String c s' => RSeq (RChr (Js.chr_eqb c)) (RStr s')
  end.

(** One way of matching at the start of the subject: the text consumed,
    what is left, and the capture group if it took part. *)
Record run : Type := Run { consumed : string; rest : string; group : option string }.

Definition later (k1 k2 : option string) : option string :=
  match k2 with Some _ => k2 | None => k1 end.

Definition extend (r1 : run) (r2 : run) : run :=
  Run (consumed r1 +:+ consumed r2) (rest r2) (later (group r1) (group r2)).

(** Iterations of a starred body; an iteration that consumes nothing is
    rejected, as in ECMAScript.  [n] bounds the number of iterations. *)
Fixpoint star_runs (step : string -> list run) (greedy : bool)
    (n : nat) (s : string) : list run :=
  match n with
  | 0 => [Run "" s None]
  | S n' =>
      let more :=
        flat_map (fun r1 =>
          match consumed r1 with
          | "" => []
          | _ => map (extend r1) (star_runs step greedy n' (rest r1))
          end) (step s) in
      if greedy then more ++ [Run "" s None] else Run "" s None :: more
  end.

(** All the ways in which [r] matches at the start of [s], in the
    priority order of a backtracking matcher. *)
Fixpoint runs (r : regex) (s : string) : list run :=
  match r with
  | REps => [Run "" s None]
  | RChr p =>
      match s with
      | String c s' => if p c then [Run (String c "") s' None] else []
      | "" => []
      end
  | RSeq r1 r2 =>
      flat_map (fun x => map (extend x) (runs r2 (rest x))) (runs r1 s)
  | RAlt r1 r2 => runs r1 s ++ runs r2 s
  | RStar g r1 => star_runs (runs r1) g (String.length s) s
  | RCap r1 =>
      map (fun x => Run (consumed x) (rest x) (Some (consumed x))) (runs r1 s)
  end.

(** The match at the start of [s], if any. *)
Definition exec_at (r : regex) (s : string) : option run := hd_error (runs r s).

(** ** Scanning with the [g] flag *)

Inductive token : Type :=
| TLit (c : ascii)
| TMatch (m : string) (g : option string).

Fixpoint scan_go (r : regex) (n : nat) (s : string) : list token :=
  match n with
  | 0 => []
  | S n' =>
      match exec_at r s with
      | Some x =>
          match consumed x with
          | "" =>
              TMatch "" (group x) ::
              match s with
              | "" => []
              | String c s' => TLit c :: scan_go r n' s'
              end
          | m => TMatch m (group x) :: scan_go r n' (rest x)
          end
      | None =>
          match s with
          | "" => []
          | String c s' => TLit c :: scan_go r n' s'
          end
      end
  end.

Definition scan (r : regex) (s : string) : list token :=
  scan_go r (S (String.length s)) s.

(** [s.replace(/r/g, f)] with [f(match, p1)]. *)
Definition render (f : string -> string -> string) (t : token) : string :=
  match t with
  | TLit c => String c ""
  | TMatch m g => f m (default "" g)
  end.

Fixpoint concat (l : list string) : string :=
  match l with
  | [] => ""
  | x :: xs => x +:+ concat xs
  end.

Definition replace_all (r : regex) (f : string -> string -> string)
    (s : string) : string :=
  concat (map (render f) (scan r s)).

(** The same when the callback may throw: the first exception aborts. *)
Definition renderM (f : string -> string -> option string) (t : token)
    : option string :=
  match t with
  | TLit c => Some (String c "")
  | TMatch m g => f m (default "" g)
  end.

Definition replace_allM (r : regex) (f : string -> string -> option string)
    (s : string) : option string :=
  concat <$> mapM (renderM f) (scan r s).

(** [s.replace(/^r/, repl)], no [g] flag: only a match at position 0. *)
Definition replace_start (r : regex) (repl : string) (s : string) : string :=
  match exec_at r s with
  | Some x => repl +:+ rest x
  | None => s
  end.

(** [s.match(/r/)], no [g] flag: the leftmost match. *)
Fixpoint search (r : regex) (s : string) : option run :=
  match exec_at r s with
  | Some x => Some x
  | None => match s with
            | "" => None
            | String _ s' => search r s'
            end
  end.

End Regex.

(* ===================================================================== *)
(** * PathMapper: [safeFileName] *)
(* ===================================================================== *)

(** [/^\/+/] *)
Definition re_leading_slashes : Regex.regex :=
  Regex.RPlus (Regex.RChr (Js.chr_eqb "/")).

(** <<
function safeFileName(urlPath) {
  let p = urlPath.split("?")[0].split("#")[0];
  if (p.endsWith("/")) p = p.slice(0, -1);
  if (p === "") return "index";
  return p.replace(/^\/+/, "");
}
>> *)
Definition safeFileName (urlPath : string) : string :=
  let p := Js.first (Js.split "#" (Js.first (Js.split "?" urlPath))) in
  let p := if Js.endsWith "/" p then Js.dropLast p else p in
  if String.eqb p "" then "index"
  else Regex.replace_start re_leading_slashes "" p.

(** The path mapper as the specification words it: drop the query and the
    fragment, strip one trailing slash, map the empty path to the fixed
    name, strip the leading slashes. *)
Fixpoint upto (stop : ascii -> bool) (s : string) : string :=
  match s with
  | "" => ""
  | String c s' => if stop c then "" else String c (upto stop s')
  end.

(** The suffix that starts at the first character on which [stop] holds. *)
Fixpoint from (stop : ascii -> bool) (s : string) : string :=
  match s with
  | "" => ""
  | String c s' => if stop c then s else from stop s'
  end.

Fixpoint stripLeading (c : ascii) (s : string) : string :=
  match s with
  | "" => ""
  | String d s' => if Js.chr_eqb d c then stripLeading c s' else s
  end.

Definition toLocalPath_rules (urlPath : string) : string :=
  let p := upto (fun c => Js.chr_eqb c "?" || Js.chr_eqb c "#") urlPath in
  let p := if Js.endsWith "/" p then Js.dropLast p else p in
  match p with
  | "" => "index"
  | _ => stripLeading "/" p
  end.

(* ===================================================================== *)
(** * The platform: WHATWG URL and Node's [path] *)
(* ===================================================================== *)

(** What the scripts read of a parsed URL. *)
Record URL : Type := MkURL {
  href : string;
  origin : string;
  hostname : string;
  pathname : string
}.

(** [url_parse input base] is [new URL(input, base)], [None] when the
    constructor throws; [url_set_hostname u h] is the assignment
    [u.hostname = h]; the [path_*] functions are those of Node's [path]. *)
Class Platform : Type := {
  url_parse : string -> option string -> option URL;
  url_set_hostname : URL -> string -> URL;
  path_join : list string -> string;
  path_relative : string -> string -> string;
  path_dirname : string -> string;
  path_basename : string -> string -> string;
  path_extname : string -> string
}.

(** A file system: regular files with their contents, and directories. *)
Record FileSystem : Type := MkFS {
  files : gmap string string;
  dirs : gset string
}.

Definition existsSync (fs : FileSystem) (p : string) : bool :=
  bool_decide (is_Some (files fs !! p)) || bool_decide (p ∈ dirs fs).

Definition writeFileSync (fs : FileSystem) (p data : string) : FileSystem :=
  MkFS (<[p := data]> (files fs)) (dirs fs).

(** <<
function ensureDir(dir) {
  if (!fs.existsSync(dir)) { fs.mkdirSync(dir, { recursive: true }); }
}
>> *)
Definition ensureDir (fs : FileSystem) (dir : string) : FileSystem :=
  if existsSync fs dir then fs else MkFS (files fs) ({[dir]} ∪ dirs fs).

(** [s.replace(/\\/g, '/')] *)
Definition slashes (s : string) : string :=
  Regex.replace_all (Regex.RChr (Js.chr_eqb "\")) (fun _ _ => "/") s.

(** [/^www\./] *)
Definition re_www : Regex.regex := Regex.RStr "www.".

Definition BASE : string := "https://www.fruitpunch.ai".

(** The hosts of [isCommonCDN], in the order of the source. *)
Definition commonCDNs : list string :=
  [ "cdn.prod.website-files.com"; "fonts.googleapis.com"; "fonts.gstatic.com";
    "cdn.jsdelivr.net"; "unpkg.com"; "ajax.googleapis.com";
    "downloads.mailchimp.com"; "chimpstatic.com" ].

(** [/[^a-zA-Z0-9._-]/] and [/[^a-zA-Z0-9]/] *)
Definition is_alnum (c : ascii) : bool :=
  let n := nat_of_ascii c in
  ((48 <=? n) && (n <=? 57)) || ((65 <=? n) && (n <=? 90))
  || ((97 <=? n) && (n <=? 122)).

Definition is_alpha (c : ascii) : bool :=
  let n := nat_of_ascii c in
  ((65 <=? n) && (n <=? 90)) || ((97 <=? n) && (n <=? 122)).

Definition is_file_char (c : ascii) : bool :=
  is_alnum c || Js.chr_eqb c "." || Js.chr_eqb c "_" || Js.chr_eqb c "-".

(** The replies of the network: [fetch] throws, or resolves with a
    response ([res.ok], its content type, its body). *)
Inductive reply : Type :=
| NetworkError
| Response (ok : bool) (contentType : string) (body : string).

(** The state of a run as [downloadAsset] sees it: the module-level map
    [downloadedAssets], the disk, and the requests issued so far. *)
Record Run : Type := MkRun {
  downloadedAssets : gmap string string;
  disk : FileSystem;
  requests : list string
}.

Section Engine.

Context `{P : Platform}.

(** [OUT = path.resolve("offline")] *)
Variable OUT : string.

Definition ASSETS_DIR : string := path_join [OUT; "_assets"].

(* --------------------------------------------------------------------- *)
(** ** OriginNormalizer *)

(** <<
function normalizeOrigin(origin) {
  const url = new URL(origin);
  url.hostname = url.hostname.replace(/^www\./, '');
  return url.origin;
}
>> [None] when [new URL] throws. *)
Definition normalizeOrigin (o : string) : option string :=
  u ← url_parse o None;
  Some (origin (url_set_hostname u (Regex.replace_start re_www "" (hostname u)))).

(* --------------------------------------------------------------------- *)
(** ** AssetStore *)

(** [getAssetPath] of [scrape.mjs]; the [catch] branch when [new URL(url)]
    throws. *)
Definition getAssetPath (url : string) : string :=
  match url_parse url None with
  | Some urlObj =>
      let ext := Js.orElse (path_extname (pathname urlObj)) ".html" in
      let basename := Js.orElse (path_basename (pathname urlObj) ext) "index" in
      let dir :=
        Regex.replace_all (Regex.RChr (Js.chr_eqb "/")) (fun _ _ => "_")
          (Regex.replace_start (Regex.RChr (Js.chr_eqb "/")) ""
             (path_dirname (pathname urlObj))) in
      let filename :=
        match dir with
        | "" => basename +:+ ext
        | _ => dir +:+ "_" +:+ basename +:+ ext
        end in
      Regex.replace_all (Regex.RChr (fun c => negb (is_file_char c)))
        (fun _ _ => "_") filename
  | None =>
      "asset_" +:+
      Js.firstn 50
        (Regex.replace_all (Regex.RChr (fun c => negb (is_alnum c)))
           (fun _ _ => "_") url)
  end.

(** [getAssetPath] of [rescrape-blank.mjs]: the path name is parsed
    against a fixed base. *)
Definition getAssetPath_rescrape (p : string) : string :=
  match url_parse p (Some "http://example.com") with
  | Some urlObj =>
      let ext := Js.orElse (path_extname (pathname urlObj)) ".html" in
      let basename := Js.orElse (path_basename (pathname urlObj) ext) "index" in
      let dir :=
        Regex.replace_all (Regex.RChr (Js.chr_eqb "/")) (fun _ _ => "_")
          (Regex.replace_start (Regex.RChr (Js.chr_eqb "/")) ""
             (path_dirname (pathname urlObj))) in
      let filename :=
        match dir with
        | "" => basename +:+ ext
        | _ => dir +:+ "_" +:+ basename +:+ ext
        end in
      Regex.replace_all (Regex.RChr (fun c => negb (is_file_char c)))
        (fun _ _ => "_") filename
  | None =>
      "asset_" +:+
      Js.firstn 50
        (Regex.replace_all (Regex.RChr (fun c => negb (is_alnum c)))
           (fun _ _ => "_") p)
  end.

(** The extension when the URL path has none, from the content type. *)
Definition extOfContentType (contentType : string) : string :=
  let has := fun w => Js.includes w contentType in
  if has "css" then ".css"
  else if has "javascript" then ".js"
  else if has "image" then
    if has "png" then ".png"
    else if has "jpg" || has "jpeg" then ".jpg"
    else if has "svg" then ".svg"
    else if has "gif" then ".gif"
    else if has "webp" then ".webp"
    else ""
  else if has "font" || has "woff" then
    if has "woff2" then ".woff2"
    else if has "woff" then ".woff"
    else if has "ttf" then ".ttf"
    else if has "otf" then ".otf"
    else ""
  else "".

Definition isCommonCDN (host : string) : bool :=
  existsb (fun h => Js.includes h host) commonCDNs.

(** [isSameOrigin]; [None] when one of the [normalizeOrigin] calls
    throws. *)
Definition isSameOrigin (o : string) : option bool :=
  a ← normalizeOrigin o;
  b ← (url_parse BASE None ≫= fun base => normalizeOrigin (origin base));
  Some (String.eqb a b).

Section Download.

(** The network: the reply to the request for a URL, given the number of
    requests already issued in the run. *)
Variable net : nat -> string -> reply.

(** The naming function: [getAssetPath] of either script. *)
Variable assetPath : string -> string.

(** [downloadAsset(url, pageUrl)] of [scrape.mjs] and of
    [rescrape-blank.mjs]: the result ([None] is [null]) and the state
    after the call.  Every exception is caught and yields [null]. *)
Definition downloadAsset (url pageUrl : string) (st : Run) : option string * Run :=
  if Js.startsWith "data:" url || Js.startsWith "blob:" url then (None, st)
  else
    match url_parse url (Some pageUrl) with
    | None => (None, st)
    | Some resolved =>
        let absoluteUrl := href resolved in
        match downloadedAssets st !! absoluteUrl with
        | Some known => (Some known, st)
        | None =>
            match url_parse absoluteUrl None with
            | None => (None, st)
            | Some urlObj =>
                match isSameOrigin (origin urlObj) with
                | None => (None, st)
                | Some same =>
                    if negb same && negb (isCommonCDN (hostname urlObj))
                    then (None, st)
                    else
                      let st1 :=
                        MkRun (downloadedAssets st) (disk st)
                          (requests st ++ [absoluteUrl]) in
                      match net (length (requests st)) absoluteUrl with
                      | NetworkError => (None, st1)
                      | Response false _ _ => (None, st1)
                      | Response true contentType buffer =>
                          let ext :=
                            match path_extname (pathname urlObj) with
                            | "" => extOfContentType contentType
                            | e => e
                            end in
                          let filename := assetPath (pathname urlObj) +:+ ext in
                          let filepath := path_join [ASSETS_DIR; filename] in
                          let fs1 :=
                            writeFileSync (ensureDir (disk st) ASSETS_DIR)
                              filepath buffer in
                          let relativePath := slashes (path_relative OUT filepath) in
                          (Some relativePath,
                           MkRun (<[absoluteUrl := relativePath]> (downloadedAssets st))
                             fs1 (requests st1))
                      end
                end
            end
        end
    end.

(** References resolved one after the other: each is a pair of a URL
    and of the URL of the page or stylesheet that refers to it. *)
Fixpoint downloadAll (refs : list (string * string)) (st : Run) : Run :=
  match refs with
  | [] => st
  | (url, pageUrl) :: refs' => downloadAll refs' (snd (downloadAsset url pageUrl st))
  end.

(** How many requests for [u] a run has issued. *)
Definition fetches (u : string) (st : Run) : nat :=
  length (filter (fun x => x = u) (requests st)).

End Download.

(* --------------------------------------------------------------------- *)
(** ** CssAssetExtractor: the rewrite of [url(...)] references *)

Definition is_quote (c : ascii) : bool := Js.chr_eqb c "034" || Js.chr_eqb c "'".

(** A character that is neither a quote nor a closing parenthesis. *)
Definition css_url_chr (c : ascii) : bool :=
  negb (is_quote c || Js.chr_eqb c ")").

(** The pattern of the stylesheet rewrite, flags [gi]: the word [url],
    an opening parenthesis, an optional quote, the captured run of
    characters other than quotes and closing parentheses, an optional
    quote, a closing parenthesis. *)
Definition re_css_url : Regex.regex :=
  Regex.RSeq (Regex.RLit "url(")
    (Regex.RSeq (Regex.ROpt (Regex.RChr is_quote))
       (Regex.RSeq
          (Regex.RCap (Regex.RPlus (Regex.RChr css_url_chr)))
          (Regex.RSeq (Regex.ROpt (Regex.RChr is_quote))
             (Regex.RChr (Js.chr_eqb ")"))))).

(** The callback of the rewrite.  [assetMap.get(a) || assetMap.get(b)]
    evaluates [b], and with it [new URL(trimmedUrl, cssUrl)], only when
    the first lookup is falsy; [None] is the [TypeError] of [new URL]. *)
Definition cssLookup (assetMap : gmap string string) (cssUrl trimmedUrl : string)
    : option (option string) :=
  match Js.truthy (assetMap !! trimmedUrl) with
  | Some l => Some (Some l)
  | None =>
      u ← url_parse trimmedUrl (Some cssUrl);
      Some (Js.truthy (assetMap !! href u))
  end.

Definition cssRelative (cssLocalPath localAssetPath : string) : string :=
  let cssDir := path_dirname (path_join [OUT; cssLocalPath]) in
  slashes (path_relative cssDir (path_join [OUT; localAssetPath])).

Definition rewriteCssUrl (assetMap : gmap string string)
    (cssLocalPath cssUrl : string) (match_ assetUrl : string) : option string :=
  let trimmedUrl := Js.trim assetUrl in
  if Js.startsWith "data:" trimmedUrl || Js.startsWith "#" trimmedUrl
  then Some match_
  else
    l ← cssLookup assetMap cssUrl trimmedUrl;
    match l with
    | Some localAssetPath =>
        Some ("url(" +:+ Js.dquote +:+ cssRelative cssLocalPath localAssetPath
              +:+ Js.dquote +:+ ")")
    | None => Some match_
    end.

(** The body of the loop over [cssFiles] in [rewriteHtml]: the updated
    stylesheet text, [None] when the callback throws. *)
Definition rewriteCss (assetMap : gmap string string)
    (cssLocalPath cssUrl cssContent : string) : option string :=
  Regex.replace_allM re_css_url (rewriteCssUrl assetMap cssLocalPath cssUrl)
    cssContent.

(* --------------------------------------------------------------------- *)
(** ** PageTransformer: the rewrite of the asset attributes *)

Definition not_gt (c : ascii) : bool := negb (Js.chr_eqb c ">").
Definition not_quote (c : ascii) : bool := negb (is_quote c).

(** An opening tag with an attribute, flags [gi]: the tag name, at least
    one character other than the closing angle bracket, the attribute
    name and the equals sign, a quote, the captured run of characters
    other than quotes, a quote, the rest of the tag. *)
Definition re_tag_attr (tag attr : string) : Regex.regex :=
  Regex.RSeq (Regex.RLit tag)
    (Regex.RSeq (Regex.RPlus (Regex.RChr not_gt))
       (Regex.RSeq (Regex.RLit attr)
          (Regex.RSeq (Regex.RChr is_quote)
             (Regex.RSeq (Regex.RCap (Regex.RPlus (Regex.RChr not_quote)))
                (Regex.RSeq (Regex.RChr is_quote)
                   (Regex.RSeq (Regex.RStar true (Regex.RChr not_gt))
                      (Regex.RChr (Js.chr_eqb ">")))))))).

Definition re_link : Regex.regex := re_tag_attr "<link" "href=".
Definition re_script : Regex.regex := re_tag_attr "<script" "src=".
Definition re_img : Regex.regex := re_tag_attr "<img" "src=".

(** An attribute alone, flags [gi]: its name and the equals sign, a
    quote, the captured run of characters other than quotes, a quote. *)
Definition re_attr (attr : string) : Regex.regex :=
  Regex.RSeq (Regex.RLit attr)
    (Regex.RSeq (Regex.RChr is_quote)
       (Regex.RSeq (Regex.RCap (Regex.RPlus (Regex.RChr not_quote)))
          (Regex.RChr is_quote))).

Definition re_srcset : Regex.regex := re_attr "srcset=".
Definition re_href : Regex.regex := re_attr "href=".

Definition pageRelative (pageDir localPath : string) : string :=
  slashes (path_relative pageDir (path_join [OUT; localPath])).

(** The callback of the [<link>] pass. *)
Definition rewriteLink (assetMap : gmap string string) (pageDir : string)
    (match_ href : string) : string :=
  if Js.startsWith "#" href || Js.startsWith "mailto:" href
     || Js.startsWith "tel:" href
  then match_
  else match Js.truthy (assetMap !! href) with
       | Some localPath => Js.replaceStr match_ href (pageRelative pageDir localPath)
       | None => match_
       end.

(** The callback of the [<script>] and [<img>] passes. *)
Definition rewriteSrc (assetMap : gmap string string) (pageDir : string)
    (match_ src : string) : string :=
  if Js.startsWith "data:" src || Js.startsWith "blob:" src
  then match_
  else match Js.truthy (assetMap !! src) with
       | Some localPath => Js.replaceStr match_ src (pageRelative pageDir localPath)
       | None => match_
       end.

(** One entry of a [srcset]: [const [url, ...rest] = part.trim().split(/\s+/)]. *)
Definition rewriteSrcsetPart (assetMap : gmap string string) (pageDir : string)
    (part : string) : string :=
  let pieces := Js.splitWs (Js.trim part) in
  let url := Js.first pieces in
  let rest := tl pieces in
  if Js.startsWith "data:" url || Js.startsWith "blob:" url
  then Js.trim part
  else match Js.truthy (assetMap !! url) with
       | Some localPath => Js.join " " (pageRelative pageDir localPath :: rest)
       | None => Js.trim part
       end.

(** The callback of the [srcset] pass. *)
Definition rewriteSrcset (assetMap : gmap string string) (pageDir : string)
    (match_ srcset : string) : string :=
  let newSrcset :=
    Js.join ", " (map (rewriteSrcsetPart assetMap pageDir) (Js.split "," srcset)) in
  "srcset=" +:+ Js.dquote +:+ newSrcset +:+ Js.dquote.

Definition rewriteLinks (assetMap : gmap string string) (pageDir html : string) : string :=
  Regex.replace_all re_link (rewriteLink assetMap pageDir) html.
Definition rewriteScripts (assetMap : gmap string string) (pageDir html : string) : string :=
  Regex.replace_all re_script (rewriteSrc assetMap pageDir) html.
Definition rewriteImgs (assetMap : gmap string string) (pageDir html : string) : string :=
  Regex.replace_all re_img (rewriteSrc assetMap pageDir) html.
Definition rewriteSrcsets (assetMap : gmap string string) (pageDir html : string) : string :=
  Regex.replace_all re_srcset (rewriteSrcset assetMap pageDir) html.

(** The last four passes of [rewriteHtml], once [assetMap] is built. *)
Definition rewriteAttributes (assetMap : gmap string string) (pageDir html : string)
    : string :=
  rewriteSrcsets assetMap pageDir
    (rewriteImgs assetMap pageDir
       (rewriteScripts assetMap pageDir
          (rewriteLinks assetMap pageDir html))).

(* --------------------------------------------------------------------- *)
(** ** LinkResolver *)

(** The outcome of the callback for one [href]: leave the match alone, or
    a target path to be mapped to a local file. *)
Inductive target : Type :=
| Keep
| Target (targetPath : string).

(** The prefixes that are skipped at once. *)
Definition skippedHref (href : string) : bool :=
  Js.startsWith "#" href || Js.startsWith "mailto:" href
  || Js.startsWith "tel:" href || Js.startsWith "javascript:" href
  || Js.startsWith "data:" href || String.eqb href "#" || String.eqb href "".

(** The classification of [rewriteInternalLinks] in [scrape.mjs] and
    [rescrape-blank.mjs], branch by branch in the order of the source. *)
Definition linkTarget (baseOrigin pageUrl href : string) : target :=
  if Js.startsWith "http://" href || Js.startsWith "https://" href then
    match url_parse href None with
    | None => Keep
    | Some hrefUrl =>
        match normalizeOrigin (origin hrefUrl), normalizeOrigin baseOrigin with
        | Some a, Some b =>
            if String.eqb a b then Target (pathname hrefUrl) else Keep
        | _, _ => Keep
        end
    end
  else if Js.startsWith "/" href then Target href
  else if negb (Js.startsWith "//" href) then
    match url_parse href (Some pageUrl) with
    | None => Keep
    | Some resolvedUrl =>
        match normalizeOrigin (origin resolvedUrl), normalizeOrigin baseOrigin with
        | Some a, Some b =>
            if String.eqb a b then Target (pathname resolvedUrl) else Keep
        | _, _ => Keep
        end
    end
  else Keep.

(** The same in [fix-links.mjs], where relative references are skipped. *)
Definition linkTarget_fix (baseOrigin href : string) : target :=
  if Js.startsWith "http://" href || Js.startsWith "https://" href then
    match url_parse href None with
    | None => Keep
    | Some hrefUrl =>
        match normalizeOrigin (origin hrefUrl), normalizeOrigin baseOrigin with
        | Some a, Some b =>
            if String.eqb a b then Target (pathname hrefUrl) else Keep
        | _, _ => Keep
        end
    end
  else if Js.startsWith "/" href then Target href
  else if negb (Js.startsWith "//" href) then Keep
  else Keep.

(** The end of the callback: the local file of the target, and the
    rewrite when that file exists. *)
Definition rewriteTarget (fs : FileSystem) (pageDir : string)
    (match_ href : string) (t : target) : string :=
  match t with
  | Keep => match_
  | Target "" => match_
  | Target targetPath =>
      let localPath := safeFileName targetPath in
      let targetFile := path_join [OUT; localPath; "index.html"] in
      if existsSync fs targetFile then
        Js.replaceStr match_ href (slashes (path_relative pageDir targetFile))
      else match_
  end.

(** The callback of the replacement in [scrape.mjs] and
    [rescrape-blank.mjs], and the one in [fix-links.mjs]. *)
Definition linkCallback (fs : FileSystem) (pageUrl pageDir baseOrigin : string)
    (match_ href : string) : string :=
  if skippedHref href then match_
  else rewriteTarget fs pageDir match_ href (linkTarget baseOrigin pageUrl href).

Definition fixCallback (fs : FileSystem) (pageDir baseOrigin : string)
    (match_ href : string) : string :=
  if skippedHref href then match_
  else rewriteTarget fs pageDir match_ href (linkTarget_fix baseOrigin href).

(** [rewriteInternalLinks(html, pageUrl, pageDir)] of [scrape.mjs];
    [None] when [new URL(pageUrl)] or [new URL(BASE)] throws. *)
Definition rewriteInternalLinks (fs : FileSystem) (html pageUrl pageDir : string)
    : option string :=
  _ ← url_parse pageUrl None;
  baseUrlObj ← url_parse BASE None;
  Some (Regex.replace_all re_href
          (linkCallback fs pageUrl pageDir (origin baseUrlObj)) html).

(** [rewriteInternalLinks(html, filePath)] of [fix-links.mjs]. *)
Definition rewriteInternalLinks_fix (fs : FileSystem) (html filePath : string)
    : option string :=
  baseUrlObj ← url_parse BASE None;
  Some (Regex.replace_all re_href
          (fixCallback fs (path_dirname filePath) (origin baseUrlObj)) html).

(** One page of [processDirectory]: the file is written back when the
    text changed; an exception is logged and the file left alone. *)
Definition fixPage (fs : FileSystem) (fullPath : string) : FileSystem :=
  match files fs !! fullPath with
  | None => fs
  | Some html =>
      match rewriteInternalLinks_fix fs html fullPath with
      | None => fs
      | Some fixed =>
          if String.eqb fixed html then fs else writeFileSync fs fullPath fixed
      end
  end.

End Engine.

(* ===================================================================== *)
(** * IncompletePageDetector: the test of [findBlankPages] *)
(* ===================================================================== *)

(** The pattern of the body region, flag [i]: the opening tag up to its
    closing angle bracket, the captured text (as short as possible), the
    closing tag. *)
Definition re_body : Regex.regex :=
  Regex.RSeq (Regex.RLit "<body")
    (Regex.RSeq (Regex.RStar true (Regex.RChr not_gt))
       (Regex.RSeq (Regex.RChr (Js.chr_eqb ">"))
          (Regex.RSeq (Regex.RCap (Regex.RStar false (Regex.RChr (fun _ => true))))
             (Regex.RLit "</body>")))).

Definition lineCount (content : string) : nat :=
  length (Js.split "010" content).

(** [bodyMatch && bodyMatch[1] && bodyMatch[1].trim().length > 200] *)
Definition hasBodyContent (content : string) : bool :=
  match Regex.search re_body content with
  | None => false
  | Some x =>
      match Js.truthy (Regex.group x) with
      | None => false
      | Some body => 200 <? String.length (Js.trim body)
      end
  end.

Definition cloudflareMarkers : list string :=
  [ "The content of the page cannot be displayed"; "Just a moment";
    "Checking your browser" ].

Definition hasCloudflareError (content : string) : bool :=
  existsb (fun m => Js.includes m content) cloudflareMarkers.

(** The condition under which [findBlankPages] pushes a page. *)
Definition isBlankPage (content : string) : bool :=
  (lineCount content <? 50) || negb (hasBodyContent content)
  || hasCloudflareError content.

(* ===================================================================== *)
(** * MirrorDriver: the merge of the run report *)
(* ===================================================================== *)

(** One element of [results], and of a [failed] list. *)
Record PageResult : Type := MkResult {
  url : string;
  ok : bool;
  reason : string
}.

(** [_report.json]; a field that the stored object lacks is [None]. *)
Record Report : Type := MkReport {
  total : option nat;
  failed : option (list PageResult);
  assetsDownloaded : option nat
}.

Definition urlIn (urls : list string) (r : PageResult) : bool :=
  existsb (String.eqb (url r)) urls.

(** The report that the main script writes: [existing] is the parsed
    [_report.json] when the file exists and parses, [urls] the number of
    URLs of the run, [assets] the size of [downloadedAssets]. *)
Definition mergeReport (existing : option Report) (results : list PageResult)
    (urls assets : nat) : Report :=
  let failed_now := List.filter (fun r => negb (ok r)) results in
  let report := MkReport (Some urls) (Some failed_now) (Some assets) in
  match existing with
  | None => report
  | Some existing =>
      let existingFailedUrls := map url (default [] (failed existing)) in
      let newFailed :=
        List.filter (fun f => negb (urlIn existingFailedUrls f)) failed_now in
      if 0 <? length newFailed then
        MkReport (Some (Nat.max (default 0 (total existing)) urls))
          (Some (default [] (failed existing) ++ newFailed))
          (Some assets)
      else
        let successUrls := map url (List.filter ok results) in
        match successUrls, failed existing with
        | _ :: _, Some old =>
            MkReport (total existing)
              (Some (List.filter (fun f => negb (urlIn successUrls f)) old))
              (Some assets)
        | _, _ => report
        end
  end.

Definition failedUrls (r : Report) : list string :=
  map url (default [] (failed r)).

(* ===================================================================== *)
(** * A POSIX platform *)
(* ===================================================================== *)

(** A model of the platform for evaluating the functions above: POSIX
    paths, and URLs of the shape [scheme://host/path?query#fragment]
    (no percent-encoding, no user information, no default ports). *)
Module Posix.

Definition nonEmpty (s : string) : bool := negb (String.eqb s "").

(** Resolution of [.] and [..] segments, on a stack kept in reverse. *)
Fixpoint normalizeSegs (absolute : bool) (stack : list string)
    (segs : list string) : list string :=
  match segs with
  | [] => rev stack
  | seg :: segs' =>
      if String.eqb seg "" || String.eqb seg "." then
        normalizeSegs absolute stack segs'
      else if String.eqb seg ".." then
        match stack with
        | top :: stack' =>
            if String.eqb top ".." then normalizeSegs absolute (seg :: stack) segs'
            else normalizeSegs absolute stack' segs'
        | [] =>
            if absolute then normalizeSegs absolute [] segs'
            else normalizeSegs absolute [seg] segs'
        end
      else normalizeSegs absolute (seg :: stack) segs'
  end.

Definition segments (p : string) : list string :=
  normalizeSegs (Js.startsWith "/" p) [] (Js.split "/" p).

Definition normalize (p : string) : string :=
  let body := Js.join "/" (segments p) in
  let trailing :=
    if Js.endsWith "/" p && nonEmpty body then "/" else "" in
  if Js.startsWith "/" p then "/" +:+ body +:+ trailing
  else match body with
       | "" => "."
       | _ => body +:+ trailing
       end.

Definition join (parts : list string) : string :=
  match List.filter nonEmpty parts with
  | [] => "."
  | l => normalize (Js.join "/" l)
  end.

Fixpoint dropCommon (a b : list string) : list string * list string :=
  match a, b with
  | x :: a', y :: b' => if String.eqb x y then dropCommon a' b' else (a, b)
  | _, _ => (a, b)
  end.

(** [path.relative(from, to)]; a relative argument is resolved against
    the working directory [cwd]. *)
Definition relative (cwd from to : string) : string :=
  let abs := fun p => if Js.startsWith "/" p then p else cwd +:+ "/" +:+ p in
  let '(up, down) := dropCommon (segments (abs from)) (segments (abs to)) in
  Js.join "/" (map (fun _ => "..") up ++ down).

Fixpoint dropTrailingEmpty (l : list string) : list string :=
  match l with
  | [] => []
  | x :: l' =>
      match dropTrailingEmpty l' with
      | [] => if String.eqb x "" then [] else [x]
      | t => x :: t
      end
  end.

Definition dirname (p : string) : string :=
  match removelast (dropTrailingEmpty (Js.split "/" p)) with
  | [] => if Js.startsWith "/" p then "/" else "."
  | l => match Js.join "/" l with
         | "" => "/"
         | d => d
         end
  end.

Definition lastSegment (p : string) : string :=
  List.last (dropTrailingEmpty (Js.split "/" p)) "".

(** The position of the last dot of a name, if any. *)
Fixpoint lastDot (s : string) : option nat :=
  match s with
  | "" => None
  | String c s' =>
      match lastDot s' with
      | Some i => Some (S i)
      | None => if Js.chr_eqb c "." then Some 0 else None
      end
  end.

Definition extname (p : string) : string :=
  let base := lastSegment p in
  if String.eqb base ".." then ""
  else match lastDot base with
       | None | Some 0 => ""
       | Some i => Js.skipn i base
       end.

Definition basename (p ext : string) : string :=
  let base := lastSegment p in
  if nonEmpty ext && Js.endsWith ext base && negb (String.eqb base ext)
  then Js.firstn (String.length base - String.length ext) base
  else base.

(** URLs. *)
Definition lower (s : string) : string :=
  string_of_list_ascii (map Js.to_lower (list_ascii_of_string s)).

Definition is_stop (c : ascii) : bool :=
  Js.chr_eqb c "/" || Js.chr_eqb c "?" || Js.chr_eqb c "#".

Definition is_query_or_hash (c : ascii) : bool :=
  Js.chr_eqb c "?" || Js.chr_eqb c "#".

Definition is_scheme_chr (c : ascii) : bool :=
  is_alnum c || Js.chr_eqb c "+" || Js.chr_eqb c "-" || Js.chr_eqb c ".".

(** The scheme of an absolute URL and what follows the colon. *)
Definition schemeOf (s : string) : option (string * string) :=
  let sch := upto (fun c => negb (is_scheme_chr c)) s in
  let after := Js.skipn (String.length sch) s in
  match sch, after with
  | String c _, String ":" r =>
      if is_alpha c then Some (lower sch, r) else None
  | _, _ => None
  end.

Definition special (scheme : string) : bool :=
  String.eqb scheme "http" || String.eqb scheme "https".

Definition normalizePath (p : string) : string :=
  let body := Js.join "/" (normalizeSegs true [] (Js.split "/" p)) in
  "/" +:+ body +:+ (if Js.endsWith "/" p && nonEmpty body then "/" else "").

(** An absolute URL. *)
Definition parseAbsolute (s : string) : option URL :=
  match schemeOf s with
  | None => None
  | Some (scheme, r) =>
      if special scheme then
        if Js.startsWith "//" r then
          let r := Js.skipn 2 r in
          let host := lower (upto is_stop r) in
          let r := Js.skipn (String.length host) r in
          let path := upto is_query_or_hash r in
          let tail := Js.skipn (String.length path) r in
          if nonEmpty host then
            let o := scheme +:+ "://" +:+ host in
            let pn := normalizePath path in
            Some (MkURL (o +:+ pn +:+ tail) o (upto (Js.chr_eqb ":") host) pn)
          else None
        else None
      else
        Some (MkURL (scheme +:+ ":" +:+ r) "null" "" (upto is_query_or_hash r))
  end.

(** [new URL(input, base)]. *)
Definition parse (input : string) (base : option string) : option URL :=
  match parseAbsolute input with
  | Some u => Some u
  | None =>
      b ← base ≫= parseAbsolute;
      if String.eqb (origin b) "null" then None
      else if Js.startsWith "//" input then
        parseAbsolute (upto (Js.chr_eqb ":") (origin b) +:+ ":" +:+ input)
      else if Js.startsWith "/" input then parseAbsolute (origin b +:+ input)
      else if Js.startsWith "?" input || Js.startsWith "#" input
              || String.eqb input "" then
        parseAbsolute (origin b +:+ pathname b +:+ input)
      else
        parseAbsolute
          (origin b +:+ (match dirname (pathname b +:+ "x") with
                         | "/" => ""
                         | d => d
                         end) +:+ "/" +:+ input)
  end.

(** [u.hostname = h]; an empty host is ignored. *)
Definition setHostname (u : URL) (h : string) : URL :=
  match h with
  | "" => u
  | _ =>
      let scheme := upto (Js.chr_eqb ":") (origin u) in
      let port :=
        Js.skipn (String.length scheme + 3 + String.length (hostname u)) (origin u) in
      let o := scheme +:+ "://" +:+ h +:+ port in
      MkURL (o +:+ Js.skipn (String.length (origin u)) (href u)) o h (pathname u)
  end.

Definition platform (cwd : string) : Platform := {|
  url_parse := parse;
  url_set_hostname := setHostname;
  path_join := join;
  path_relative := relative cwd;
  path_dirname := dirname;
  path_basename := basename;
  path_extname := extname
|}.

End Posix.


(* ===================================================================== *)
(** * Auxiliary definitions of the proofs *)
(* ===================================================================== *)

(** The runs of a character test, spelled out. *)
Definition chr_step (p : ascii -> bool) (s : string) : list Regex.run :=
  match s with
  | String c s' => if p c then [Regex.Run (String c "") s' None] else []
  | "" => []
  end.

(** What a token stands for in the subject. *)
Definition spell (t : Regex.token) : string :=
  match t with
  | Regex.TLit c => String c ""
  | Regex.TMatch m _ => m
  end.

Definition queryOrHash (c : ascii) : bool := Js.chr_eqb c "?" || Js.chr_eqb c "#".

Fixpoint repeatChr (n : nat) (c : ascii) : string :=
  match n with
  | 0 => ""
  | S n' => String c (repeatChr n' c)
  end.

Fixpoint countChr (c : ascii) (s : string) : nat :=
  match s with
  | "" => 0
  | String d s' => (if Js.chr_eqb d c then 1 else 0) + countChr c s'
  end.

(** Documents for the detector: a short page with next to no body, the
    same page with 201 characters of body text, and that page again on
    fifty lines. *)
Definition doc_short : string := "<html><body>hi</body></html>".
Definition doc_long_body : string :=
  "<html><body>" +:+ repeatChr 201 "a" +:+ "</body></html>".
Definition doc_full : string := repeatChr 49 "010" +:+ doc_long_body.

(** A stored report with one failure, and a run in which that page
    succeeds while another one fails. *)
Definition page_a : string := "https://www.fruitpunch.ai/a".
Definition page_b : string := "https://www.fruitpunch.ai/b".
Definition page_c : string := "https://www.fruitpunch.ai/c".
Definition stored_report : Report :=
  MkReport (Some 2) (Some [MkResult page_a false "Timeout"]) (Some 0).
Definition run_results : list PageResult :=
  [MkResult page_a true ""; MkResult page_b false "Timeout"].

(** The platform and the states of the examples. *)
Definition site : Platform := Posix.platform "/site".
Definition site_out : string := "/site/offline".
Definition run0 : Run := MkRun ∅ (MkFS ∅ ∅) [].

Definition net_down : nat -> string -> reply := fun _ _ => NetworkError.
Definition net_ok : nat -> string -> reply := fun _ _ => Response true "text/css" "body{}".

Definition home_url : string := "https://www.fruitpunch.ai/".
Definition about_url : string := "https://www.fruitpunch.ai/about/".
Definition sheet_url : string := "https://www.fruitpunch.ai/css/main.css".
Definition font_url : string := "https://www.fruitpunch.ai/css/brand.woff2".
Definition evil_url : string := "https://unpkg.com.evil.example/x.js".

(** Mirrors and documents of the examples. *)
Definition home_dir : string := "/site/offline/index".
Definition mirror_about : FileSystem :=
  MkFS {[ "/site/offline/about/index.html" := "<h1>About</h1>" ]} ∅.

Definition srcset_doc : string := "<img srcset='a.png 1x,b.png 2x'>".

Definition section_page : string := "/site/offline/a/index.html".
Definition mirror_dollar : FileSystem :=
  MkFS {[ section_page := "<a href='/a/$&x/'>x</a>";
          "/site/offline/a/$&x/index.html" := "<p>x</p>";
          "/site/offline/a/$&x/x/index.html/index.html" := "<p>y</p>" ]}
       {[ "/site/offline/a"; "/site/offline/a/$&x"; "/site/offline/a/$&x/x";
          "/site/offline/a/$&x/x/index.html" ]}.

(** ** The stylesheet pattern, matched by hand

    The pattern of [re_css_url] never has to backtrack with success: the
    captured run ends at the first quote or closing parenthesis.  The
    functions below match it in one pass; [CssPatternFacts] proves that
    they agree with the matcher. *)

(** A literal under the [i] flag at the start of [s]: the text as it is
    in [s], and what follows. *)
Fixpoint lit_at (w s : string) : option (string * string) :=
  match w with
  | "" => Some ("", s)
  | String a w' =>
      match s with
      | String b s' =>
          if Js.chr_eqb_ci a b then
            match lit_at w' s' with
            | Some (c, r) => Some (String b c, r)
            | None => None
            end
          else None
      | "" => None
      end
  end.

(** An optional quote. *)
Definition quote_at (s : string) : string * string :=
  match s with
  | String c r => if is_quote c then (String c "", r) else ("", s)
  | "" => ("", s)
  end.

(** The end of a reference: an optional quote and the parenthesis. *)
Definition closing_at (s : string) : option (string * string) :=
  match s with
  | String c s' =>
      if is_quote c then
        match s' with
        | String d r => if Js.chr_eqb ")" d then Some (String c (String d ""), r) else None
        | "" => None
        end
      else if Js.chr_eqb ")" c then Some (String c "", s')
      else None
  | "" => None
  end.

Definition css_stop (c : ascii) : bool := negb (css_url_chr c).

Definition css_at (s : string) : option Regex.run :=
  match lit_at "url(" s with
  | None => None
  | Some (u, s1) =>
      let '(oq, s2) := quote_at s1 in
      match s2 with
      | String c _ =>
          if css_url_chr c then
            match closing_at (from css_stop s2) with
            | Some (cl, rest) =>
                Some (Regex.Run (u +:+ oq +:+ upto css_stop s2 +:+ cl) rest
                        (Some (upto css_stop s2)))
            | None => None
            end
          else None
      | "" => None
      end
  end.

(** What the callback of the stylesheet rewrite decides for a captured
    reference: to keep it ([Some None]), to point it to a local path, or
    to throw ([None]). *)
Definition cssTarget `{P : Platform} (assetMap : gmap string string)
    (cssUrl assetUrl : string) : option (option string) :=
  if Js.startsWith "data:" (Js.trim assetUrl) || Js.startsWith "#" (Js.trim assetUrl)
  then Some None
  else cssLookup assetMap cssUrl (Js.trim assetUrl).

(** The text of a rewritten reference. *)
Definition cssCanonical (rel : string) : string :=
  "url(" +:+ Js.dquote +:+ rel +:+ Js.dquote +:+ ")".

Fixpoint allChr (p : ascii -> bool) (s : string) : bool :=
  match s with
  | "" => true
  | String c s' => p c && allChr p s'
  end.

(** A rewritten reference is settled when its text can be read back (it
    is not empty and holds no quote and no closing parenthesis) and the
    callback keeps it. *)
Definition settled `{P : Platform} (OUT : string) (assetMap : gmap string string)
    (cssLocalPath cssUrl localAssetPath : string) : Prop :=
  let rel := cssRelative OUT cssLocalPath localAssetPath in
  rel <> "" /\ allChr css_url_chr rel = true /\
  cssTarget assetMap cssUrl rel = Some None.

(** A run that stops in front of a character of the test [p]. *)
Definition starts_with_chr (p : ascii -> bool) (x : Regex.run) : Prop :=
  exists c r, Regex.rest x = String c r /\ p c = true.

(** The end of the stylesheet pattern, and the captured run with it. *)
Definition re_closing : Regex.regex :=
  Regex.RSeq (Regex.ROpt (Regex.RChr is_quote)) (Regex.RChr (Js.chr_eqb ")")).

Definition re_reference : Regex.regex :=
  Regex.RSeq (Regex.RCap (Regex.RPlus (Regex.RChr css_url_chr))) re_closing.

(** Whether the text from the first quote or closing parenthesis of [s]
    on ends a reference. *)
Definition tailmatch (s : string) : bool :=
  match closing_at (from css_stop s) with
  | Some _ => true
  | None => false
  end.

(** What follows the word and the parenthesis of a reference. *)
Definition body_ok (s1 : string) : bool :=
  match snd (quote_at s1) with
  | String c _ => css_url_chr c && tailmatch (snd (quote_at s1))
  | "" => false
  end.

Definition head_u (s : string) : Prop :=
  exists a s0, s = String a s0 /\ Js.chr_eqb_ci "u" a = true.

(** A reference [m] of a stylesheet and the text [r] that the rewrite
    puts in its place. *)
Definition block (m r : string) : Prop :=
  head_u m /\ head_u r /\
  ((forall t, tailmatch (m +:+ t) = true) \/ (forall t, tailmatch (r +:+ t) = false)).

(** [rendered s s']: [s'] is [s] with some of its references replaced. *)
Inductive rendered : string -> string -> Prop :=
| rendered_nil : rendered "" ""
| rendered_chr (c : ascii) (s s' : string) :
    rendered s s' -> rendered (String c s) (String c s')
| rendered_block (m r s s' : string) :
    block m r -> rendered s s' -> rendered (m +:+ s) (r +:+ s').

(** The test [p] on the first character, [false] on the empty string. *)
Definition firstChr (p : ascii -> bool) (s : string) : bool :=
  match s with
  | String c _ => p c
  | "" => false
  end.

Definition body2 (s : string) : bool := firstChr css_url_chr s && tailmatch s.

(** The parts of a reference: the word with the parenthesis, the opening
    quote if any, the captured text, the end. *)
Definition shape (u oq cap cl : string) : Prop :=
  (forall t, lit_at "url(" (u +:+ t) = Some (u, t)) /\
  allChr css_url_chr u = true /\ head_u u /\
  (oq = "" \/ exists q, oq = String q "" /\ is_quote q = true) /\
  cap <> "" /\ allChr css_url_chr cap = true /\
  (forall t, closing_at (cl +:+ t) = Some (cl, t)) /\
  firstChr css_stop cl = true.

(** Stylesheets and maps of the examples. *)
Definition style_url : string := "https://www.fruitpunch.ai/s.css".
Definition style_local : string := "_assets/asset__s_css.css".
Definition style_text : string := "a{background:url(b.png)} b{src:url('c.png')}".

Definition plain_map : gmap string string :=
  {[ "b.png" := "_assets/asset__b_png.png" ]}.

(** A map in which the name of a local copy is also the URL of another
    asset of the site. *)
Definition chained_map : gmap string string :=
  {[ "b.png" := "_assets/asset__b_png.png";
     "asset__b_png.png" := "_assets/asset__asset__b_png_png.png" ]}.

(** ** The attribute pattern, matched by hand *)

(** The pattern of [re_attr]: the name with the equals sign, a quote, the
    run of characters up to the next quote (not empty), that quote. *)
Definition attr_at (attr s : string) : option Regex.run :=
  match lit_at attr s with
  | None => None
  | Some (u, s1) =>
      match s1 with
      | String q s2 =>
          if is_quote q then
            match s2 with
            | String c _ =>
                if not_quote c then
                  match from is_quote s2 with
                  | String q' rest =>
                      Some (Regex.Run
                              (u +:+ String q (upto is_quote s2 +:+ String q' ""))
                              rest (Some (upto is_quote s2)))
                  | "" => None
                  end
                else None
            | "" => None
            end
          else None
      | "" => None
      end
  end.

(** The captured run with the closing quote. *)
Definition re_value : Regex.regex :=
  Regex.RSeq (Regex.RCap (Regex.RPlus (Regex.RChr not_quote))) (Regex.RChr is_quote).

Definition has_quote (s : string) : bool :=
  match from is_quote s with
  | "" => false
  | _ => true
  end.

Definition value_ok (s : string) : bool := firstChr not_quote s && has_quote s.

Definition head_h (s : string) : Prop :=
  exists a s0, s = String a s0 /\ Js.chr_eqb_ci "h" a = true.

(** An attribute [m] of a page and the text [r] that the repair pass
    puts in its place. *)
Definition link_block (m r : string) : Prop :=
  head_h m /\ head_h r /\ forall t, has_quote (m +:+ t) = true.

(** [relinked s s']: [s'] is [s] with some of its attributes replaced. *)
Inductive relinked : string -> string -> Prop :=
| relinked_nil : relinked "" ""
| relinked_chr (c : ascii) (s s' : string) :
    relinked s s' -> relinked (String c s) (String c s')
| relinked_block (m r s s' : string) :
    link_block m r -> relinked s s' -> relinked (m +:+ s) (r +:+ s').

(** The parts of an attribute: the name with the equals sign, the quotes
    and the value. *)
Definition attr_shape (u : string) (q : ascii) (cap : string) (q' : ascii) : Prop :=
  (forall t, lit_at "href=" (u +:+ t) = Some (u, t)) /\
  String.length u = 5 /\ head_h u /\
  allChr (fun c => negb (Js.chr_eqb c "/")) u = true /\
  allChr (fun c => negb (Js.chr_eqb c "h")) (Js.skipn 1 u) = true /\
  firstChr (Js.chr_eqb "t") (Js.skipn 1 u) = false /\
  is_quote q = true /\ cap <> "" /\ allChr not_quote cap = true /\
  is_quote q' = true.

Definition attr_text (u : string) (q : ascii) (cap : string) (q' : ascii) : string :=
  u +:+ String q (cap +:+ String q' "").

(** A relative path that the repair pass can write and read back: not
    empty, without quote and without dollar sign, and neither a path from
    the root nor an absolute URL. *)
Definition plainPath (rel : string) : Prop :=
  rel <> "" /\ allChr not_quote rel = true /\
  allChr (fun c => negb (Js.chr_eqb c "$")) rel = true /\
  Js.startsWith "/" rel = false /\ Js.startsWith "http://" rel = false /\
  Js.startsWith "https://" rel = false.

(** The path that the callback of [fix-links.mjs] writes for a
    reference, if it rewrites it. *)
Definition fixPath `{P : Platform} (OUT : string) (fs : FileSystem)
    (pageDir baseOrigin href : string) : option string :=
  if skippedHref href then None
  else match linkTarget_fix baseOrigin href with
       | Keep => None
       | Target "" => None
       | Target targetPath =>
           let targetFile := path_join [OUT; safeFileName targetPath; "index.html"] in
           if existsSync fs targetFile
           then Some (slashes (path_relative pageDir targetFile))
           else None
       end.

(** A reference that the repair pass resolves: a path from the root or
    an absolute URL. *)
Definition rooted (href : string) : Prop :=
  (exists r, href = String "/" r) \/ (exists r, href = String "h" (String "t" r)).

(** A page of [mirror_about] that links to the page on disk. *)
Definition home_page : string := "/site/offline/index/index.html".
Definition home_html : string := "<a href='/about/'>About</a> <a href='#top'>Top</a>".

(** ** The body region, read off the text

    The body region that the detector measures, found without the
    matcher: it opens at the first place where the text reads [<body]
    (in any case) with a [>] somewhere after it and a closing tag
    [</body>] (in any case) somewhere after the first such [>]; it is
    the text between that [>] and the first closing tag after it.
    [BodyPatternFacts] proves that [hasBodyContent] tests this region. *)

Definition is_gt (c : ascii) : bool := Js.chr_eqb c ">".

(** The text in front of the first closing tag; [None] when there is no
    closing tag. *)
Fixpoint untilClose (s : string) : option string :=
  match lit_at "</body>" s with
  | Some _ => Some ""
  | None =>
      match s with
      | "" => None
      | String c s' => String c <$> untilClose s'
      end
  end.

(** The body region that opens at the start of [s]. *)
Definition bodyAt (s : string) : option string :=
  match lit_at "<body" s with
  | None => None
  | Some (_, r) =>
      match from is_gt r with
      | "" => None
      | String _ r' => untilClose r'
      end
  end.

(** The first body region of [s]. *)
Fixpoint bodyRegion (s : string) : option string :=
  match bodyAt s with
  | Some body => Some body
  | None =>
      match s with
      | "" => None
      | String _ s' => bodyRegion s'
      end
  end.

(** The ways of cutting [s] in two, the shortest first part first: the
    runs of the lazy star of the body pattern. *)
Fixpoint cuts (s : string) : list Regex.run :=
  Regex.Run "" s None ::
  match s with
  | "" => []
  | String c s' => map (Regex.extend (Regex.Run (String c "") s' None)) (cuts s')
  end.

(** The capture group around a run, and a run that starts one
    character earlier. *)
Definition captured (x : Regex.run) : Regex.run :=
  Regex.Run (Regex.consumed x) (Regex.rest x) (Some (Regex.consumed x)).

Definition push (c : ascii) (x : Regex.run) : Regex.run :=
  Regex.Run (String c (Regex.consumed x)) (Regex.rest x)
    (String c <$> Regex.group x).

(** The captured text and the closing tag of the body pattern. *)
Definition re_body_tail : Regex.regex :=
  Regex.RSeq (Regex.RCap (Regex.RStar false (Regex.RChr (fun _ => true))))
    (Regex.RLit "</body>").

(** A page of 50 lines whose head holds a script that spells an empty
    body region, in front of a body of 201 characters. *)
Definition doc_script_body : string :=
  repeatChr 49 "010"
  +:+ "<html><head><script>var t='<body></body>';</script></head><body>"
  +:+ repeatChr 201 "a" +:+ "</body></html>".

(* ===================================================================== *)
(** * Further functions of the scripts *)
(* ===================================================================== *)

(** The first capture group of each match of [s.matchAll(/r/g)], in the
    order of the matches. *)
Definition captures (r : Regex.regex) (s : string) : list string :=
  flat_map (fun t => match t with
                     | Regex.TMatch _ g => [default "" g]
                     | Regex.TLit _ => []
                     end) (Regex.scan r s).

(** [set.add(x)] on a [Set], kept in insertion order. *)
Definition setAdd (x : string) (set : list string) : list string :=
  if existsb (String.eqb x) set then set else set ++ [x].

(** The pattern of the [@import] rules, flags [gi]: the word, white
    space, an optional [url(], an optional quote, the captured run of
    characters other than quotes and closing parentheses, an optional
    quote, an optional closing parenthesis. *)
Definition re_css_import : Regex.regex :=
  Regex.RSeq (Regex.RLit "@import")
    (Regex.RSeq (Regex.RPlus (Regex.RChr Js.is_ws))
       (Regex.RSeq (Regex.ROpt (Regex.RLit "url("))
          (Regex.RSeq (Regex.ROpt (Regex.RChr is_quote))
             (Regex.RSeq (Regex.RCap (Regex.RPlus (Regex.RChr css_url_chr)))
                (Regex.RSeq (Regex.ROpt (Regex.RChr is_quote))
                   (Regex.ROpt (Regex.RChr (Js.chr_eqb ")")))))))).

(** <<
async function extractAssetsFromCss(cssContent, cssUrl) {
  const assets = new Set();
  const importMatches = cssContent.matchAll(/@import\s+(?:url\()?["']?([^"')]+)["']?\)?/gi);
  for (const match of importMatches) { assets.add(match[1]); }
  const urlMatches = cssContent.matchAll(/url\(["']?([^"')]+)["']?\)/gi);
  for (const match of urlMatches) {
    const url = match[1].trim();
    if (!url.startsWith('data:') && !url.startsWith('#')) { assets.add(url); }
  }
  return assets;
}
>> *)
Definition extractAssetsFromCss (cssContent cssUrl : string) : list string :=
  let assets :=
    fold_left (fun assets m => setAdd m assets)
      (captures re_css_import cssContent) [] in
  fold_left
    (fun assets m =>
       let url := Js.trim m in
       if negb (Js.startsWith "data:" url) && negb (Js.startsWith "#" url)
       then setAdd url assets
       else assets)
    (captures re_css_url cssContent) assets.

(** ** The pages of an existing mirror *)

(** What [fs.readdirSync(dir, { withFileTypes: true })] yields: the
    entries of a directory with their names, a directory entry with the
    entries that reading it yields in turn (none when reading it throws:
    the exception is caught around the loop). *)
#[warnings="-register-all"]
Inductive Dirent : Type :=
| DFile (name : string)
| DDir (name : string) (entries : list Dirent).

(** The body of the loop of [scanDirectory] in
    [getUrlsFromExistingScrape], for one entry; [urls] is the set that
    the function fills. *)
Fixpoint scanEntry (basePath : string) (entry : Dirent) (urls : list string)
    : list string :=
  match entry with
  | DFile name =>
      if Js.startsWith "_" name then urls
      else if String.eqb name "index.html" then
        let urlPath := Js.orElse basePath "/" in
        let urlPath := if String.eqb urlPath "/" then urlPath else "/" +:+ urlPath in
        setAdd (BASE +:+ urlPath) urls
      else urls
  | DDir name entries =>
      if Js.startsWith "_" name then urls
      else
        let newBase :=
          match basePath with
          | "" => name
          | _ => basePath +:+ "/" +:+ name
          end in
        fold_left (fun urls e => scanEntry newBase e urls) entries urls
  end.

Definition scanDirectory (entries : list Dirent) (basePath : string)
    (urls : list string) : list string :=
  fold_left (fun urls e => scanEntry basePath e urls) entries urls.

(** [getUrlsFromExistingScrape()]: [root] is the listing of [OUT],
    [None] when [OUT] does not exist. *)
Definition getUrlsFromExistingScrape (root : option (list Dirent)) : list string :=
  match root with
  | Some entries => scanDirectory entries "" []
  | None => []
  end.

Section Mirror.

Context `{P : Platform}.

Variable OUT : string.

(** <<
function filePathToUrlPath(filePath) {
  const relativePath = path.relative(OUT, filePath);
  const dirPath = path.dirname(relativePath);
  if (dirPath === "." || dirPath === "index" || relativePath === "index/index.html") {
    return "/";
  }
  return "/" + dirPath + "/";
}
>> *)
Definition filePathToUrlPath (filePath : string) : string :=
  let relativePath := path_relative OUT filePath in
  let dirPath := path_dirname relativePath in
  if String.eqb dirPath "." || String.eqb dirPath "index"
     || String.eqb relativePath "index/index.html"
  then "/"
  else "/" +:+ dirPath +:+ "/".

(** The file in which the main script stores the page of a URL path:
    [path.join(path.join(OUT, safeFileName(u.pathname)), "index.html")]. *)
Definition pageFile (urlPath : string) : string :=
  path_join [path_join [OUT; safeFileName urlPath]; "index.html"].

(** The URL under which [findBlankPages] lists the page document of a
    file: [new URL(filePathToUrlPath(fullPath), BASE).href]; [None] when
    [new URL] throws (the page is then logged and skipped). *)
Definition blankPageUrl (fullPath : string) : option string :=
  href <$> url_parse (filePathToUrlPath fullPath) (Some BASE).

(** The file that [rescrapeUrl] writes for a URL: the page file of the
    path name of [new URL(fullUrl)]; [None] when [new URL] throws. *)
Definition rescrapeFile (fullUrl : string) : option string :=
  u ← url_parse fullUrl None; Some (pageFile (pathname u)).

(** What [scrapeUrls] decides for a URL before it opens the page:
    [new URL(fullUrl)] and the origin test, then the file of the page.
    [None] when [new URL] throws, [Some None] for the result
    [Different origin]. *)
Definition scrapeFile (fullUrl : string) : option (option string) :=
  u ← url_parse fullUrl None;
  a ← normalizeOrigin (origin u);
  b ← normalizeOrigin BASE;
  if String.eqb a b then Some (Some (pageFile (pathname u))) else Some None.

(** A URL to which [downloadAsset] sends a request: it parses, and it is
    of the site or of one of the listed hosts. *)
Definition eligible (u : string) : Prop :=
  exists urlObj, url_parse u None = Some urlObj /\
    (isSameOrigin (origin urlObj) = Some true \/
     isCommonCDN (hostname urlObj) = true).

(** Every path of [downloadedAssets] names a file of the assets
    directory that is on the disk. *)
Definition stored (st : Run) : Prop :=
  forall u p, downloadedAssets st !! u = Some p ->
    exists filename,
      p = slashes (path_relative OUT (path_join [ASSETS_DIR OUT; filename])) /\
      is_Some (files (disk st) !! path_join [ASSETS_DIR OUT; filename]).

End Mirror.

(** ** The list of local links (the script that follows the scraper in
       scrape.mjs) *)

(** [s.replace(/lit$/, repl)] for a literal pattern: the match, if there
    is one, is the end of the string. *)
Definition replace_end (lit repl s : string) : string :=
  if Js.endsWith lit s
  then Js.firstn (String.length s - String.length lit) s +:+ repl
  else s.

Definition PORT : string := "8000".

Section Links.

Context `{P : Platform}.

(** The body of the loop of [findHtmlFiles], for one entry; reading a
    directory is taken to succeed (the script has no handler). *)
Fixpoint findEntry (basePath : string) (entry : Dirent) : list string :=
  match entry with
  | DDir name entries =>
      let relativePath := path_join [basePath; name] in
      if Js.startsWith "_" name then []
      else flat_map (findEntry relativePath) entries
  | DFile name =>
      let relativePath := path_join [basePath; name] in
      if String.eqb name "index.html" then
        let urlPath := replace_end "/index.html" "" (slashes relativePath) in
        [Js.orElse urlPath "/"]
      else []
  end.

Definition findHtmlFiles (entries : list Dirent) (basePath : string) : list string :=
  flat_map (findEntry basePath) entries.

(** One element of [links]. *)
Definition localhostLink (filePath : string) : string :=
  if String.eqb filePath "/"
  then "http://localhost:" +:+ PORT +:+ "/index/index.html"
  else "http://localhost:" +:+ PORT +:+ "/" +:+ filePath +:+ "/index.html".

(** [links], before it is sorted. *)
Definition localhostLinks (entries : list Dirent) : list string :=
  map localhostLink (findHtmlFiles entries "").

End Links.

(** ** Auxiliary definitions of the further proofs *)

(** [s.replace(/[...]/g, r)] for a character class, one character at a
    time. *)
Fixpoint substChr (p : ascii -> bool) (r : string) (s : string) : string :=
  match s with
  | "" => ""
  | String c s' => (if p c then r else String c "") +:+ substChr p r s'
  end.

(** A name of a directory of the mirror: not empty, not [.] or [..],
    without slash, question mark or hash sign. *)
Definition seg_chr (c : ascii) : bool :=
  negb (Js.chr_eqb c "/" || Js.chr_eqb c "?" || Js.chr_eqb c "#").

Definition cleanSeg (s : string) : bool :=
  negb (String.eqb s "") && negb (String.eqb s ".") && negb (String.eqb s "..")
  && allChr seg_chr s.

(** [page_in entries segs]: below [entries], the directories [segs]
    (none of them skipped) lead to a page document. *)
Inductive page_in : list Dirent -> list string -> Prop :=
| page_here (entries : list Dirent) :
    In (DFile "index.html") entries -> page_in entries []
| page_below (entries : list Dirent) (name : string) (sub : list Dirent)
    (segs : list string) :
    In (DDir name sub) entries -> Js.startsWith "_" name = false ->
    page_in sub segs -> page_in entries (name :: segs).

(** The names of a listing are those of a file system: no directory
    has an empty name or a slash in its name. *)
Definition dir_name (s : string) : bool :=
  negb (String.eqb s "") && allChr (fun c => negb (Js.chr_eqb c "/")) s.

Fixpoint named (e : Dirent) : bool :=
  match e with
  | DFile _ => true
  | DDir name entries => dir_name name && forallb named entries
  end.

Definition is_slash (c : ascii) : bool := Js.chr_eqb c "/".

(** A clean name without backslash, and a listing all of whose
    directories have such names. *)
Definition link_name (s : string) : bool :=
  cleanSeg s && allChr (fun c => negb (Js.chr_eqb "\" c)) s.

Fixpoint linkable (e : Dirent) : bool :=
  match e with
  | DFile _ => true
  | DDir name entries => link_name name && forallb linkable entries
  end.

(** A clean name made of letters, digits, dots, underscores and
    hyphens, which URL parsing leaves as it is; a listing all of whose
    directories have such names. *)
Definition url_name (s : string) : bool := cleanSeg s && allChr is_file_char s.

Fixpoint url_listing (e : Dirent) : bool :=
  match e with
  | DFile _ => true
  | DDir name entries => url_name name && forallb url_listing entries
  end.

(** The element that [findHtmlFiles] lists for the page below the
    directories [segs]. *)
Definition listedPath (segs : list string) : string :=
  match segs with
  | [] => "index.html"
  | _ => Js.join "/" segs
  end.

Definition cleanName (s : string) : Prop := cleanSeg s = true.

(** The URL that the scan of an existing mirror gives to the page below
    the directories [bs ++ segs]. *)
Definition urlOf (bs segs : list string) : string :=
  BASE +:+ "/" +:+ Js.join "/" (bs ++ segs).

(** What the scan of one entry adds to the set, when the scan has
    descended through the directories [bs]. *)
Definition scan_ok (e : Dirent) : Prop :=
  named e = true ->
  forall bs urls u, Forall (fun s => dir_name s = true) bs ->
    In u (scanEntry (Js.join "/" bs) e urls) <->
    In u urls \/ exists segs, page_in [e] segs /\ u = urlOf bs segs.

(** Data of the examples: a mirror with the home page and one more page;
    the listing of a mirror; two paths of responsive variants of one
    image, which agree on their first fifty characters. *)
Definition mirror_home : FileSystem :=
  MkFS {[ home_page := home_html;
          "/site/offline/about/index.html" := "<h1>About</h1>" ]}
       {[ "/site/offline/index"; "/site/offline/about" ]}.

Definition listing : list Dirent :=
  [ DDir "_assets" [DFile "index.html"];
    DDir "index" [DFile "index.html"; DFile "screenshot.png"];
    DDir "blog" [DDir "post" [DFile "index.html"]];
    DFile "_report.json" ].

Definition listing_root : list Dirent := DFile "index.html" :: listing.

Definition variant_500 : string :=
  "/62a0a4e5d3e1c24c4ff4e5a7/62a0a4e5d3e1c2f1a6f4e5c3_logo-p-500.png".
Definition variant_800 : string :=
  "/62a0a4e5d3e1c24c4ff4e5a7/62a0a4e5d3e1c2f1a6f4e5c3_logo-p-800.png".

Definition base_url : URL :=
  MkURL "https://www.fruitpunch.ai/" "https://www.fruitpunch.ai"
    "www.fruitpunch.ai" "/".

(* ===================================================================== *)
(** * Facts on strings and on the matcher *)
(* ===================================================================== *)

Module JsFacts.

Lemma app_nil_l (s : string) : "" +:+ s = s.
Proof. reflexivity. Qed.

Lemma app_cons (c : ascii) (s t : string) :
  String c s +:+ t = String c (s +:+ t).
Proof. reflexivity. Qed.

Lemma app_nil_r (s : string) : s +:+ "" = s.
Proof.
  induction s as [|c s IH]; [reflexivity|].
  rewrite app_cons, IH. reflexivity.
Qed.

Lemma app_assoc (s t u : string) : (s +:+ t) +:+ u = s +:+ (t +:+ u).
Proof.
  induction s as [|c s IH]; [reflexivity|].
  rewrite !app_cons, IH. reflexivity.
Qed.

Lemma length_app (s t : string) :
  String.length (s +:+ t) = String.length s + String.length t.
Proof.
  induction s as [|c s IH]; [reflexivity|].
  rewrite app_cons. simpl. rewrite IH. reflexivity.
Qed.

Lemma chr_eqb_eq (a b : ascii) : Js.chr_eqb a b = true <-> a = b.
Proof. unfold Js.chr_eqb. apply Ascii.eqb_eq. Qed.

Lemma chr_eqb_refl (a : ascii) : Js.chr_eqb a a = true.
Proof. apply chr_eqb_eq. reflexivity. Qed.

Lemma skipn_length_app (p q : string) : Js.skipn (String.length p) (p +:+ q) = q.
Proof. induction p as [|c p IH]; [reflexivity|]. simpl. exact IH. Qed.

Lemma firstn_length_app (p q : string) : Js.firstn (String.length p) (p +:+ q) = p.
Proof. induction p as [|c p IH]; [reflexivity|]. simpl. rewrite IH. reflexivity. Qed.

Lemma chr_eqb_sym (a b : ascii) : Js.chr_eqb a b = Js.chr_eqb b a.
Proof. unfold Js.chr_eqb. apply Ascii.eqb_sym. Qed.

End JsFacts.

Module RegexFacts.

Import Regex.

(** Every run splits the subject: what it consumed, then what is left. *)
Lemma star_runs_split (step : string -> list run) (g : bool) :
  (forall s x, In x (step s) -> consumed x +:+ rest x = s) ->
  forall n s x, In x (star_runs step g n s) -> consumed x +:+ rest x = s.
Proof.
  intros Hstep n. induction n as [|n IH]; intros s x Hx; simpl in Hx.
  - destruct Hx as [<-|[]]. reflexivity.
  - assert (Hmore : forall y,
      In y (flat_map (fun r1 =>
              match consumed r1 with
              | "" => []
              | _ => map (extend r1) (star_runs step g n (rest r1))
              end) (step s)) -> consumed y +:+ rest y = s).
    { intros y Hy. apply in_flat_map in Hy as (r1 & Hr1 & Hy).
      destruct (consumed r1) eqn:Hc; [destruct Hy|].
      apply in_map_iff in Hy as (r2 & <- & Hr2).
      simpl. rewrite JsFacts.app_assoc, (IH _ _ Hr2), Hc.
      rewrite <- Hc. apply Hstep, Hr1. }
    destruct g.
    + apply in_app_iff in Hx as [Hx|[<-|[]]]; [apply Hmore, Hx|reflexivity].
    + destruct Hx as [<-|Hx]; [reflexivity|apply Hmore, Hx].
Qed.

Lemma runs_split (r : regex) :
  forall s x, In x (runs r s) -> consumed x +:+ rest x = s.
Proof.
  induction r as [|p|r1 IH1 r2 IH2|r1 IH1 r2 IH2|g r1 IH1|r1 IH1];
    intros s x Hx; simpl in Hx.
  - destruct Hx as [<-|[]]. reflexivity.
  - destruct s as [|c s]; [destruct Hx|].
    destruct (p c); [|destruct Hx].
    destruct Hx as [<-|[]]. reflexivity.
  - apply in_flat_map in Hx as (x1 & Hx1 & Hx).
    apply in_map_iff in Hx as (x2 & <- & Hx2).
    simpl. rewrite JsFacts.app_assoc, (IH2 _ _ Hx2). apply IH1, Hx1.
  - apply in_app_iff in Hx as [Hx|Hx]; [apply IH1, Hx|apply IH2, Hx].
  - eapply star_runs_split; [apply IH1|apply Hx].
  - apply in_map_iff in Hx as (x1 & <- & Hx1). simpl. apply IH1, Hx1.
Qed.

Lemma runs_chr (p : ascii -> bool) (s : string) : runs (RChr p) s = chr_step p s.
Proof. reflexivity. Qed.

Lemma runs_seq (r1 r2 : regex) (s : string) :
  runs (RSeq r1 r2) s
  = flat_map (fun x => map (extend x) (runs r2 (rest x))) (runs r1 s).
Proof. reflexivity. Qed.

Lemma runs_alt (r1 r2 : regex) (s : string) :
  runs (RAlt r1 r2) s = runs r1 s ++ runs r2 s.
Proof. reflexivity. Qed.

Lemma runs_star (g : bool) (r : regex) (s : string) :
  runs (RStar g r) s = star_runs (runs r) g (String.length s) s.
Proof. reflexivity. Qed.

Lemma runs_cap (r : regex) (s : string) :
  runs (RCap r) s
  = map (fun x => Run (consumed x) (rest x) (Some (consumed x))) (runs r s).
Proof. reflexivity. Qed.

Lemma runs_eps (s : string) : runs REps s = [Run "" s None].
Proof. reflexivity. Qed.

Lemma exec_at_split (r : regex) (s : string) (x : run) :
  exec_at r s = Some x -> consumed x +:+ rest x = s.
Proof.
  unfold exec_at. intros H. apply (runs_split r).
  destruct (runs r s); [discriminate|]. injection H as ->. left. reflexivity.
Qed.

(** A scan loses nothing: the tokens spell the subject. *)

Lemma scan_go_spell (r : regex) :
  forall n s, String.length s < n -> concat (map spell (scan_go r n s)) = s.
Proof.
  induction n as [|n IH]; intros s Hn; [lia|].
  simpl. destruct (exec_at r s) as [x|] eqn:Hx.
  - pose proof (exec_at_split _ _ _ Hx) as Hs.
    destruct (consumed x) as [|c m] eqn:Hc.
    + simpl. destruct s as [|c s]; [reflexivity|].
      simpl. rewrite JsFacts.app_nil_l, JsFacts.app_cons, JsFacts.app_nil_l.
      f_equal. apply IH. simpl in Hn. lia.
    + simpl. rewrite IH; [exact Hs|].
      rewrite <- Hs in Hn. rewrite JsFacts.length_app in Hn. simpl in Hn. lia.
  - destruct s as [|c s]; [reflexivity|].
    simpl. rewrite JsFacts.app_cons, JsFacts.app_nil_l.
    f_equal. apply IH. simpl in Hn. lia.
Qed.

Lemma scan_spell (r : regex) (s : string) : concat (map spell (scan r s)) = s.
Proof. apply scan_go_spell. lia. Qed.

(** A callback that returns every match it is given leaves the text as
    it is. *)
Lemma replace_all_fixed (r : regex) (f : string -> string -> string) (s : string) :
  (forall m g, In (TMatch m g) (scan r s) -> f m (default "" g) = m) ->
  replace_all r f s = s.
Proof.
  intros Hf. unfold replace_all.
  rewrite <- (scan_spell r s) at 2. f_equal.
  apply map_ext_in. intros [c|m g] Ht; [reflexivity|]. simpl. apply Hf, Ht.
Qed.

End RegexFacts.

(* ===================================================================== *)
(** * PathMapper *)
(* ===================================================================== *)

Module PathMapperFacts.

Import Regex.

Lemma first_split (c : ascii) (s : string) :
  Js.first (Js.split c s) = upto (fun d => Js.chr_eqb d c) s.
Proof.
  induction s as [|d s IH]; [reflexivity|].
  simpl. destruct (Js.chr_eqb d c); [reflexivity|].
  destruct (Js.split c s) as [|x xs]; simpl in *; rewrite <- IH; reflexivity.
Qed.

Lemma upto_upto (f g : ascii -> bool) (s : string) :
  upto g (upto f s) = upto (fun c => f c || g c) s.
Proof.
  induction s as [|c s IH]; [reflexivity|].
  simpl. destruct (f c); simpl; [reflexivity|].
  destruct (g c); [reflexivity|]. rewrite IH. reflexivity.
Qed.

Lemma upto_app_stop (f : ascii -> bool) (p : string) (c : ascii) (q : string) :
  f c = true -> upto f (upto f p +:+ String c q) = upto f p.
Proof.
  intros Hc. induction p as [|d p IH].
  - simpl. rewrite Hc. reflexivity.
  - simpl. destruct (f d) eqn:Hd; simpl.
    + rewrite Hc. reflexivity.
    + rewrite Hd, IH. reflexivity.
Qed.

Lemma upto_id_app (f : ascii -> bool) (p : string) (c : ascii) :
  upto f p = p -> f c = false -> upto f (p +:+ String c "") = p +:+ String c "".
Proof.
  intros Hp Hc. induction p as [|d p IH].
  - simpl. rewrite Hc. reflexivity.
  - simpl in Hp. simpl.
    destruct (f d); [discriminate|]. injection Hp as Hp. rewrite IH; auto.
Qed.

(** The greedy star of a character test first takes the longest run. *)
Lemma star_step_first (p : ascii -> bool) (step : string -> list run) :
  (forall s, step s = chr_step p s) ->
  forall n s, String.length s <= n ->
    hd_error (star_runs step true n s)
    = Some (Run (upto (fun c => negb (p c)) s) (from (fun c => negb (p c)) s) None).
Proof.
  intros Hstep. induction n as [|n IH]; intros s Hn.
  - destruct s; [reflexivity|simpl in Hn; lia].
  - destruct s as [|c s]; [cbn [star_runs]; rewrite Hstep; reflexivity|].
    cbn [star_runs]. rewrite Hstep. cbn [chr_step upto from].
    destruct (p c) eqn:Hc; [|reflexivity].
    cbn [flat_map consumed rest negb]. rewrite app_nil_r.
    assert (Hs : String.length s <= n) by (simpl in Hn; lia).
    specialize (IH s Hs).
    destruct (star_runs step true n s) as [|x l]; [discriminate|].
    simpl in IH. injection IH as ->. reflexivity.
Qed.

Lemma exec_plus_chr (p : ascii -> bool) (s : string) :
  exec_at (RPlus (RChr p)) s =
  match s with
  | "" => None
  | String c s' =>
      if p c then Some (Run (upto (fun c => negb (p c)) s)
                            (from (fun c => negb (p c)) s) None)
      else None
  end.
Proof.
  unfold exec_at, RPlus. rewrite RegexFacts.runs_seq, RegexFacts.runs_chr.
  destruct s as [|c s]; [reflexivity|].
  cbn [chr_step upto from]. destruct (p c) eqn:Hc; [|reflexivity].
  cbn [flat_map rest negb]. rewrite app_nil_r, RegexFacts.runs_star.
  pose proof (star_step_first p (runs (RChr p)) (RegexFacts.runs_chr p)
                (String.length s) s (le_n _)) as H.
  destruct (star_runs (runs (RChr p)) true (String.length s) s) as [|x l];
    [discriminate|].
  simpl in H. injection H as ->. reflexivity.
Qed.

Lemma from_not_slash (p : string) :
  from (fun c => negb (Js.chr_eqb "/" c)) p = stripLeading "/" p.
Proof.
  induction p as [|d p IH]; [reflexivity|].
  cbn [from stripLeading]. unfold Js.chr_eqb in *.
  rewrite (Ascii.eqb_sym "/" d).
  destruct (Ascii.eqb d "/"); cbn [negb]; [exact IH|reflexivity].
Qed.

Lemma strip_leading_slashes (p : string) :
  replace_start re_leading_slashes "" p = stripLeading "/" p.
Proof.
  unfold replace_start, re_leading_slashes. rewrite exec_plus_chr.
  destruct p as [|c p]; [reflexivity|].
  destruct (Js.chr_eqb "/" c) eqn:Hc.
  - cbn [rest]. rewrite from_not_slash. reflexivity.
  - cbn [stripLeading]. unfold Js.chr_eqb in *.
    rewrite Ascii.eqb_sym, Hc. reflexivity.
Qed.

Lemma stripLeading_no_slash (s : string) :
  Js.startsWith "/" (stripLeading "/" s) = false.
Proof.
  induction s as [|c s IH]; [reflexivity|].
  cbn [stripLeading]. destruct (Js.chr_eqb c "/") eqn:Hc; [exact IH|].
  cbn [Js.startsWith]. rewrite JsFacts.chr_eqb_sym, Hc. reflexivity.
Qed.

Lemma safeFileName_refines (u : string) : safeFileName u = toLocalPath_rules u.
Proof.
  unfold safeFileName, toLocalPath_rules.
  rewrite !first_split, upto_upto.
  set (p := upto _ u). destruct (Js.endsWith "/" p).
  - destruct (Js.dropLast p); [reflexivity|]. simpl. apply strip_leading_slashes.
  - destruct p; [reflexivity|]. simpl. apply strip_leading_slashes.
Qed.

Lemma endsWith_snoc (p : string) (c : ascii) :
  Js.endsWith (String c "") (p +:+ String c "") = true.
Proof.
  unfold Js.endsWith. rewrite JsFacts.length_app. cbn [String.length].
  replace (String.length p + 1 - 1) with (String.length p) by lia.
  rewrite JsFacts.skipn_length_app, String.eqb_refl, andb_true_r.
  apply Nat.leb_le. lia.
Qed.

Lemma dropLast_snoc (p : string) (c : ascii) :
  Js.dropLast (p +:+ String c "") = p.
Proof.
  induction p as [|d p IH]; [reflexivity|].
  rewrite JsFacts.app_cons. simpl. rewrite IH.
  destruct p; reflexivity.
Qed.

Lemma rules_drop_tail (u : string) (c : ascii) (q : string) :
  queryOrHash c = true ->
  toLocalPath_rules (upto queryOrHash u +:+ String c q) = toLocalPath_rules u.
Proof.
  intros Hc. unfold toLocalPath_rules.
  change (fun c0 : ascii => Js.chr_eqb c0 "?" || Js.chr_eqb c0 "#") with queryOrHash.
  rewrite (upto_app_stop queryOrHash u c q Hc). reflexivity.
Qed.

Lemma rules_trailing_slash (p : string) :
  upto queryOrHash p = p -> Js.endsWith "/" p = false ->
  toLocalPath_rules (p +:+ "/") = toLocalPath_rules p.
Proof.
  intros Hp He. unfold toLocalPath_rules.
  change (fun c0 : ascii => Js.chr_eqb c0 "?" || Js.chr_eqb c0 "#") with queryOrHash.
  rewrite (upto_id_app queryOrHash p "/" Hp eq_refl), Hp, He.
  rewrite endsWith_snoc, dropLast_snoc. reflexivity.
Qed.

End PathMapperFacts.

(** C8. [safeFileName] is the path mapper of the specification: it
    computes exactly what the rules say (query and fragment dropped, one
    trailing slash stripped, the empty path mapped to the fixed name
    [index], all leading slashes stripped).  In particular whatever
    follows the first question mark or hash sign is irrelevant, the root
    path and the empty path give [index], a path and the same path with
    one more slash at its end have the same image (only one slash is
    removed), no image starts with a slash, and the two paths of the
    documented example are mapped alike. *)
Theorem safeFileName_path_mapper :
  (forall u, safeFileName u = toLocalPath_rules u) /\
  (forall u q,
      safeFileName (upto queryOrHash u +:+ String "?" q) = safeFileName u /\
      safeFileName (upto queryOrHash u +:+ String "#" q) = safeFileName u) /\
  safeFileName "/" = "index" /\ safeFileName "" = "index" /\
  (forall p, upto queryOrHash p = p -> Js.endsWith "/" p = false ->
      safeFileName (p +:+ "/") = safeFileName p) /\
  safeFileName "/a//" = "a/" /\
  (forall u, Js.startsWith "/" (safeFileName u) = false) /\
  safeFileName "/a/b/" = safeFileName "/a/b".
Proof.
  split; [exact PathMapperFacts.safeFileName_refines|].
  split.
  { intros u q. rewrite !PathMapperFacts.safeFileName_refines.
    split; apply PathMapperFacts.rules_drop_tail; reflexivity. }
  split; [reflexivity|]. split; [reflexivity|].
  split.
  { intros p Hp He. rewrite !PathMapperFacts.safeFileName_refines.
    apply PathMapperFacts.rules_trailing_slash; assumption. }
  split; [reflexivity|].
  split; [|reflexivity].
  intros u. rewrite PathMapperFacts.safeFileName_refines.
  unfold toLocalPath_rules.
  destruct (if Js.endsWith "/" _ then _ else _); [reflexivity|].
  apply PathMapperFacts.stripLeading_no_slash.
Qed.

Lemma safeFileName_path_mapper_witness :
  upto queryOrHash "/a/b" = "/a/b" /\ Js.endsWith "/" "/a/b" = false /\
  safeFileName ("/a/b" +:+ "/") = safeFileName "/a/b".
Proof.
  split; [reflexivity|]. split; [reflexivity|].
  destruct safeFileName_path_mapper as (_ & _ & _ & _ & H & _).
  apply (H "/a/b"); reflexivity.
Defined.

(* ===================================================================== *)
(** * IncompletePageDetector *)
(* ===================================================================== *)

Module DetectorFacts.

Lemma lineCount_newlines (s : string) : lineCount s = S (countChr "010" s).
Proof.
  unfold lineCount. induction s as [|c s IH]; [reflexivity|].
  cbn [Js.split countChr]. destruct (Js.chr_eqb c "010"); cbn [length]; [lia|].
  destruct (Js.split "010" s); simpl in *; lia.
Qed.

Lemma marker_found (content : string) :
  hasCloudflareError content = true <->
  exists m, In m cloudflareMarkers /\ Js.includes m content = true.
Proof. unfold hasCloudflareError. apply existsb_exists. Qed.

End DetectorFacts.

(** C9, as stated, fails: [doc_long_body] is [doc_short] with a body text
    of 201 characters; it has substantial body content and yet is still
    flagged, because it is a document of one line. *)
Lemma blank_detector_counterexample :
  isBlankPage doc_short = true /\
  hasBodyContent doc_long_body = true /\
  lineCount doc_long_body = 1 /\
  isBlankPage doc_long_body = true.
Proof. vm_compute. repeat split. Qed.

(* ===================================================================== *)
(** * MirrorDriver: the report merge *)
(* ===================================================================== *)

Module ReportFacts.

(** With a failure that the stored report does not list yet, the stored
    list is kept whole and the new failures are appended. *)
Lemma merge_appends (existing : Report) (results : list PageResult) (urls assets : nat) :
  let failed_now := List.filter (fun r => negb (ok r)) results in
  let newFailed :=
    List.filter
      (fun f => negb (urlIn (map url (default [] (failed existing))) f)) failed_now in
  newFailed <> [] ->
  failed (mergeReport (Some existing) results urls assets)
  = Some (default [] (failed existing) ++ newFailed).
Proof.
  intros failed_now newFailed Hne. unfold mergeReport.
  fold failed_now. fold newFailed.
  destruct newFailed; [congruence|reflexivity].
Qed.

(** Without one, and with a success, the successes are pruned and the
    other entries stay, in their order. *)
Lemma merge_prunes (existing : Report) (results : list PageResult) (urls assets : nat)
    (old : list PageResult) :
  List.filter
    (fun f => negb (urlIn (map url (default [] (failed existing))) f))
    (List.filter (fun r => negb (ok r)) results) = [] ->
  List.filter ok results <> [] ->
  failed existing = Some old ->
  failed (mergeReport (Some existing) results urls assets)
  = Some (List.filter
            (fun f => negb (urlIn (map url (List.filter ok results)) f)) old).
Proof.
  intros Hnew Hok Hold. unfold mergeReport. rewrite Hnew, Hold. simpl.
  destruct (List.filter ok results); [congruence|reflexivity].
Qed.

End ReportFacts.

(** A related case: a run that only repeats a failure already listed
    writes a report with that failure alone; the other stored failure is
    lost. *)
Lemma mergeReport_repeated_failure_drops_others :
  failedUrls
    (mergeReport
       (Some (MkReport (Some 2)
                (Some [MkResult page_a false "Timeout"; MkResult page_c false "Timeout"])
                (Some 0)))
       [MkResult page_a false "Timeout"] 1 0)
  = [page_a].
Proof. reflexivity. Qed.

(** C2, on the code: the stored report lists [page_a] as failed; in the
    run [page_a] succeeds and [page_b] fails.  The merged report lists
    [page_b], and still lists [page_a]: the success is not pruned. *)
Theorem mergeReport_new_failure_keeps_success :
  failedUrls (mergeReport (Some stored_report) run_results 2 5) = [page_a; page_b].
Proof.
  unfold failedUrls.
  rewrite (ReportFacts.merge_appends stored_report run_results 2 5);
    [reflexivity|discriminate].
Qed.

(* ===================================================================== *)
(** * AssetStore *)
(* ===================================================================== *)

Section AssetStoreFacts.

Context `{P : Platform}.
Variable OUT : string.
Variable net : nat -> string -> reply.
Variable assetPath : string -> string.

Local Abbreviation download := (downloadAsset OUT net assetPath).

Lemma fetches_snoc (u a : string) (st : Run) :
  fetches u (MkRun (downloadedAssets st) (disk st) (requests st ++ [a]))
  = fetches u st + (if decide (a = u) then 1 else 0).
Proof.
  unfold fetches. cbn [requests]. rewrite filter_app, length_app.
  f_equal. rewrite filter_cons, filter_nil.
  destruct (decide (a = u)); reflexivity.
Qed.

(** A call leaves alone what the map already knows, and issues no request
    for a URL that the map knows. *)
Lemma download_keeps_known (u p url pageUrl : string) (st : Run) :
  downloadedAssets st !! u = Some p ->
  downloadedAssets (snd (download url pageUrl st)) !! u = Some p /\
  fetches u (snd (download url pageUrl st)) = fetches u st.
Proof.
  intros Hu. unfold downloadAsset.
  destruct (_ || _); [auto|].
  destruct (url_parse url (Some pageUrl)) as [resolved|]; [|auto].
  destruct (downloadedAssets st !! href resolved) eqn:Hm; [auto|].
  destruct (url_parse (href resolved) None) as [urlObj|]; [|auto].
  destruct (isSameOrigin (origin urlObj)) as [same|]; [|auto].
  destruct (_ && _); [auto|].
  assert (Hne : href resolved <> u) by congruence.
  assert (Hf : forall m d,
    fetches u (MkRun m d (requests st ++ [href resolved])) = fetches u st).
  { intros m d. unfold fetches. cbn [requests].
    rewrite filter_app, length_app, filter_cons, filter_nil.
    destruct (decide (href resolved = u)); [contradiction|]. simpl. lia. }
  destruct (net _ _) as [|[] ct body]; cbn [snd downloadedAssets requests].
  - split; [exact Hu|apply Hf].
  - split; [rewrite lookup_insert_ne; auto|apply Hf].
  - split; [exact Hu|apply Hf].
Qed.

(** A call that returns a path has that path in the map afterwards, under
    the absolute URL of the reference. *)
Lemma download_records (url pageUrl p : string) (st st1 : Run) (resolved : URL) :
  url_parse url (Some pageUrl) = Some resolved ->
  download url pageUrl st = (Some p, st1) ->
  downloadedAssets st1 !! href resolved = Some p.
Proof.
  intros Hr. unfold downloadAsset. rewrite Hr.
  destruct (_ || _); [discriminate|].
  destruct (downloadedAssets st !! href resolved) eqn:Hm.
  { intros [= <- <-]. exact Hm. }
  destruct (url_parse (href resolved) None) as [urlObj|]; [|discriminate].
  destruct (isSameOrigin (origin urlObj)) as [same|]; [|discriminate].
  destruct (_ && _); [discriminate|].
  destruct (net _ _) as [|[] ct body]; try discriminate.
  intros [= <- <-]. cbn [downloadedAssets]. apply lookup_insert_eq.
Qed.

(** A reference to a URL that the map knows is answered from the map. *)
Lemma download_hit (url pageUrl p : string) (st : Run) (resolved : URL) :
  Js.startsWith "data:" url || Js.startsWith "blob:" url = false ->
  url_parse url (Some pageUrl) = Some resolved ->
  downloadedAssets st !! href resolved = Some p ->
  download url pageUrl st = (Some p, st).
Proof.
  intros Hd Hr Hm. unfold downloadAsset. rewrite Hd, Hr, Hm. reflexivity.
Qed.

Lemma downloadAll_keeps_known (u p : string) (refs : list (string * string)) :
  forall st, downloadedAssets st !! u = Some p ->
  downloadedAssets (downloadAll OUT net assetPath refs st) !! u = Some p /\
  fetches u (downloadAll OUT net assetPath refs st) = fetches u st.
Proof.
  induction refs as [|[url pageUrl] refs IH]; intros st Hu; [auto|].
  cbn [downloadAll].
  destruct (download_keeps_known u p url pageUrl st Hu) as [H1 H2].
  destruct (IH _ H1) as [H3 H4]. split; [exact H3|congruence].
Qed.

(** A fresh download issues one request. *)
Lemma download_fresh_request (url pageUrl p : string) (st st1 : Run) (resolved : URL) :
  url_parse url (Some pageUrl) = Some resolved ->
  downloadedAssets st !! href resolved = None ->
  download url pageUrl st = (Some p, st1) ->
  fetches (href resolved) st1 = S (fetches (href resolved) st).
Proof.
  intros Hr Hm. unfold downloadAsset. rewrite Hr, Hm.
  destruct (_ || _); [discriminate|].
  destruct (url_parse (href resolved) None) as [urlObj|]; [|discriminate].
  destruct (isSameOrigin (origin urlObj)) as [same|]; [|discriminate].
  destruct (_ && _); [discriminate|].
  destruct (net _ _) as [|[] ct body]; try discriminate.
  intros [= <- <-]. unfold fetches. cbn [requests].
  rewrite filter_app, length_app, filter_cons, filter_nil.
  destruct (decide (href resolved = href resolved)); [simpl; lia|contradiction].
Qed.

End AssetStoreFacts.

Section AssetStoreClaims.

Context `{P : Platform}.
Variable OUT : string.
Variable net : nat -> string -> reply.
Variable assetPath : string -> string.

Local Abbreviation download := (downloadAsset OUT net assetPath).
Local Abbreviation downloads := (downloadAll OUT net assetPath).

(** C1, amended.  Once a call for an absolute URL has returned a local
    path, every later reference that resolves to the same absolute URL,
    from whatever page or stylesheet and after whatever other references,
    returns that same path at once: the state is unchanged and no request
    is issued.  A URL that was not in the map and whose download succeeds
    is thus requested exactly once. *)
Theorem asset_fetched_once_after_success
    (url pageUrl p : string) (st st1 : Run) (resolved : URL) :
  url_parse url (Some pageUrl) = Some resolved ->
  download url pageUrl st = (Some p, st1) ->
  (downloadedAssets st !! href resolved = None ->
   fetches (href resolved) st1 = S (fetches (href resolved) st)) /\
  forall (refs : list (string * string)) (url2 pageUrl2 : string) (resolved2 : URL),
    Js.startsWith "data:" url2 || Js.startsWith "blob:" url2 = false ->
    url_parse url2 (Some pageUrl2) = Some resolved2 ->
    href resolved2 = href resolved ->
    download url2 pageUrl2 (downloads refs st1) = (Some p, downloads refs st1) /\
    fetches (href resolved) (downloads refs st1) = fetches (href resolved) st1.
Proof.
  intros Hr Hd. split.
  - intros Hm. eapply download_fresh_request; eassumption.
  - intros refs url2 pageUrl2 resolved2 Hdata Hr2 Heq.
    pose proof (download_records OUT net assetPath _ _ _ _ _ _ Hr Hd) as Hk.
    destruct (downloadAll_keeps_known OUT net assetPath _ _ refs _ Hk) as [Hk2 Hf].
    split; [|exact Hf].
    apply (download_hit OUT net assetPath _ _ _ _ resolved2); auto.
    rewrite Heq. exact Hk2.
Qed.


(** C10.  The test for the third-party hosts is one of substring
    containment: a host passes exactly when it contains one of the listed
    names.  So a reference whose host merely contains a listed name, and
    that is not answered from the map, gets past the eligibility test:
    the request for it is issued. *)
Theorem cdn_test_is_substring_containment :
  (forall host, isCommonCDN host = true <->
                exists cdn, In cdn commonCDNs /\ Js.includes cdn host = true) /\
  forall (url pageUrl cdn : string) (st : Run) (resolved urlObj : URL) (same : bool),
    Js.startsWith "data:" url || Js.startsWith "blob:" url = false ->
    url_parse url (Some pageUrl) = Some resolved ->
    downloadedAssets st !! href resolved = None ->
    url_parse (href resolved) None = Some urlObj ->
    isSameOrigin (origin urlObj) = Some same ->
    In cdn commonCDNs -> Js.includes cdn (hostname urlObj) = true ->
    requests (snd (download url pageUrl st)) = requests st ++ [href resolved].
Proof.
  split.
  - intros host. unfold isCommonCDN. apply existsb_exists.
  - intros url pageUrl cdn st resolved urlObj same Hd Hr Hm Hu Hs Hin Hinc.
    assert (Hc : isCommonCDN (hostname urlObj) = true).
    { unfold isCommonCDN. apply existsb_exists. exists cdn. auto. }
    unfold downloadAsset. rewrite Hd, Hr, Hm, Hu, Hs, Hc.
    rewrite andb_false_r.
    destruct (net _ _) as [|[] ct body]; reflexivity.
Qed.

End AssetStoreClaims.

(** C1, as stated, fails: the style sheet is referred to from two pages
    while the network is down; each reference issues a request. *)
Lemma asset_fetched_once_counterexample :
  let st1 := snd (@downloadAsset site site_out net_down (@getAssetPath site)
                    "/css/main.css" home_url run0) in
  let st2 := snd (@downloadAsset site site_out net_down (@getAssetPath site)
                    "/css/main.css" about_url st1) in
  fetches sheet_url st2 = 2.
Proof. vm_compute. reflexivity. Qed.

Lemma asset_fetched_once_after_success_witness :
  let first_call := @downloadAsset site site_out net_ok (@getAssetPath site)
                      "/css/main.css" home_url run0 in
  let later := @downloadAll site site_out net_ok (@getAssetPath site)
                 [("brand.woff2", sheet_url)] (snd first_call) in
  first_call = (Some "_assets/asset__css_main_css.css", snd first_call) /\
  @downloadAsset site site_out net_ok (@getAssetPath site) "main.css" font_url later
  = (Some "_assets/asset__css_main_css.css", later) /\
  fetches sheet_url later = 1.
Proof.
  intros first_call later.
  assert (Hd : first_call = (Some "_assets/asset__css_main_css.css", snd first_call))
    by (vm_compute; reflexivity).
  assert (Hr : @url_parse site "/css/main.css" (Some home_url)
               = Some (MkURL sheet_url "https://www.fruitpunch.ai"
                         "www.fruitpunch.ai" "/css/main.css"))
    by (vm_compute; reflexivity).
  destruct (@asset_fetched_once_after_success site site_out net_ok
              (@getAssetPath site) _ _ _ _ _ _ Hr Hd) as [H1 H2].
  destruct (H2 [("brand.woff2", sheet_url)] "main.css" font_url
              (MkURL sheet_url "https://www.fruitpunch.ai"
                 "www.fruitpunch.ai" "/css/main.css")) as [H3 H4];
    [vm_compute; reflexivity..|].
  split; [exact Hd|]. split; [exact H3|].
  cbn [href] in H4. fold later in H4. rewrite H4.
  cbn [href] in H1. rewrite H1; vm_compute; reflexivity.
Defined.



Lemma cdn_test_is_substring_containment_witness :
  Js.includes "unpkg.com" "unpkg.com.evil.example" = true /\
  requests (snd (@downloadAsset site site_out net_ok (@getAssetPath site)
                   evil_url home_url run0)) = [evil_url].
Proof.
  split; [vm_compute; reflexivity|].
  destruct (@cdn_test_is_substring_containment site site_out net_ok
              (@getAssetPath site)) as [_ H].
  apply (H evil_url home_url "unpkg.com" run0
           (MkURL evil_url "https://unpkg.com.evil.example" "unpkg.com.evil.example" "/x.js")
           (MkURL evil_url "https://unpkg.com.evil.example" "unpkg.com.evil.example" "/x.js")
           false); try (vm_compute; reflexivity).
  vm_compute. tauto.
Defined.

(* ===================================================================== *)
(** * PageTransformer: references without a local copy *)
(* ===================================================================== *)

Section AttributeFacts.

Context `{P : Platform}.
Variable OUT : string.
Variable assetMap : gmap string string.
Variable pageDir : string.

Lemma rewriteLink_unmapped (match_ href : string) :
  Js.truthy (assetMap !! href) = None ->
  rewriteLink OUT assetMap pageDir match_ href = match_.
Proof.
  intros H. unfold rewriteLink. rewrite H.
  destruct (_ || _); reflexivity.
Qed.

Lemma rewriteSrc_unmapped (match_ src : string) :
  Js.truthy (assetMap !! src) = None ->
  rewriteSrc OUT assetMap pageDir match_ src = match_.
Proof.
  intros H. unfold rewriteSrc. rewrite H.
  destruct (_ || _); reflexivity.
Qed.

Lemma rewriteSrcsetPart_unmapped (part : string) :
  Js.truthy (assetMap !! Js.first (Js.splitWs (Js.trim part))) = None ->
  rewriteSrcsetPart OUT assetMap pageDir part = Js.trim part.
Proof.
  intros H. unfold rewriteSrcsetPart. rewrite H.
  destruct (_ || _); reflexivity.
Qed.

(** C3, amended.  In the passes over [<link>], [<script>] and [<img>]
    tags, a matched tag whose captured URL has no local path in the map
    is emitted as it stands; when this holds of every match of a pass,
    the pass returns its input.  In the pass over [srcset] attributes an
    entry whose URL has no local path is emitted as its trimmed text, but
    the attribute itself is written anew: the name in lower case, the
    value between double quotes, the entries joined by a comma and a
    space. *)
Theorem unmapped_references_kept (html : string) :
  (forall match_ href, Js.truthy (assetMap !! href) = None ->
     rewriteLink OUT assetMap pageDir match_ href = match_) /\
  (forall match_ src, Js.truthy (assetMap !! src) = None ->
     rewriteSrc OUT assetMap pageDir match_ src = match_) /\
  ((forall m g, In (Regex.TMatch m g) (Regex.scan re_link html) ->
                Js.truthy (assetMap !! default "" g) = None) ->
   rewriteLinks OUT assetMap pageDir html = html) /\
  ((forall m g, In (Regex.TMatch m g) (Regex.scan re_script html) ->
                Js.truthy (assetMap !! default "" g) = None) ->
   rewriteScripts OUT assetMap pageDir html = html) /\
  ((forall m g, In (Regex.TMatch m g) (Regex.scan re_img html) ->
                Js.truthy (assetMap !! default "" g) = None) ->
   rewriteImgs OUT assetMap pageDir html = html) /\
  (forall part,
     Js.truthy (assetMap !! Js.first (Js.splitWs (Js.trim part))) = None ->
     rewriteSrcsetPart OUT assetMap pageDir part = Js.trim part) /\
  (forall match_ srcset,
     (forall part, In part (Js.split "," srcset) ->
        Js.truthy (assetMap !! Js.first (Js.splitWs (Js.trim part))) = None) ->
     rewriteSrcset OUT assetMap pageDir match_ srcset
     = "srcset=" +:+ Js.dquote
       +:+ Js.join ", " (map Js.trim (Js.split "," srcset)) +:+ Js.dquote).
Proof.
  split; [exact rewriteLink_unmapped|].
  split; [exact rewriteSrc_unmapped|].
  split; [|split; [|split; [|split]]].
  - intros H. apply RegexFacts.replace_all_fixed.
    intros m g Hin. apply rewriteLink_unmapped, (H m g Hin).
  - intros H. apply RegexFacts.replace_all_fixed.
    intros m g Hin. apply rewriteSrc_unmapped, (H m g Hin).
  - intros H. apply RegexFacts.replace_all_fixed.
    intros m g Hin. apply rewriteSrc_unmapped, (H m g Hin).
  - exact rewriteSrcsetPart_unmapped.
  - intros match_ srcset H. unfold rewriteSrcset.
    assert (Hmap : map (rewriteSrcsetPart OUT assetMap pageDir) (Js.split "," srcset)
                   = map Js.trim (Js.split "," srcset)).
    { apply map_ext_in. intros part Hin. apply rewriteSrcsetPart_unmapped, H, Hin. }
    rewrite Hmap. reflexivity.
Qed.

End AttributeFacts.

(** Without any local copy, the three tag passes return the page as it
    is. *)
Lemma tag_passes_without_assets `{P : Platform} (OUT pageDir html : string) :
  rewriteImgs OUT ∅ pageDir (rewriteScripts OUT ∅ pageDir (rewriteLinks OUT ∅ pageDir html))
  = html.
Proof.
  unfold rewriteImgs, rewriteScripts, rewriteLinks.
  rewrite !RegexFacts.replace_all_fixed; [reflexivity|..]; intros m g _.
  - apply rewriteLink_unmapped. rewrite lookup_empty. reflexivity.
  - apply rewriteSrc_unmapped. rewrite lookup_empty. reflexivity.
  - apply rewriteSrc_unmapped. rewrite lookup_empty. reflexivity.
Qed.

(** C3, as stated, fails: no URL of [srcset_doc] has a local copy, and
    yet the attribute comes out with other quotes and other spacing. *)
Lemma unmapped_srcset_counterexample :
  @rewriteAttributes site site_out ∅ home_dir srcset_doc
  = "<img srcset=" +:+ Js.dquote +:+ "a.png 1x, b.png 2x" +:+ Js.dquote +:+ ">" /\
  @rewriteAttributes site site_out ∅ home_dir srcset_doc <> srcset_doc.
Proof. split; [vm_compute; reflexivity|vm_compute; discriminate]. Qed.

Lemma unmapped_references_kept_witness :
  let assets : gmap string string := {[ "a.png" := "_assets/asset__a_png.png" ]} in
  let html := "<link rel='x' href='/c.css'><img src='b.png'>" in
  (forall m g, In (Regex.TMatch m g) (Regex.scan re_link html) ->
               Js.truthy (assets !! default "" g) = None) /\
  @rewriteLinks site site_out assets home_dir html = html.
Proof.
  intros assets html.
  assert (H : forall m g, In (Regex.TMatch m g) (Regex.scan re_link html) ->
                          Js.truthy (assets !! default "" g) = None).
  { intros m g Hin. vm_compute in Hin.
    repeat (destruct Hin as [Hin|Hin]; [try discriminate|]);
      [injection Hin as <- <-; vm_compute; reflexivity|destruct Hin]. }
  split; [exact H|].
  destruct (@unmapped_references_kept site site_out assets home_dir html)
    as (_ & _ & Hl & _).
  apply Hl, H.
Defined.

(* ===================================================================== *)
(** * LinkResolver *)
(* ===================================================================== *)

Section LinkFacts.

Context `{P : Platform}.
Variable OUT : string.

(** The prefixes that the resolver skips, and nothing else, make
    [skippedHref] hold. *)
Lemma skippedHref_prefixes (href : string) :
  skippedHref href = true <->
  Js.startsWith "#" href = true \/ Js.startsWith "mailto:" href = true \/
  Js.startsWith "tel:" href = true \/ Js.startsWith "javascript:" href = true \/
  Js.startsWith "data:" href = true \/ href = "".
Proof.
  unfold skippedHref. rewrite !orb_true_iff, !String.eqb_eq.
  split; [|intuition].
  intros [[[[[[H|H]|H]|H]|H]|H]|H]; auto 10.
  subst. auto.
Qed.

(** A reference that starts with two slashes is taken for a path of the
    site: the branch for paths comes first. *)
Lemma linkTarget_two_slashes (baseOrigin pageUrl rest : string) :
  linkTarget baseOrigin pageUrl ("//" +:+ rest) = Target ("//" +:+ rest).
Proof. reflexivity. Qed.

(** The repair pass leaves alone every reference that is neither an
    absolute URL nor a path from the root. *)
Lemma linkTarget_fix_relative (baseOrigin href : string) :
  Js.startsWith "http://" href = false -> Js.startsWith "https://" href = false ->
  Js.startsWith "/" href = false ->
  linkTarget_fix baseOrigin href = Keep.
Proof.
  intros H1 H2 H3. unfold linkTarget_fix. rewrite H1, H2, H3.
  destruct (negb _); reflexivity.
Qed.

(** So the repair pass returns the match of such a reference as it is. *)
Lemma fix_keeps_relative_href (fs : FileSystem) (pageDir match_ baseOrigin href : string) :
  Js.startsWith "http://" href = false -> Js.startsWith "https://" href = false ->
  Js.startsWith "/" href = false ->
  rewriteTarget OUT fs pageDir match_ href (linkTarget_fix baseOrigin href) = match_.
Proof.
  intros H1 H2 H3. rewrite linkTarget_fix_relative by assumption. reflexivity.
Qed.

(** A target is rewritten exactly when its index document is on disk. *)
Lemma rewriteTarget_exists (fs : FileSystem) (pageDir match_ href targetPath : string) :
  targetPath <> "" ->
  rewriteTarget OUT fs pageDir match_ href (Target targetPath)
  = if existsSync fs (path_join [OUT; safeFileName targetPath; "index.html"])
    then Js.replaceStr match_ href
           (slashes (path_relative pageDir
                       (path_join [OUT; safeFileName targetPath; "index.html"])))
    else match_.
Proof. intros H. destruct targetPath; [contradiction|reflexivity]. Qed.

End LinkFacts.

(** What the resolver does on the references of the specification: the
    skipped kinds and the cross-site URL stay, a path of the site is
    rewritten when its page is on disk and stays when it is not. *)
Lemma link_resolver_examples :
  @rewriteInternalLinks site site_out mirror_about
    "<a href='mailto:a@b.com'> <a href='#top'> <a href='javascript:void(0)'> <a href='https://example.com/about/'> <a href='/about/'> <a href='/contact/'>"
    home_url home_dir
  = Some "<a href='mailto:a@b.com'> <a href='#top'> <a href='javascript:void(0)'> <a href='https://example.com/about/'> <a href='../about/index.html'> <a href='/contact/'>".
Proof. vm_compute. reflexivity. Qed.

(** C7, on the code: the page of the path [/about/] is on disk; the
    protocol-relative reference [//about/], which names the host
    [about] and not that page, is rewritten to the local page. *)
Theorem protocol_relative_href_rewritten :
  @rewriteInternalLinks site site_out mirror_about
    "<a href='//about/'>About</a>" home_url home_dir
  = Some "<a href='../about/index.html'>About</a>".
Proof. vm_compute. reflexivity. Qed.

(** C5, on the code: the repair pass run on the page [section_page], and
    run again on its own output with the same pages on disk, changes the
    page a second time. *)
Theorem repair_pass_changes_its_output :
  let once := @fixPage site site_out mirror_dollar section_page in
  let twice := @fixPage site site_out once section_page in
  files once !! section_page = Some "<a href='/a/$&x/x/index.html'>x</a>" /\
  files twice !! section_page
  = Some "<a href='/a/$&x/x/index.htmlx/x/index.html/index.html'>x</a>" /\
  dom (files once) = dom (files mirror_dollar).
Proof.
  intros once twice.
  assert (H1 : files once !! section_page = Some "<a href='/a/$&x/x/index.html'>x</a>")
    by (vm_compute; reflexivity).
  assert (H2 : files twice !! section_page
               = Some "<a href='/a/$&x/x/index.htmlx/x/index.html/index.html'>x</a>")
    by (vm_compute; reflexivity).
  split; [exact H1|]. split; [exact H2|].
  apply set_eq. intros k. rewrite !elem_of_dom.
  unfold once, fixPage.
  destruct (files mirror_dollar !! section_page) as [html|]; [|reflexivity].
  destruct (rewriteInternalLinks_fix _ _ _ _) as [fixed|]; [|reflexivity].
  destruct (String.eqb fixed html); [reflexivity|].
  cbn [writeFileSync files].
  destruct (decide (k = section_page)) as [->|Hk].
  - rewrite lookup_insert_eq. split; [|eauto].
    intros _. vm_compute. eauto.
  - rewrite lookup_insert_ne by auto. reflexivity.
Qed.

(* ===================================================================== *)
(** * The stylesheet pattern: the matcher and the one-pass match agree *)
(* ===================================================================== *)

Module CssPatternFacts.

Import Regex.

Lemma runs_lit (w : string) : forall s,
  runs (RLit w) s
  = match lit_at w s with
    | Some (c, r) => [Run c r None]
    | None => []
    end.
Proof.
  induction w as [|a w IH]; intros s; [reflexivity|].
  cbn [RLit lit_at]. rewrite RegexFacts.runs_seq, RegexFacts.runs_chr.
  destruct s as [|b s]; [reflexivity|]. cbn [chr_step].
  destruct (Js.chr_eqb_ci a b); [|reflexivity].
  cbn [flat_map rest]. rewrite IH, app_nil_r.
  destruct (lit_at w s) as [[c r]|]; reflexivity.
Qed.

Lemma starts_extend (p : ascii -> bool) (x : run) (l : list run) :
  Forall (starts_with_chr p) l -> Forall (starts_with_chr p) (map (extend x) l).
Proof.
  induction 1 as [|y l Hy _ IH]; [constructor|].
  cbn [map]. constructor; [exact Hy|exact IH].
Qed.

(** All the runs of a greedy star of a character test: the longest
    first, every other one stops in front of a character of the test. *)
Lemma star_chr_runs (p : ascii -> bool) (step : string -> list run) :
  (forall s, step s = chr_step p s) ->
  forall n s, String.length s <= n ->
    exists l,
      star_runs step true n s
      = Run (upto (fun c => negb (p c)) s) (from (fun c => negb (p c)) s) None :: l
      /\ Forall (starts_with_chr p) l.
Proof.
  intros Hstep. induction n as [|n IH]; intros s Hn.
  - destruct s; [|simpl in Hn; lia]. exists []. split; [reflexivity|constructor].
  - cbn [star_runs]. rewrite Hstep.
    destruct s as [|c s]; [exists []; split; [reflexivity|constructor]|].
    cbn [chr_step upto from]. destruct (p c) eqn:Hc; cbn [negb flat_map consumed rest].
    + destruct (IH s) as (l & Hl & Hall); [simpl in Hn; lia|].
      rewrite Hl, app_nil_r. cbn [map].
      exists (map (extend (Run (String c "") s None)) l
              ++ [Run "" (String c s) None]).
      split; [reflexivity|].
      apply Forall_app. split; [apply starts_extend, Hall|].
      constructor; [|constructor]. exists c, s. auto.
    + exists []. split; [reflexivity|constructor].
Qed.

Lemma plus_chr_runs (p : ascii -> bool) (s : string) :
  match s with
  | String c _ =>
      if p c then
        exists l,
          runs (RPlus (RChr p)) s
          = Run (upto (fun c => negb (p c)) s) (from (fun c => negb (p c)) s) None :: l
          /\ Forall (starts_with_chr p) l
      else runs (RPlus (RChr p)) s = []
  | "" => runs (RPlus (RChr p)) s = []
  end.
Proof.
  unfold RPlus. rewrite RegexFacts.runs_seq, RegexFacts.runs_chr.
  destruct s as [|c s]; [reflexivity|]. cbn [chr_step].
  destruct (p c) eqn:Hc; [|reflexivity].
  cbn [flat_map rest]. rewrite app_nil_r, RegexFacts.runs_star.
  destruct (star_chr_runs p (runs (RChr p)) (RegexFacts.runs_chr p)
              (String.length s) s (le_n _)) as (l & Hl & Hall).
  rewrite Hl. cbn [map upto from]. rewrite Hc. cbn [negb].
  exists (map (extend (Run (String c "") s None)) l). split; [reflexivity|].
  apply starts_extend, Hall.
Qed.

Lemma quote_not_paren (c : ascii) : is_quote c = true -> Js.chr_eqb ")" c = false.
Proof.
  unfold is_quote. rewrite orb_true_iff, !JsFacts.chr_eqb_eq.
  intros [->| ->]; reflexivity.
Qed.

Lemma quote_not_url_chr (c : ascii) : is_quote c = true -> css_url_chr c = false.
Proof. unfold css_url_chr. intros ->. reflexivity. Qed.

Lemma paren_not_url_chr (c : ascii) : Js.chr_eqb ")" c = true -> css_url_chr c = false.
Proof.
  unfold css_url_chr. rewrite JsFacts.chr_eqb_sym. intros ->.
  rewrite orb_true_r. reflexivity.
Qed.

(** The end of the pattern: an optional quote, then the parenthesis. *)
Lemma runs_closing (s : string) :
  runs re_closing s
  = match closing_at s with
    | Some (cl, r) => [Run cl r None]
    | None => []
    end.
Proof.
  unfold re_closing, ROpt.
  rewrite RegexFacts.runs_seq, RegexFacts.runs_alt, RegexFacts.runs_eps,
    RegexFacts.runs_chr.
  destruct s as [|c s]; [reflexivity|]. cbn [chr_step closing_at].
  destruct (is_quote c) eqn:Hq.
  - cbn [app flat_map rest]. rewrite !RegexFacts.runs_chr. cbn [chr_step].
    rewrite (quote_not_paren c Hq). cbn [map]. rewrite app_nil_r.
    destruct s as [|d s]; [reflexivity|]. cbn [chr_step].
    destruct (Js.chr_eqb ")" d); reflexivity.
  - cbn [app flat_map rest]. rewrite RegexFacts.runs_chr. cbn [chr_step].
    destruct (Js.chr_eqb ")" c); reflexivity.
Qed.

Lemma closing_needs_stop (x : run) :
  starts_with_chr css_url_chr x -> runs re_closing (rest x) = [].
Proof.
  intros (c & r & Hr & Hc). rewrite runs_closing, Hr. cbn [closing_at].
  destruct (is_quote c) eqn:Hq.
  - rewrite (quote_not_url_chr c Hq) in Hc. discriminate.
  - destruct (Js.chr_eqb ")" c) eqn:Hp; [|reflexivity].
    rewrite (paren_not_url_chr c Hp) in Hc. discriminate.
Qed.

Lemma flat_map_nil {A B : Type} (f : A -> list B) (l : list A) :
  Forall (fun x => f x = []) l -> flat_map f l = [].
Proof.
  induction 1 as [|x l Hx _ IH]; [reflexivity|].
  cbn [flat_map]. rewrite Hx, IH. reflexivity.
Qed.

(** The captured run and the end. *)
Lemma runs_reference (s : string) :
  runs re_reference s
  = match s with
    | String c _ =>
        if css_url_chr c then
          match closing_at (from css_stop s) with
          | Some (cl, r) =>
              [Run (upto css_stop s +:+ cl) r (Some (upto css_stop s))]
          | None => []
          end
        else []
    | "" => []
    end.
Proof.
  unfold re_reference. rewrite RegexFacts.runs_seq, RegexFacts.runs_cap.
  pose proof (plus_chr_runs css_url_chr s) as H.
  destruct s as [|c s]; [rewrite H; reflexivity|].
  destruct (css_url_chr c) eqn:Hc; [|rewrite H; reflexivity].
  destruct H as (l & -> & Hall).
  cbn [map flat_map consumed rest].
  rewrite flat_map_nil, app_nil_r.
  - rewrite runs_closing.
    change (fun c0 : ascii => negb (css_url_chr c0)) with css_stop.
    destruct (closing_at (from css_stop (String c s))) as [[cl r]|]; reflexivity.
  - induction Hall as [|x l Hx _ IH]; [constructor|].
    cbn [map]. constructor; [|exact IH].
    cbn [rest]. rewrite (closing_needs_stop x Hx). reflexivity.
Qed.

Lemma runs_css (s : string) :
  runs re_css_url s
  = match css_at s with
    | Some x => [x]
    | None => []
    end.
Proof.
  unfold re_css_url, css_at.
  change (RSeq (ROpt (RChr is_quote)) (RChr (Js.chr_eqb ")"))) with re_closing.
  change (RSeq (RCap (RPlus (RChr css_url_chr))) re_closing) with re_reference.
  rewrite RegexFacts.runs_seq, runs_lit.
  destruct (lit_at "url(" s) as [[u s1]|]; [|reflexivity].
  cbn [flat_map rest]. rewrite app_nil_r.
  unfold ROpt. rewrite RegexFacts.runs_seq, RegexFacts.runs_alt,
    RegexFacts.runs_eps, RegexFacts.runs_chr.
  unfold quote_at. destruct s1 as [|c s1]; [reflexivity|].
  cbn [chr_step]. destruct (is_quote c) eqn:Hq.
  - cbn [app flat_map rest]. rewrite !runs_reference, app_nil_r.
    rewrite (quote_not_url_chr c Hq). cbn [map]. rewrite app_nil_r.
    destruct s1 as [|d s1]; [reflexivity|].
    destruct (css_url_chr d); [|reflexivity].
    destruct (closing_at _) as [[cl r]|]; reflexivity.
  - cbn [app flat_map rest]. rewrite runs_reference, app_nil_r.
    destruct (css_url_chr c); [|reflexivity].
    destruct (closing_at _) as [[cl r]|]; reflexivity.
Qed.

Lemma exec_css (s : string) : exec_at re_css_url s = css_at s.
Proof.
  unfold exec_at. rewrite runs_css. destruct (css_at s); reflexivity.
Qed.

End CssPatternFacts.

(* ===================================================================== *)
(** * The stylesheet pattern on a rewritten text *)
(* ===================================================================== *)

Module CssStability.

Import Regex.

Lemma u_cases (a : ascii) : Js.chr_eqb_ci "u" a = true -> a = "u"%char \/ a = "U"%char.
Proof.
  destruct a as [[] [] [] [] [] [] [] []]; vm_compute; intros H;
    try discriminate; auto.
Qed.

Lemma firstChr_rendered (p : ascii -> bool) (v : bool) (s s' : string) :
  p "u"%char = v -> p "U"%char = v ->
  rendered s s' -> firstChr p s = firstChr p s'.
Proof.
  intros Hu HU H. destruct H as [|c s s' H|m r s s' (Hm & Hr & _) H];
    [reflexivity|reflexivity|].
  destruct Hm as (a & m0 & -> & Ha), Hr as (b & r0 & -> & Hb).
  rewrite !JsFacts.app_cons. cbn [firstChr].
  destruct (u_cases a Ha) as [-> | ->], (u_cases b Hb) as [-> | ->]; congruence.
Qed.

Lemma lit_rendered (w : string) :
  allChr (fun a => negb (Js.chr_eqb_ci a "u")) w = true ->
  forall s s', rendered s s' ->
  match lit_at w s with
  | None => lit_at w s' = None
  | Some (u, s1) => exists s1', lit_at w s' = Some (u, s1') /\ rendered s1 s1'
  end.
Proof.
  induction w as [|b w IH]; intros Hw s s' H.
  - cbn [lit_at]. exists s'. auto.
  - cbn [allChr] in Hw. apply andb_true_iff in Hw as [Hb Hw].
    apply negb_true_iff in Hb.
    destruct H as [|c s s' H|m r s s' (Hm & Hr & _) H].
    + reflexivity.
    + cbn [lit_at]. destruct (Js.chr_eqb_ci b c); [|reflexivity].
      specialize (IH Hw s s' H).
      destruct (lit_at w s) as [[u s1]|].
      * destruct IH as (s1' & -> & Hs). exists s1'. auto.
      * rewrite IH. reflexivity.
    + destruct Hm as (a & m0 & -> & Ha), Hr as (a' & r0 & -> & Ha').
      rewrite !JsFacts.app_cons. cbn [lit_at].
      assert (Hne : forall x, Js.chr_eqb_ci "u" x = true -> Js.chr_eqb_ci b x = false).
      { intros x Hx. destruct (u_cases x Hx) as [-> | ->]; [exact Hb|].
        unfold Js.chr_eqb_ci in *. exact Hb. }
      rewrite (Hne a Ha), (Hne a' Ha'). reflexivity.
Qed.

Lemma tailmatch_chr (c : ascii) (s : string) :
  tailmatch (String c s)
  = if css_stop c then
      if is_quote c then firstChr (Js.chr_eqb ")") s
      else Js.chr_eqb ")" c
    else tailmatch s.
Proof.
  unfold tailmatch. cbn [from]. destruct (css_stop c); [|reflexivity].
  cbn [closing_at]. destruct (is_quote c).
  - destruct s as [|d s]; [reflexivity|]. cbn [firstChr].
    destruct (Js.chr_eqb ")" d); reflexivity.
  - destruct (Js.chr_eqb ")" c); reflexivity.
Qed.

Lemma tailmatch_rendered (s s' : string) :
  rendered s s' -> tailmatch s = false -> tailmatch s' = false.
Proof.
  induction 1 as [|c s s' H IH|m r s s' (Hm & Hr & Ht) H IH]; intros Hf.
  - exact Hf.
  - rewrite tailmatch_chr in *. destruct (css_stop c); [|auto].
    destruct (is_quote c); [|exact Hf].
    rewrite <- (firstChr_rendered (Js.chr_eqb ")") false s s'); auto.
  - destruct Ht as [Ht|Ht]; [rewrite Ht in Hf; discriminate|apply Ht].
Qed.

Lemma body2_rendered (s s' : string) :
  rendered s s' -> body2 s = false -> body2 s' = false.
Proof.
  intros H. unfold body2.
  rewrite <- (firstChr_rendered css_url_chr true s s') by auto.
  destruct (firstChr css_url_chr s); [|reflexivity].
  cbn [andb]. apply tailmatch_rendered, H.
Qed.

Lemma quote_at_rendered (s s' : string) :
  rendered s s' -> rendered (snd (quote_at s)) (snd (quote_at s')).
Proof.
  intros H. pose proof H as H0.
  destruct H as [|c s s' H|m r s s' (Hm & Hr & Ht) H].
  - constructor.
  - cbn [quote_at]. destruct (is_quote c); [exact H|exact H0].
  - destruct Hm as (a & m0 & Em & Ha), Hr as (b & r0 & Er & Hb).
    assert (Hq : forall x, Js.chr_eqb_ci "u" x = true -> is_quote x = false).
    { intros x Hx. destruct (u_cases x Hx) as [-> | ->]; reflexivity. }
    revert H0. rewrite Em, Er, !JsFacts.app_cons. cbn [quote_at].
    rewrite (Hq a Ha), (Hq b Hb). auto.
Qed.

Lemma body_ok_body2 (s : string) : body_ok s = body2 (snd (quote_at s)).
Proof.
  unfold body_ok, body2. destruct (snd (quote_at s)); reflexivity.
Qed.

Lemma css_at_none (s : string) :
  css_at s = None <->
  match lit_at "url(" s with
  | None => True
  | Some (_, s1) => body_ok s1 = false
  end.
Proof.
  unfold css_at. destruct (lit_at "url(" s) as [[u s1]|]; [|tauto].
  rewrite body_ok_body2. unfold body2, tailmatch.
  destruct (quote_at s1) as [oq s2]. cbn [snd].
  destruct s2 as [|c s2]; [tauto|]. cbn [firstChr].
  destruct (css_url_chr c); [|tauto]. cbn [andb].
  destruct (closing_at _) as [[cl r]|]; split; intros; try discriminate; auto.
Qed.

(** No reference starts in front of a text that the rewrite produced if
    none started there before. *)
Lemma css_at_rendered (c : ascii) (s s' : string) :
  rendered s s' -> css_at (String c s) = None -> css_at (String c s') = None.
Proof.
  intros H. rewrite !css_at_none.
  change (lit_at "url(" (String c s)) with
    (if Js.chr_eqb_ci "u" c then
       match lit_at "rl(" s with
       | Some (u, r) => Some (String c u, r)
       | None => None
       end
     else None).
  change (lit_at "url(" (String c s')) with
    (if Js.chr_eqb_ci "u" c then
       match lit_at "rl(" s' with
       | Some (u, r) => Some (String c u, r)
       | None => None
       end
     else None).
  destruct (Js.chr_eqb_ci "u" c); [|auto].
  pose proof (lit_rendered "rl(" eq_refl s s' H) as Hl.
  destruct (lit_at "rl(" s) as [[u s1]|].
  - destruct Hl as (s1' & -> & Hs). rewrite !body_ok_body2.
    apply body2_rendered, quote_at_rendered, Hs.
  - rewrite Hl. auto.
Qed.

End CssStability.

Module CssShape.

Import Regex.

Lemma url_chr_lower (x : ascii) : css_url_chr (Js.to_lower x) = css_url_chr x.
Proof. destruct x as [[] [] [] [] [] [] [] []]; reflexivity. Qed.

Lemma ci_url_chr (a b : ascii) :
  Js.chr_eqb_ci b a = true -> css_url_chr a = css_url_chr b.
Proof.
  unfold Js.chr_eqb_ci. intros H. apply Ascii.eqb_eq in H.
  rewrite <- (url_chr_lower a), <- (url_chr_lower b), H. reflexivity.
Qed.

Lemma lit_at_app (w : string) : forall s u s1,
  lit_at w s = Some (u, s1) ->
  s = u +:+ s1 /\ forall t, lit_at w (u +:+ t) = Some (u, t).
Proof.
  induction w as [|b w IH]; intros s u s1 H.
  - cbn [lit_at] in H. injection H as <- <-. auto.
  - cbn [lit_at] in H. destruct s as [|a s]; [discriminate|].
    destruct (Js.chr_eqb_ci b a) eqn:Hc; [|discriminate].
    destruct (lit_at w s) as [[u0 r]|] eqn:Hl; [|discriminate].
    injection H as <- <-. destruct (IH _ _ _ Hl) as [-> Hall].
    split; [reflexivity|]. intros t. rewrite JsFacts.app_cons.
    cbn [lit_at]. rewrite Hc, Hall. reflexivity.
Qed.

Lemma lit_at_all (w : string) : forall s u s1,
  lit_at w s = Some (u, s1) -> allChr css_url_chr w = true ->
  allChr css_url_chr u = true.
Proof.
  induction w as [|b w IH]; intros s u s1 H Hw.
  - cbn [lit_at] in H. injection H as <- <-. reflexivity.
  - cbn [lit_at] in H. destruct s as [|a s]; [discriminate|].
    destruct (Js.chr_eqb_ci b a) eqn:Hc; [|discriminate].
    destruct (lit_at w s) as [[u0 r]|] eqn:Hl; [|discriminate].
    injection H as <- <-. cbn [allChr] in *.
    apply andb_true_iff in Hw as [Hb Hw].
    rewrite (ci_url_chr a b Hc), Hb. cbn [andb]. eapply IH; eauto.
Qed.

Lemma lit_at_head (s u s1 : string) :
  lit_at "url(" s = Some (u, s1) -> head_u u.
Proof.
  intros H. destruct s as [|a s]; [discriminate|].
  cbn [lit_at] in H. destruct (Js.chr_eqb_ci "u" a) eqn:Hc; [|discriminate].
  destruct (match s with "" => None | String b s' => _ end) as [[u0 r]|];
    [|discriminate].
  injection H as <- <-. exists a, u0. auto.
Qed.

Lemma upto_from (stop : ascii -> bool) (s : string) :
  s = upto stop s +:+ from stop s.
Proof.
  induction s as [|c s IH]; [reflexivity|].
  cbn [upto from]. destruct (stop c); [reflexivity|].
  rewrite JsFacts.app_cons, <- IH. reflexivity.
Qed.

Lemma upto_all (s : string) : allChr css_url_chr (upto css_stop s) = true.
Proof.
  induction s as [|c s IH]; [reflexivity|].
  cbn [upto]. unfold css_stop at 1. destruct (css_url_chr c) eqn:Hc; cbn [negb].
  - cbn [allChr]. rewrite Hc, IH. reflexivity.
  - reflexivity.
Qed.

Lemma upto_app_all (cap y : string) :
  allChr css_url_chr cap = true -> firstChr css_stop y = true ->
  upto css_stop (cap +:+ y) = cap.
Proof.
  intros Hc Hy. induction cap as [|c cap IH].
  - rewrite JsFacts.app_nil_l. destruct y as [|d y]; [discriminate|].
    cbn [firstChr] in Hy. cbn [upto]. rewrite Hy. reflexivity.
  - cbn [allChr] in Hc. apply andb_true_iff in Hc as [Hc1 Hc2].
    rewrite JsFacts.app_cons. cbn [upto]. unfold css_stop at 1.
    rewrite Hc1. cbn [negb]. rewrite IH; auto.
Qed.

Lemma from_app_all (cap y : string) :
  allChr css_url_chr cap = true -> from css_stop (cap +:+ y) = from css_stop y.
Proof.
  intros Hc. induction cap as [|c cap IH]; [reflexivity|].
  cbn [allChr] in Hc. apply andb_true_iff in Hc as [Hc1 Hc2].
  rewrite JsFacts.app_cons. cbn [from]. unfold css_stop at 1.
  rewrite Hc1. cbn [negb]. auto.
Qed.

Lemma from_stop (y : string) : firstChr css_stop y = true -> from css_stop y = y.
Proof.
  destruct y as [|d y]; [reflexivity|]. cbn [firstChr from]. intros ->. reflexivity.
Qed.

Lemma closing_app (s cl r : string) :
  closing_at s = Some (cl, r) ->
  s = cl +:+ r /\ (forall t, closing_at (cl +:+ t) = Some (cl, t)) /\
  firstChr css_stop cl = true.
Proof.
  destruct s as [|c s]; [discriminate|]. cbn [closing_at].
  destruct (is_quote c) eqn:Hq.
  - destruct s as [|d s]; [discriminate|].
    destruct (Js.chr_eqb ")" d) eqn:Hd; [|discriminate].
    intros [= <- <-]. split; [reflexivity|]. split.
    + intros t. rewrite !JsFacts.app_cons. cbn [closing_at]. rewrite Hq, Hd.
      reflexivity.
    + cbn [firstChr]. unfold css_stop.
      rewrite (CssPatternFacts.quote_not_url_chr c Hq). reflexivity.
  - destruct (Js.chr_eqb ")" c) eqn:Hp; [|discriminate].
    intros [= <- <-]. split; [reflexivity|]. split.
    + intros t. rewrite JsFacts.app_cons. cbn [closing_at]. rewrite Hq, Hp.
      reflexivity.
    + cbn [firstChr]. unfold css_stop.
      rewrite (CssPatternFacts.paren_not_url_chr c Hp). reflexivity.
Qed.

Lemma firstChr_app (p : ascii -> bool) (cl t : string) :
  firstChr p cl = true -> firstChr p (cl +:+ t) = true.
Proof. destruct cl; [discriminate|]. rewrite JsFacts.app_cons. auto. Qed.

Lemma url_chr_not_quote (c : ascii) : css_url_chr c = true -> is_quote c = false.
Proof.
  unfold css_url_chr. destruct (is_quote c); [discriminate|reflexivity].
Qed.

Lemma url_chr_not_paren (c : ascii) : css_url_chr c = true -> Js.chr_eqb ")" c = false.
Proof.
  unfold css_url_chr. rewrite (JsFacts.chr_eqb_sym ")" c).
  destruct (is_quote c); [discriminate|].
  destruct (Js.chr_eqb c ")"); [discriminate|reflexivity].
Qed.

(** A text of the shape of a reference is matched as a whole, whatever
    follows it. *)
Lemma shape_css_at (u oq cap cl : string) :
  shape u oq cap cl ->
  forall t, css_at ((u +:+ oq +:+ cap +:+ cl) +:+ t)
            = Some (Run (u +:+ oq +:+ cap +:+ cl) t (Some cap)).
Proof.
  intros (Hu & _ & _ & Hoq & Hne & Hcap & Hcl & Hst) t.
  rewrite !JsFacts.app_assoc. unfold css_at. rewrite Hu.
  destruct cap as [|c cap]; [contradiction|].
  pose proof Hcap as Hcap0. cbn [allChr] in Hcap.
  apply andb_true_iff in Hcap as [Hc _].
  assert (Hq : quote_at (oq +:+ String c cap +:+ cl +:+ t)
               = (oq, String c cap +:+ cl +:+ t)).
  { destruct Hoq as [-> | (q & -> & Hq)].
    - rewrite JsFacts.app_nil_l, JsFacts.app_cons. cbn [quote_at].
      rewrite (url_chr_not_quote c Hc). reflexivity.
    - rewrite JsFacts.app_cons. cbn [quote_at]. rewrite Hq. reflexivity. }
  rewrite Hq.
  rewrite (upto_app_all (String c cap) (cl +:+ t) Hcap0 (firstChr_app _ _ _ Hst)).
  rewrite (from_app_all (String c cap) (cl +:+ t) Hcap0).
  rewrite (from_stop _ (firstChr_app _ _ _ Hst)), Hcl.
  rewrite JsFacts.app_cons at 1. rewrite Hc. reflexivity.
Qed.

(** Whether the text after a reference counts for an earlier attempt
    depends on the opening quote alone. *)
Lemma shape_tailmatch (u oq cap cl : string) :
  shape u oq cap cl ->
  (oq = "" -> forall t, tailmatch ((u +:+ oq +:+ cap +:+ cl) +:+ t) = true) /\
  (oq <> "" -> forall t, tailmatch ((u +:+ oq +:+ cap +:+ cl) +:+ t) = false).
Proof.
  intros (_ & Hu & _ & Hoq & Hne & Hcap & Hcl & Hst).
  split.
  - intros -> t. rewrite !JsFacts.app_assoc, JsFacts.app_nil_l.
    unfold tailmatch. rewrite (from_app_all u _ Hu), (from_app_all cap _ Hcap).
    rewrite (from_stop _ (firstChr_app _ _ _ Hst)), Hcl. reflexivity.
  - intros Hq t. destruct Hoq as [-> | (q & -> & Hqq)]; [contradiction|].
    rewrite !JsFacts.app_assoc. unfold tailmatch. rewrite (from_app_all u _ Hu).
    rewrite JsFacts.app_cons, JsFacts.app_nil_l. cbn [from]. unfold css_stop at 1.
    rewrite (CssPatternFacts.quote_not_url_chr q Hqq). cbn [negb closing_at].
    rewrite Hqq. destruct cap as [|c cap]; [contradiction|].
    cbn [allChr] in Hcap. apply andb_true_iff in Hcap as [Hc _].
    rewrite JsFacts.app_cons, (url_chr_not_paren c Hc). reflexivity.
Qed.

Lemma shape_head (u oq cap cl : string) :
  shape u oq cap cl -> head_u (u +:+ oq +:+ cap +:+ cl).
Proof.
  intros (_ & _ & (a & u0 & -> & Ha) & _). rewrite JsFacts.app_cons.
  exists a, (u0 +:+ oq +:+ cap +:+ cl). auto.
Qed.

(** What the one-pass match returns has the shape of a reference. *)
Lemma css_at_shape (s : string) (x : run) :
  css_at s = Some x ->
  exists u oq cap cl,
    shape u oq cap cl /\ consumed x = u +:+ oq +:+ cap +:+ cl /\
    group x = Some cap /\ s = consumed x +:+ rest x.
Proof.
  unfold css_at. destruct (lit_at "url(" s) as [[u s1]|] eqn:Hl; [|discriminate].
  destruct (lit_at_app _ _ _ _ Hl) as [-> Hu].
  pose proof (lit_at_all _ _ _ _ Hl eq_refl) as Hall.
  pose proof (lit_at_head _ _ _ Hl) as Hh.
  destruct (quote_at s1) as [oq s2] eqn:Hq.
  assert (Hoq : (oq = "" \/ exists q, oq = String q "" /\ is_quote q = true)
                /\ s1 = oq +:+ s2).
  { unfold quote_at in Hq. destruct s1 as [|c s1]; [injection Hq as <- <-; auto|].
    destruct (is_quote c) eqn:Hc; injection Hq as <- <-; [|auto].
    split; [right; exists c; auto|reflexivity]. }
  destruct Hoq as [Hoq ->].
  destruct s2 as [|c s2]; [discriminate|].
  destruct (css_url_chr c) eqn:Hc; [|discriminate].
  destruct (closing_at _) as [[cl r]|] eqn:Hcl; [|discriminate].
  intros [= <-]. cbn [consumed group rest].
  destruct (closing_app _ _ _ Hcl) as (Hs3 & Hcl' & Hst).
  exists u, oq, (upto css_stop (String c s2)), cl.
  split; [|split; [reflexivity|split; [reflexivity|]]].
  - repeat split; auto.
    + cbn [upto]. unfold css_stop at 1. rewrite Hc. discriminate.
    + apply upto_all.
  - rewrite !JsFacts.app_assoc. do 2 f_equal.
    rewrite <- Hs3. exact (upto_from css_stop (String c s2)).
Qed.

(** The text of a rewritten reference has that shape too. *)
Lemma canonical_shape (rel : string) :
  rel <> "" -> allChr css_url_chr rel = true ->
  shape "url(" Js.dquote rel (Js.dquote +:+ ")").
Proof.
  intros Hne Hall. repeat split; auto.
  - exists "u"%char, "rl(". auto.
  - right. exists "034"%char. auto.
Qed.

End CssShape.

(* ===================================================================== *)
(** * CssAssetExtractor: the rewrite applied to its own output *)
(* ===================================================================== *)

Section CssIdempotence.

Context `{P : Platform}.
Variable OUT : string.
Variable assetMap : gmap string string.
Variable cssLocalPath cssUrl : string.

Import Regex.

Local Abbreviation callback := (rewriteCssUrl OUT assetMap cssLocalPath cssUrl).

Lemma rewriteCssUrl_target (match_ g : string) :
  callback match_ g
  = match cssTarget assetMap cssUrl g with
    | None => None
    | Some None => Some match_
    | Some (Some l) => Some (cssCanonical (cssRelative OUT cssLocalPath l))
    end.
Proof.
  unfold rewriteCssUrl, cssTarget. destruct (_ || _); [reflexivity|].
  destruct (cssLookup assetMap cssUrl (Js.trim g)) as [[l|]|]; reflexivity.
Qed.

Lemma render_cons (h : token -> option string) (t : token) (l : list token)
    (out : string) :
  concat <$> mapM h (t :: l) = Some out ->
  exists r out0,
    h t = Some r /\ concat <$> mapM h l = Some out0 /\ out = r +:+ out0.
Proof.
  cbn [mapM]. destruct (h t) as [r|]; [|discriminate]. cbn.
  destruct (mapM h l) as [k|]; [|discriminate]. cbn.
  intros [= <-]. exists r, (concat k). auto.
Qed.

Lemma render_cons_some (h : token -> option string) (t : token) (l : list token)
    (r out0 : string) :
  h t = Some r -> concat <$> mapM h l = Some out0 ->
  concat <$> mapM h (t :: l) = Some (r +:+ out0).
Proof.
  intros Ht Hl. cbn [mapM]. rewrite Ht. cbn.
  destruct (mapM h l) as [k|]; [|discriminate]. cbn in *.
  injection Hl as <-. reflexivity.
Qed.

Lemma head_u_length (m : string) : head_u m -> 0 < String.length m.
Proof. intros (a & m0 & -> & _). simpl. lia. Qed.

(** A scan of the rewritten text finds the rewritten references, and the
    callback keeps each of them. *)
Lemma scan_go_stable : forall (n : nat) (s out : string),
  String.length s < n ->
  (forall m g l, In (TMatch m g) (scan_go re_css_url n s) ->
     cssTarget assetMap cssUrl (default "" g) = Some (Some l) ->
     settled OUT assetMap cssLocalPath cssUrl l) ->
  concat <$> mapM (renderM callback) (scan_go re_css_url n s) = Some out ->
  rendered s out /\
  forall n', String.length out < n' ->
    concat <$> mapM (renderM callback) (scan_go re_css_url n' out) = Some out.
Proof.
  induction n as [|n IH]; intros s out Hn Hset Hout; [lia|].
  cbn [scan_go] in Hout, Hset. rewrite CssPatternFacts.exec_css in Hout, Hset.
  destruct (css_at s) as [x|] eqn:Hx.
  - destruct (CssShape.css_at_shape s x Hx)
      as (u & oq & cap & cl & Hsh & Hcons & Hg & Hs).
    pose proof (CssShape.shape_head _ _ _ _ Hsh) as Hhead.
    pose proof (head_u_length _ Hhead) as Hlen.
    rewrite <- Hcons in Hhead, Hlen.
    destruct (consumed x) as [|c0 m0] eqn:Hc; [simpl in Hlen; lia|].
    rewrite <- Hc in *. clear Hc c0 m0.
    apply render_cons in Hout as (r & out0 & Hr & Hout0 & ->).
    assert (Hrest : String.length (rest x) < n).
    { rewrite Hs, JsFacts.length_app in Hn. lia. }
    destruct (IH (rest x) out0 Hrest) as [Hrend Hstab]; [|exact Hout0|].
    { intros m g l Hin Hl. apply (Hset m g l); [right; exact Hin|exact Hl]. }
    cbn [renderM] in Hr. rewrite Hg in Hr. cbn [default from_option id] in Hr.
    rewrite rewriteCssUrl_target in Hr.
    destruct (cssTarget assetMap cssUrl cap) as [[l|]|] eqn:Ht; [| |discriminate].
    + (* the reference is rewritten *)
      injection Hr as <-.
      destruct (Hset (consumed x) (group x) l) as (Hne & Hclean & Hkeep);
        [left; reflexivity|rewrite Hg; exact Ht|].
      set (rel := cssRelative OUT cssLocalPath l) in *.
      pose proof (CssShape.canonical_shape rel Hne Hclean) as Hcan.
      change (cssCanonical rel) with ("url(" +:+ Js.dquote +:+ rel +:+ (Js.dquote +:+ ")")).
      split.
      * rewrite Hs. apply rendered_block; [|exact Hrend].
        split; [exact Hhead|]. split; [apply (CssShape.shape_head _ _ _ _ Hcan)|].
        right. apply (CssShape.shape_tailmatch _ _ _ _ Hcan). discriminate.
      * intros n' Hn'. destruct n' as [|n']; [lia|].
        cbn [scan_go]. rewrite CssPatternFacts.exec_css.
        rewrite (CssShape.shape_css_at _ _ _ _ Hcan out0). cbn [consumed rest group].
        apply render_cons_some.
        -- cbn [renderM default from_option id]. rewrite rewriteCssUrl_target, Hkeep. reflexivity.
        -- apply Hstab. rewrite JsFacts.length_app in Hn'. simpl in Hn'. lia.
    + (* the reference is kept *)
      injection Hr as <-. split.
      * rewrite Hs at 1. apply rendered_block; [|exact Hrend].
        split; [exact Hhead|]. split; [exact Hhead|].
        rewrite Hcons.
        destruct (CssShape.shape_tailmatch _ _ _ _ Hsh) as [H1 H2].
        destruct (String.eqb oq "") eqn:Hoq.
        -- apply String.eqb_eq in Hoq. left. apply H1, Hoq.
        -- apply String.eqb_neq in Hoq. right. apply H2, Hoq.
      * intros n' Hn'. destruct n' as [|n']; [lia|].
        cbn [scan_go]. rewrite CssPatternFacts.exec_css.
        rewrite Hcons at 1.
        rewrite (CssShape.shape_css_at _ _ _ _ Hsh out0). cbn [consumed rest group].
        rewrite <- Hcons.
        destruct (consumed x) as [|c0 m0] eqn:Hc; [simpl in Hlen; lia|].
        rewrite <- Hc in *.
        apply render_cons_some.
        -- cbn [renderM default from_option id]. rewrite rewriteCssUrl_target, Ht. reflexivity.
        -- apply Hstab. rewrite JsFacts.length_app in Hn'. lia.
  - destruct s as [|c s].
    + cbn in Hout. injection Hout as <-. split; [constructor|].
      intros n' Hn'. destruct n' as [|n']; [simpl in Hn'; lia|]. reflexivity.
    + apply render_cons in Hout as (r & out0 & Hr & Hout0 & ->).
      cbn [renderM] in Hr. injection Hr as <-.
      destruct (IH s out0) as [Hrend Hstab]; [simpl in Hn; lia| |exact Hout0|].
      { intros m g l Hin Hl. apply (Hset m g l); [right; exact Hin|exact Hl]. }
      rewrite JsFacts.app_cons, JsFacts.app_nil_l.
      split; [constructor; exact Hrend|].
      intros n' Hn'. destruct n' as [|n']; [lia|].
      cbn [scan_go]. rewrite CssPatternFacts.exec_css.
      rewrite (CssStability.css_at_rendered c s out0 Hrend Hx).
      change (String c out0) with (String c "" +:+ out0).
      apply render_cons_some; [reflexivity|].
      apply Hstab. simpl in Hn'. lia.
Qed.

(** C4, amended.  The rewrite of a stylesheet, applied to its own output
    with the same map, changes nothing, provided every reference that it
    resolved is settled: the path written in its place holds no quote and
    no closing parenthesis, and is not itself resolved by the map,
    neither as it stands nor once resolved against the URL of the
    stylesheet. *)
Theorem rewriteCss_idempotent_when_settled (css css' : string) :
  rewriteCss OUT assetMap cssLocalPath cssUrl css = Some css' ->
  (forall m g l, In (TMatch m g) (scan re_css_url css) ->
     cssTarget assetMap cssUrl (default "" g) = Some (Some l) ->
     settled OUT assetMap cssLocalPath cssUrl l) ->
  rewriteCss OUT assetMap cssLocalPath cssUrl css' = Some css'.
Proof.
  unfold rewriteCss, replace_allM, scan. intros Hout Hset.
  destruct (scan_go_stable (S (String.length css)) css css') as [_ H]; auto.
Qed.

End CssIdempotence.

(** C4, as stated, fails: with [chained_map] the first rewrite points the
    reference to the local copy of [b.png], whose name the map resolves
    as well; the second rewrite changes the reference again. *)
Lemma rewriteCss_counterexample :
  @rewriteCss site site_out chained_map style_local style_url "a{background:url(b.png)}"
  = Some ("a{background:url(" +:+ Js.dquote +:+ "asset__b_png.png" +:+ Js.dquote +:+ ")}") /\
  @rewriteCss site site_out chained_map style_local style_url
    ("a{background:url(" +:+ Js.dquote +:+ "asset__b_png.png" +:+ Js.dquote +:+ ")}")
  = Some ("a{background:url(" +:+ Js.dquote +:+ "asset__asset__b_png_png.png"
          +:+ Js.dquote +:+ ")}").
Proof. split; vm_compute; reflexivity. Qed.

Lemma rewriteCss_idempotent_when_settled_witness :
  let once :=
    "a{background:url(" +:+ Js.dquote +:+ "asset__b_png.png" +:+ Js.dquote
    +:+ ")} b{src:url('c.png')}" in
  @rewriteCss site site_out plain_map style_local style_url style_text = Some once /\
  (forall m g l, In (Regex.TMatch m g) (Regex.scan re_css_url style_text) ->
     @cssTarget site plain_map style_url (default "" g) = Some (Some l) ->
     @settled site site_out plain_map style_local style_url l) /\
  @rewriteCss site site_out plain_map style_local style_url once = Some once.
Proof.
  intros once.
  assert (H1 : @rewriteCss site site_out plain_map style_local style_url style_text
               = Some once) by (vm_compute; reflexivity).
  assert (H2 : forall m g l,
             In (Regex.TMatch m g) (Regex.scan re_css_url style_text) ->
             @cssTarget site plain_map style_url (default "" g) = Some (Some l) ->
             @settled site site_out plain_map style_local style_url l).
  { intros m g l Hin Ht. vm_compute in Hin.
    repeat (destruct Hin as [Hin|Hin]; [try discriminate|]); [| |destruct Hin].
    - injection Hin as <- <-. vm_compute in Ht. injection Ht as <-.
      unfold settled. split; [vm_compute; discriminate|].
      split; vm_compute; reflexivity.
    - injection Hin as <- <-. vm_compute in Ht. discriminate. }
  split; [exact H1|]. split; [exact H2|].
  exact (@rewriteCss_idempotent_when_settled site site_out plain_map style_local
           style_url style_text once H1 H2).
Defined.

(* ===================================================================== *)
(** * The attribute pattern: the matcher and the one-pass match agree *)
(* ===================================================================== *)

Module AttrPatternFacts.

Import Regex.

Lemma upto_ext (f g : ascii -> bool) (s : string) :
  (forall c, f c = g c) -> upto f s = upto g s.
Proof.
  intros H. induction s as [|c s IH]; [reflexivity|].
  cbn [upto]. rewrite H, IH. reflexivity.
Qed.

Lemma from_ext (f g : ascii -> bool) (s : string) :
  (forall c, f c = g c) -> from f s = from g s.
Proof.
  intros H. induction s as [|c s IH]; [reflexivity|].
  cbn [from]. rewrite H, IH. reflexivity.
Qed.

Lemma not_not_quote (c : ascii) : negb (not_quote c) = is_quote c.
Proof. unfold not_quote. apply negb_involutive. Qed.

Lemma value_needs_quote (x : run) :
  starts_with_chr not_quote x -> runs (RChr is_quote) (rest x) = [].
Proof.
  intros (c & r & Hr & Hc). rewrite RegexFacts.runs_chr, Hr. cbn [chr_step].
  unfold not_quote in Hc. apply negb_true_iff in Hc. rewrite Hc. reflexivity.
Qed.

Lemma runs_value (s : string) :
  runs re_value s
  = match s with
    | String c _ =>
        if not_quote c then
          match from is_quote s with
          | String q' r =>
              [Run (upto is_quote s +:+ String q' "") r (Some (upto is_quote s))]
          | "" => []
          end
        else []
    | "" => []
    end.
Proof.
  unfold re_value. rewrite RegexFacts.runs_seq, RegexFacts.runs_cap.
  pose proof (CssPatternFacts.plus_chr_runs not_quote s) as H.
  destruct s as [|c s]; [rewrite H; reflexivity|].
  destruct (not_quote c) eqn:Hc; [|rewrite H; reflexivity].
  destruct H as (l & -> & Hall).
  cbn [map flat_map consumed rest].
  rewrite CssPatternFacts.flat_map_nil, app_nil_r.
  - rewrite (upto_ext _ is_quote _ not_not_quote), (from_ext _ is_quote _ not_not_quote).
    rewrite RegexFacts.runs_chr.
    assert (Hq : match from is_quote (String c s) with
                 | String q' _ => is_quote q' = true
                 | "" => True
                 end).
    { generalize (String c s). intros w. induction w as [|d w IH]; [exact I|].
      cbn [from]. destruct (is_quote d) eqn:Hd; [exact Hd|exact IH]. }
    destruct (from is_quote (String c s)) as [|q' r]; [reflexivity|].
    cbn [chr_step]. rewrite Hq. reflexivity.
  - induction Hall as [|x l Hx _ IH]; [constructor|].
    cbn [map]. constructor; [|exact IH].
    cbn [rest]. rewrite (value_needs_quote x Hx). reflexivity.
Qed.

Lemma runs_attr (attr s : string) :
  runs (re_attr attr) s
  = match attr_at attr s with
    | Some x => [x]
    | None => []
    end.
Proof.
  unfold re_attr, attr_at.
  change (RSeq (RCap (RPlus (RChr not_quote))) (RChr is_quote)) with re_value.
  rewrite RegexFacts.runs_seq, CssPatternFacts.runs_lit.
  destruct (lit_at attr s) as [[u s1]|]; [|reflexivity].
  cbn [flat_map rest]. rewrite app_nil_r.
  rewrite RegexFacts.runs_seq, RegexFacts.runs_chr.
  destruct s1 as [|q s2]; [reflexivity|]. cbn [chr_step].
  destruct (is_quote q); [|reflexivity].
  cbn [flat_map rest]. rewrite runs_value, app_nil_r.
  destruct s2 as [|c s2]; [reflexivity|].
  destruct (not_quote c); [|reflexivity].
  destruct (from is_quote (String c s2)) as [|q' r]; reflexivity.
Qed.

Lemma exec_attr (attr s : string) : exec_at (re_attr attr) s = attr_at attr s.
Proof.
  unfold exec_at. rewrite runs_attr. destruct (attr_at attr s); reflexivity.
Qed.

End AttrPatternFacts.

(* ===================================================================== *)
(** * The attribute pattern on a repaired page *)
(* ===================================================================== *)

Module AttrStability.

Import Regex.

Lemma h_cases (a : ascii) : Js.chr_eqb_ci "h" a = true -> a = "h"%char \/ a = "H"%char.
Proof.
  destruct a as [[] [] [] [] [] [] [] []]; vm_compute; intros H;
    try discriminate; auto.
Qed.

Lemma firstChr_relinked (p : ascii -> bool) (v : bool) (s s' : string) :
  p "h"%char = v -> p "H"%char = v ->
  relinked s s' -> firstChr p s = firstChr p s'.
Proof.
  intros Hu HU H. destruct H as [|c s s' H|m r s s' (Hm & Hr & _) H];
    [reflexivity|reflexivity|].
  destruct Hm as (a & m0 & -> & Ha), Hr as (b & r0 & -> & Hb).
  rewrite !JsFacts.app_cons. cbn [firstChr].
  destruct (h_cases a Ha) as [-> | ->], (h_cases b Hb) as [-> | ->]; congruence.
Qed.

Lemma lit_relinked (w : string) :
  allChr (fun a => negb (Js.chr_eqb_ci a "h")) w = true ->
  forall s s', relinked s s' ->
  match lit_at w s with
  | None => lit_at w s' = None
  | Some (u, s1) => exists s1', lit_at w s' = Some (u, s1') /\ relinked s1 s1'
  end.
Proof.
  induction w as [|b w IH]; intros Hw s s' H.
  - cbn [lit_at]. exists s'. auto.
  - cbn [allChr] in Hw. apply andb_true_iff in Hw as [Hb Hw].
    apply negb_true_iff in Hb.
    destruct H as [|c s s' H|m r s s' (Hm & Hr & _) H].
    + reflexivity.
    + cbn [lit_at]. destruct (Js.chr_eqb_ci b c); [|reflexivity].
      specialize (IH Hw s s' H).
      destruct (lit_at w s) as [[u s1]|].
      * destruct IH as (s1' & -> & Hs). exists s1'. auto.
      * rewrite IH. reflexivity.
    + destruct Hm as (a & m0 & -> & Ha), Hr as (a' & r0 & -> & Ha').
      rewrite !JsFacts.app_cons. cbn [lit_at].
      assert (Hne : forall x, Js.chr_eqb_ci "h" x = true -> Js.chr_eqb_ci b x = false).
      { intros x Hx. destruct (h_cases x Hx) as [-> | ->]; [exact Hb|].
        unfold Js.chr_eqb_ci in *. exact Hb. }
      rewrite (Hne a Ha), (Hne a' Ha'). reflexivity.
Qed.

Lemma has_quote_chr (c : ascii) (s : string) :
  has_quote (String c s) = if is_quote c then true else has_quote s.
Proof. unfold has_quote. cbn [from]. destruct (is_quote c); reflexivity. Qed.

Lemma has_quote_relinked (s s' : string) :
  relinked s s' -> has_quote s = false -> has_quote s' = false.
Proof.
  induction 1 as [|c s s' H IH|m r s s' (Hm & Hr & Ht) H IH]; intros Hf.
  - exact Hf.
  - rewrite has_quote_chr in *. destruct (is_quote c); auto.
  - rewrite Ht in Hf. discriminate.
Qed.

Lemma value_ok_relinked (s s' : string) :
  relinked s s' -> value_ok s = false -> value_ok s' = false.
Proof.
  intros H. unfold value_ok.
  rewrite <- (firstChr_relinked not_quote true s s') by auto.
  destruct (firstChr not_quote s); [|reflexivity].
  cbn [andb]. apply has_quote_relinked, H.
Qed.

(** What follows the name and the equals sign. *)
Lemma attr_at_none (attr s : string) :
  attr_at attr s = None <->
  match lit_at attr s with
  | None => True
  | Some (_, s1) =>
      match s1 with
      | String q s2 => is_quote q && value_ok s2 = false
      | "" => True
      end
  end.
Proof.
  unfold attr_at. destruct (lit_at attr s) as [[u s1]|]; [|tauto].
  destruct s1 as [|q s2]; [tauto|].
  destruct (is_quote q); [|tauto]. cbn [andb]. unfold value_ok, has_quote.
  destruct s2 as [|c s2]; [tauto|]. cbn [firstChr].
  destruct (not_quote c); [|tauto]. cbn [andb].
  destruct (from is_quote (String c s2)); split; intros; try discriminate; auto.
Qed.

(** No attribute starts in front of a text that the pass produced if
    none started there before. *)
Lemma attr_at_relinked (c : ascii) (s s' : string) :
  relinked s s' ->
  attr_at "href=" (String c s) = None -> attr_at "href=" (String c s') = None.
Proof.
  intros H. rewrite !attr_at_none.
  change (lit_at "href=" (String c s)) with
    (if Js.chr_eqb_ci "h" c then
       match lit_at "ref=" s with
       | Some (u, r) => Some (String c u, r)
       | None => None
       end
     else None).
  change (lit_at "href=" (String c s')) with
    (if Js.chr_eqb_ci "h" c then
       match lit_at "ref=" s' with
       | Some (u, r) => Some (String c u, r)
       | None => None
       end
     else None).
  destruct (Js.chr_eqb_ci "h" c); [|auto].
  pose proof (lit_relinked "ref=" eq_refl s s' H) as Hl.
  destruct (lit_at "ref=" s) as [[u s1]|]; [|rewrite Hl; auto].
  destruct Hl as (s1' & -> & Hs).
  destruct Hs as [|q s2 s2' Hs|m r s2 s2' (Hm & Hr & _) Hs]; [auto| |].
  - destruct (is_quote q); [|auto]. cbn [andb]. apply value_ok_relinked, Hs.
  - destruct Hm as (a & m0 & -> & Ha), Hr as (b & r0 & -> & Hb).
    rewrite !JsFacts.app_cons.
    assert (Hq : forall x, Js.chr_eqb_ci "h" x = true -> is_quote x = false).
    { intros x Hx. destruct (h_cases x Hx) as [-> | ->]; reflexivity. }
    rewrite (Hq a Ha), (Hq b Hb). auto.
Qed.

End AttrStability.

Module AttrShape.

Import Regex.

Ltac ci_conflict H :=
  match goal with
  | |- Js.chr_eqb ?a ?x = false =>
      let E := fresh "E" in
      destruct (Js.chr_eqb a x) eqn:E; [|reflexivity];
      apply JsFacts.chr_eqb_eq in E; subst; vm_compute in H; discriminate H
  end.

Lemma lit_href_parts (s u s1 : string) :
  lit_at "href=" s = Some (u, s1) ->
  exists a0 a1 a2 a3 a4,
    u = String a0 (String a1 (String a2 (String a3 (String a4 "")))) /\
    Js.chr_eqb_ci "h" a0 = true /\ Js.chr_eqb_ci "r" a1 = true /\
    Js.chr_eqb_ci "e" a2 = true /\ Js.chr_eqb_ci "f" a3 = true /\
    Js.chr_eqb_ci "=" a4 = true.
Proof.
  destruct s as [|a0 [|a1 [|a2 [|a3 [|a4 s]]]]]; cbn [lit_at];
    repeat (match goal with
            | |- context [if ?b then _ else _] => destruct b eqn:?
            end); try discriminate.
  intros [= <- <-]. exists a0, a1, a2, a3, a4. auto 10.
Qed.

Lemma upto_not_quote (s : string) : allChr not_quote (upto is_quote s) = true.
Proof.
  induction s as [|c s IH]; [reflexivity|].
  cbn [upto]. destruct (is_quote c) eqn:Hc; [reflexivity|].
  cbn [allChr]. unfold not_quote at 1. rewrite Hc, IH. reflexivity.
Qed.

Lemma from_quote_head (s : string) (q : ascii) (r : string) :
  from is_quote s = String q r -> is_quote q = true.
Proof.
  induction s as [|c s IH]; [discriminate|].
  cbn [from]. destruct (is_quote c) eqn:Hc; [|exact IH].
  intros [= <- <-]. exact Hc.
Qed.

Lemma upto_value (cap : string) (q : ascii) (t : string) :
  allChr not_quote cap = true -> is_quote q = true ->
  upto is_quote (cap +:+ String q t) = cap /\
  from is_quote (cap +:+ String q t) = String q t.
Proof.
  intros Hc Hq. induction cap as [|c cap IH].
  - rewrite JsFacts.app_nil_l. cbn [upto from]. rewrite Hq. auto.
  - cbn [allChr] in Hc. apply andb_true_iff in Hc as [Hc1 Hc2].
    unfold not_quote in Hc1. apply negb_true_iff in Hc1.
    rewrite JsFacts.app_cons. cbn [upto from]. rewrite Hc1.
    destruct (IH Hc2) as [-> ->]. auto.
Qed.

Lemma has_quote_mid (x : string) (q : ascii) (y : string) :
  is_quote q = true -> has_quote (x +:+ String q y) = true.
Proof.
  intros Hq. induction x as [|c x IH].
  - rewrite JsFacts.app_nil_l, AttrStability.has_quote_chr, Hq. reflexivity.
  - rewrite JsFacts.app_cons, AttrStability.has_quote_chr, IH.
    destruct (is_quote c); reflexivity.
Qed.

(** What the one-pass match returns has the shape of an attribute. *)
Lemma attr_at_shape (s : string) (x : run) :
  attr_at "href=" s = Some x ->
  exists u q cap q',
    attr_shape u q cap q' /\ consumed x = attr_text u q cap q' /\
    group x = Some cap /\ s = consumed x +:+ rest x.
Proof.
  unfold attr_at. destruct (lit_at "href=" s) as [[u s1]|] eqn:Hl; [|discriminate].
  destruct (CssShape.lit_at_app _ _ _ _ Hl) as [-> Hu].
  destruct (lit_href_parts _ _ _ Hl) as (a0 & a1 & a2 & a3 & a4 & Eu & H0 & H1 & H2 & H3 & H4).
  destruct s1 as [|q s2]; [discriminate|].
  destruct (is_quote q) eqn:Hq; [|discriminate].
  destruct s2 as [|c s2]; [discriminate|].
  destruct (not_quote c) eqn:Hc; [|discriminate].
  destruct (from is_quote (String c s2)) as [|q' r] eqn:Hf; [discriminate|].
  intros [= <-]. cbn [consumed group rest].
  exists u, q, (upto is_quote (String c s2)), q'.
  split; [|split; [reflexivity|split; [reflexivity|]]].
  - unfold attr_shape. split; [exact Hu|]. rewrite Eu.
    split; [reflexivity|]. split; [exists a0; eexists; eauto|].
    split.
    { cbn [allChr]. rewrite !andb_true_iff, !negb_true_iff.
      repeat split; [ci_conflict H0|ci_conflict H1|ci_conflict H2
                    |ci_conflict H3|ci_conflict H4]. }
    split.
    { cbn [Js.skipn allChr]. rewrite !andb_true_iff, !negb_true_iff.
      repeat split; [ci_conflict H1|ci_conflict H2|ci_conflict H3|ci_conflict H4]. }
    split.
    { cbn [Js.skipn firstChr]. rewrite JsFacts.chr_eqb_sym. ci_conflict H1. }
    split; [exact Hq|]. split.
    { cbn [upto]. unfold not_quote in Hc. apply negb_true_iff in Hc.
      rewrite Hc. discriminate. }
    split; [apply upto_not_quote|]. eapply from_quote_head, Hf.
  - unfold attr_text. rewrite JsFacts.app_assoc. f_equal.
    rewrite JsFacts.app_cons. f_equal. rewrite JsFacts.app_assoc.
    rewrite JsFacts.app_cons, JsFacts.app_nil_l, <- Hf.
    exact (CssShape.upto_from is_quote (String c s2)).
Qed.

Lemma attr_text_app (u : string) (q : ascii) (cap : string) (q' : ascii) (t : string) :
  attr_text u q cap q' +:+ t = u +:+ String q (cap +:+ String q' t).
Proof.
  unfold attr_text. rewrite JsFacts.app_assoc, JsFacts.app_cons, JsFacts.app_assoc.
  reflexivity.
Qed.

(** A text of the shape of an attribute is matched as a whole, whatever
    follows it. *)
Lemma shape_attr_at (u : string) (q : ascii) (cap : string) (q' : ascii) :
  attr_shape u q cap q' ->
  forall t, attr_at "href=" (attr_text u q cap q' +:+ t)
            = Some (Run (attr_text u q cap q') t (Some cap)).
Proof.
  intros (Hu & _ & _ & _ & _ & _ & Hq & Hne & Hcap & Hq') t.
  rewrite attr_text_app. unfold attr_at. rewrite Hu, Hq.
  destruct (upto_value cap q' t Hcap Hq') as [Hup Hfr].
  rewrite Hfr, Hup.
  destruct cap as [|c cap]; [contradiction|].
  cbn [allChr] in Hcap. apply andb_true_iff in Hcap as [Hc _].
  rewrite JsFacts.app_cons, Hc. reflexivity.
Qed.

Lemma shape_has_quote (u : string) (q : ascii) (cap : string) (q' : ascii) :
  attr_shape u q cap q' -> forall t, has_quote (attr_text u q cap q' +:+ t) = true.
Proof.
  intros (_ & _ & _ & _ & _ & _ & Hq & _) t.
  rewrite attr_text_app. apply has_quote_mid, Hq.
Qed.

Lemma shape_head_h (u : string) (q : ascii) (cap : string) (q' : ascii) :
  attr_shape u q cap q' -> head_h (attr_text u q cap q').
Proof.
  intros (_ & _ & (a & u0 & -> & Ha) & _). unfold attr_text.
  rewrite JsFacts.app_cons. eexists _, _. eauto.
Qed.

(** The shape does not depend on the value. *)
Lemma shape_value (u : string) (q : ascii) (cap rel : string) (q' : ascii) :
  attr_shape u q cap q' -> rel <> "" -> allChr not_quote rel = true ->
  attr_shape u q rel q'.
Proof.
  intros (H1 & H2 & H3 & H4 & H5 & H6 & H7 & _ & _ & H10) Hne Hall.
  repeat split; auto.
Qed.

End AttrShape.

Module ReplaceFacts.

Lemma startsWith_app_self (p t : string) : Js.startsWith p (p +:+ t) = true.
Proof.
  induction p as [|c p IH]; [reflexivity|].
  rewrite JsFacts.app_cons. cbn [Js.startsWith].
  rewrite JsFacts.chr_eqb_refl, IH. reflexivity.
Qed.

Lemma indexOf_skip (p : string) (c : ascii) (s : string) :
  Js.startsWith p (String c s) = false ->
  Js.indexOf p (String c s) = option_map S (Js.indexOf p s).
Proof. intros H. cbn [Js.indexOf]. rewrite H. reflexivity. Qed.

Lemma indexOf_here (p t : string) : Js.indexOf p (p +:+ t) = Some 0.
Proof.
  destruct p as [|c p]; [destruct t; reflexivity|].
  rewrite JsFacts.app_cons. cbn [Js.indexOf].
  change (String c (p +:+ t)) with (String c p +:+ t).
  rewrite startsWith_app_self. reflexivity.
Qed.

(** A replacement text without dollar sign is inserted as it is. *)
Lemma getSubstitution_plain (matched before after rel : string) :
  allChr (fun c => negb (Js.chr_eqb c "$")) rel = true ->
  Js.getSubstitution matched before after rel = rel.
Proof.
  induction rel as [|c rel IH]; intros H; [reflexivity|].
  cbn [allChr] in H. apply andb_true_iff in H as [Hc H].
  apply negb_true_iff in Hc. cbn [Js.getSubstitution]. rewrite Hc, IH; auto.
Qed.

Lemma allChr_cons (f : ascii -> bool) (a : ascii) (s : string) :
  allChr f (String a s) = true -> f a = true /\ allChr f s = true.
Proof. cbn [allChr]. apply andb_true_iff. Qed.

Lemma quote_not_slash (q : ascii) : is_quote q = true -> Js.chr_eqb "/" q = false.
Proof.
  unfold is_quote. rewrite orb_true_iff, !JsFacts.chr_eqb_eq.
  intros [->| ->]; reflexivity.
Qed.

Lemma quote_not_h (q : ascii) : is_quote q = true -> Js.chr_eqb "h" q = false.
Proof.
  unfold is_quote. rewrite orb_true_iff, !JsFacts.chr_eqb_eq.
  intros [->| ->]; reflexivity.
Qed.

(** In a matched attribute, the value of a rooted reference first occurs
    where the value stands. *)
Lemma indexOf_value (u : string) (q : ascii) (cap : string) (q' : ascii) :
  attr_shape u q cap q' -> rooted cap ->
  Js.indexOf cap (attr_text u q cap q') = Some 6.
Proof.
  intros (_ & Hlen & _ & Hs & Hh & Ht & Hq & _) Hroot.
  destruct u as [|a0 [|a1 [|a2 [|a3 [|a4 [|a5 u]]]]]];
    try (simpl in Hlen; discriminate Hlen).
  cbn [Js.skipn firstChr] in Hh, Ht.
  apply allChr_cons in Hs as (S0 & Hs). apply allChr_cons in Hs as (S1 & Hs).
  apply allChr_cons in Hs as (S2 & Hs). apply allChr_cons in Hs as (S3 & Hs).
  apply allChr_cons in Hs as (S4 & _).
  apply allChr_cons in Hh as (E1 & Hh). apply allChr_cons in Hh as (E2 & Hh).
  apply allChr_cons in Hh as (E3 & Hh). apply allChr_cons in Hh as (E4 & _).
  apply negb_true_iff in S0, S1, S2, S3, S4, E1, E2, E3, E4.
  rewrite JsFacts.chr_eqb_sym in S0. rewrite JsFacts.chr_eqb_sym in S1.
  rewrite JsFacts.chr_eqb_sym in S2. rewrite JsFacts.chr_eqb_sym in S3.
  rewrite JsFacts.chr_eqb_sym in S4. rewrite JsFacts.chr_eqb_sym in E1.
  rewrite JsFacts.chr_eqb_sym in E2. rewrite JsFacts.chr_eqb_sym in E3.
  rewrite JsFacts.chr_eqb_sym in E4.
  unfold attr_text. rewrite !JsFacts.app_cons, JsFacts.app_nil_l.
  assert (Hstart : forall a rest, (Js.chr_eqb "/" a = false) ->
            (Js.chr_eqb "h" a = false \/ firstChr (Js.chr_eqb "t") rest = false) ->
            Js.startsWith cap (String a rest) = false).
  { intros a rest Ha Hb. destruct Hroot as [(r & ->)|(r & ->)].
    - cbn [Js.startsWith]. rewrite Ha. reflexivity.
    - cbn [Js.startsWith]. destruct Hb as [Hb|Hb]; [rewrite Hb; reflexivity|].
      destruct rest as [|b rest]; [apply andb_false_r|].
      cbn [firstChr] in Hb. rewrite Hb. cbn [andb]. apply andb_false_r. }
  rewrite indexOf_skip by (apply Hstart; [exact S0|right; exact Ht]).
  rewrite indexOf_skip by (apply Hstart; [exact S1|left; exact E1]).
  rewrite indexOf_skip by (apply Hstart; [exact S2|left; exact E2]).
  rewrite indexOf_skip by (apply Hstart; [exact S3|left; exact E3]).
  rewrite indexOf_skip by (apply Hstart; [exact S4|left; exact E4]).
  rewrite indexOf_skip
    by (apply Hstart; [apply quote_not_slash, Hq|left; apply quote_not_h, Hq]).
  rewrite indexOf_here. reflexivity.
Qed.

(** So the replacement of a rooted value by a path without dollar sign
    puts that path in the place of the value. *)
Lemma replaceStr_value (u : string) (q : ascii) (cap rel : string) (q' : ascii) :
  attr_shape u q cap q' -> rooted cap ->
  allChr (fun c => negb (Js.chr_eqb c "$")) rel = true ->
  Js.replaceStr (attr_text u q cap q') cap rel = attr_text u q rel q'.
Proof.
  intros Hsh Hroot Hrel. unfold Js.replaceStr.
  rewrite (indexOf_value u q cap q' Hsh Hroot), (getSubstitution_plain _ _ _ _ Hrel).
  destruct Hsh as (_ & Hlen & _).
  destruct u as [|a0 [|a1 [|a2 [|a3 [|a4 [|a5 u]]]]]];
    try (simpl in Hlen; discriminate Hlen).
  unfold attr_text. rewrite !JsFacts.app_cons, !JsFacts.app_nil_l.
  cbn [Nat.add Js.firstn Js.skipn].
  rewrite JsFacts.skipn_length_app. rewrite !JsFacts.app_cons, JsFacts.app_nil_l.
  reflexivity.
Qed.

End ReplaceFacts.

(* ===================================================================== *)
(** * LinkRepairPass: the pass applied to its own output *)
(* ===================================================================== *)

Section RepairIdempotence.

Context `{P : Platform}.
Variable OUT : string.
Variable fs : FileSystem.
Variable pageDir baseOrigin : string.

Import Regex.

Local Abbreviation callback := (fixCallback OUT fs pageDir baseOrigin).
Local Abbreviation written := (fixPath OUT fs pageDir baseOrigin).

Lemma fixCallback_fixPath (match_ href : string) :
  callback match_ href
  = match written href with
    | Some rel => Js.replaceStr match_ href rel
    | None => match_
    end.
Proof.
  unfold fixCallback, fixPath. destruct (skippedHref href); [reflexivity|].
  destruct (linkTarget_fix baseOrigin href) as [|t]; [reflexivity|].
  destruct t as [|c t]; [reflexivity|]. cbn [rewriteTarget].
  destruct (existsSync fs _); reflexivity.
Qed.

(** Only paths from the root and absolute URLs are rewritten. *)
Lemma fixPath_rooted (href rel : string) : written href = Some rel -> rooted href.
Proof.
  unfold fixPath, linkTarget_fix. destruct (skippedHref href); [discriminate|].
  destruct (Js.startsWith "http://" href || Js.startsWith "https://" href) eqn:Hh.
  - intros _. right. apply orb_true_iff in Hh.
    destruct href as [|c0 [|c1 r]].
    { destruct Hh as [Hh|Hh]; cbn in Hh; discriminate. }
    { cbn [Js.startsWith] in Hh. rewrite !andb_false_r in Hh.
      destruct Hh; discriminate. }
    cbn [Js.startsWith] in Hh. rewrite !andb_true_iff, !JsFacts.chr_eqb_eq in Hh.
    exists r. destruct Hh as [(<- & <- & _)|(<- & <- & _)]; reflexivity.
  - destruct (Js.startsWith "/" href) eqn:Hs.
    + intros _. left. destruct href as [|c0 r]; [discriminate|].
      cbn [Js.startsWith] in Hs. rewrite andb_true_iff, JsFacts.chr_eqb_eq in Hs.
      exists r. destruct Hs as [<- _]. reflexivity.
    + destruct (negb _); discriminate.
Qed.

(** A plain path is kept by the callback. *)
Lemma fixPath_plain (rel : string) : plainPath rel -> written rel = None.
Proof.
  intros (_ & _ & _ & H1 & H2 & H3). unfold fixPath.
  destruct (skippedHref rel); [reflexivity|].
  rewrite (linkTarget_fix_relative baseOrigin rel H2 H3 H1). reflexivity.
Qed.

Lemma head_h_length (m : string) : head_h m -> 0 < String.length m.
Proof. intros (a & m0 & -> & _). simpl. lia. Qed.

Lemma render_pure_cons (t : token) (l : list token) :
  concat (map (render callback) (t :: l))
  = render callback t +:+ concat (map (render callback) l).
Proof. reflexivity. Qed.

(** A scan of the repaired page finds the repaired attributes, and the
    callback keeps each of them. *)
Lemma scan_go_relinked : forall (n : nat) (s : string),
  String.length s < n ->
  (forall m g rel, In (TMatch m g) (scan_go re_href n s) ->
     written (default "" g) = Some rel -> plainPath rel) ->
  relinked s (concat (map (render callback) (scan_go re_href n s))) /\
  forall n',
    String.length (concat (map (render callback) (scan_go re_href n s))) < n' ->
    concat (map (render callback)
              (scan_go re_href n' (concat (map (render callback) (scan_go re_href n s)))))
    = concat (map (render callback) (scan_go re_href n s)).
Proof.
  induction n as [|n IH]; intros s Hn Hset; [lia|].
  cbn [scan_go] in Hset |- *. unfold re_href in Hset |- *.
  rewrite AttrPatternFacts.exec_attr in Hset |- *.
  fold re_href in Hset |- *.
  destruct (attr_at "href=" s) as [x|] eqn:Hx.
  - destruct (AttrShape.attr_at_shape s x Hx)
      as (u & q & cap & q' & Hsh & Hcons & Hg & Hs).
    pose proof (AttrShape.shape_head_h _ _ _ _ Hsh) as Hhead.
    pose proof (head_h_length _ Hhead) as Hlen.
    rewrite <- Hcons in Hhead, Hlen.
    destruct (consumed x) as [|c0 m0] eqn:Hc; [simpl in Hlen; lia|].
    rewrite <- Hc in *. clear Hc c0 m0.
    assert (Hrest : String.length (rest x) < n).
    { rewrite Hs, JsFacts.length_app in Hn. lia. }
    destruct (IH (rest x) Hrest) as [Hrend Hstab].
    { intros m g rel Hin Hw. apply (Hset m g rel); [right; exact Hin|exact Hw]. }
    set (out0 := concat (map (render callback) (scan_go re_href n (rest x)))) in *.
    rewrite render_pure_cons. fold out0. cbn [render].
    rewrite Hg. cbn [default from_option id].
    rewrite fixCallback_fixPath.
    destruct (written cap) as [rel|] eqn:Hw.
    + (* the reference is rewritten *)
      assert (Hplain : plainPath rel).
      { apply (Hset (consumed x) (group x) rel); [left; reflexivity|].
        rewrite Hg. exact Hw. }
      pose proof Hplain as (Hne & Hnq & Hnd & _).
      pose proof (fixPath_rooted cap rel Hw) as Hroot.
      rewrite Hcons, (ReplaceFacts.replaceStr_value u q cap rel q' Hsh Hroot Hnd).
      pose proof (AttrShape.shape_value u q cap rel q' Hsh Hne Hnq) as Hsh'.
      split.
      * rewrite Hs, Hcons. apply relinked_block; [|exact Hrend].
        split; [apply (AttrShape.shape_head_h _ _ _ _ Hsh)|].
        split; [apply (AttrShape.shape_head_h _ _ _ _ Hsh')|].
        apply (AttrShape.shape_has_quote _ _ _ _ Hsh).
      * intros n' Hn'. destruct n' as [|n']; [lia|].
        cbn [scan_go]. unfold re_href. rewrite AttrPatternFacts.exec_attr.
        fold re_href.
        rewrite (AttrShape.shape_attr_at _ _ _ _ Hsh' out0). cbn [consumed rest group].
        pose proof (head_h_length _ (AttrShape.shape_head_h _ _ _ _ Hsh')) as Hlen'.
        destruct (attr_text u q rel q') as [|c0 m0] eqn:Hc; [simpl in Hlen'; lia|].
        rewrite <- Hc in *.
        rewrite render_pure_cons. cbn [render default from_option id].
        rewrite fixCallback_fixPath, (fixPath_plain rel Hplain).
        f_equal. apply Hstab. rewrite JsFacts.length_app in Hn'. lia.
    + (* the reference is kept *)
      split.
      * rewrite Hs at 1. apply relinked_block; [|exact Hrend].
        split; [exact Hhead|]. split; [exact Hhead|].
        rewrite Hcons. apply (AttrShape.shape_has_quote _ _ _ _ Hsh).
      * intros n' Hn'. destruct n' as [|n']; [lia|].
        cbn [scan_go]. unfold re_href. rewrite AttrPatternFacts.exec_attr.
        fold re_href. rewrite Hcons at 1.
        rewrite (AttrShape.shape_attr_at _ _ _ _ Hsh out0). cbn [consumed rest group].
        rewrite <- Hcons.
        destruct (consumed x) as [|c0 m0] eqn:Hc; [simpl in Hlen; lia|].
        rewrite <- Hc in *.
        rewrite render_pure_cons. cbn [render default from_option id].
        rewrite fixCallback_fixPath, Hw.
        f_equal. apply Hstab. rewrite JsFacts.length_app in Hn'. lia.
  - destruct s as [|c s].
    + cbn. split; [constructor|]. intros n' Hn'.
      destruct n' as [|n']; [lia|]. reflexivity.
    + destruct (IH s) as [Hrend Hstab]; [simpl in Hn; lia| |].
      { intros m g rel Hin Hw. apply (Hset m g rel); [right; exact Hin|exact Hw]. }
      set (out0 := concat (map (render callback) (scan_go re_href n s))) in *.
      rewrite render_pure_cons. fold out0. cbn [render].
      rewrite JsFacts.app_cons, JsFacts.app_nil_l.
      split; [constructor; exact Hrend|].
      intros n' Hn'. destruct n' as [|n']; [lia|].
      cbn [scan_go]. unfold re_href. rewrite AttrPatternFacts.exec_attr.
      fold re_href.
      rewrite (AttrStability.attr_at_relinked c s out0 Hrend Hx).
      rewrite render_pure_cons. cbn [render].
      rewrite JsFacts.app_cons, JsFacts.app_nil_l.
      f_equal. apply Hstab. simpl in Hn'. lia.
Qed.

End RepairIdempotence.

(** X15, [rewriteInternalLinks] of fix-links.mjs: apart from the
    expansion of dollar signs, the repair pass is
    idempotent: when every path that it writes into a page is plain (a
    relative path without quote and without dollar sign), the pass
    applied to its own output, with the same files on disk, returns that
    output. *)
Lemma repair_idempotent_on_plain_paths `{P : Platform} (OUT : string)
    (fs : FileSystem) (html filePath out : string) (baseUrlObj : URL) :
  url_parse BASE None = Some baseUrlObj ->
  rewriteInternalLinks_fix OUT fs html filePath = Some out ->
  (forall m g rel, In (Regex.TMatch m g) (Regex.scan re_href html) ->
     fixPath OUT fs (path_dirname filePath) (origin baseUrlObj) (default "" g) = Some rel ->
     plainPath rel) ->
  rewriteInternalLinks_fix OUT fs out filePath = Some out.
Proof.
  unfold rewriteInternalLinks_fix. intros ->. cbn [mbind option_bind].
  intros [= <-] Hset. f_equal.
  unfold Regex.replace_all, Regex.scan.
  destruct (scan_go_relinked OUT fs (path_dirname filePath) (origin baseUrlObj)
              (S (String.length html)) html) as [_ H]; [lia|exact Hset|].
  apply H. lia.
Qed.

(** The lemma at work: the home page of [mirror_about] is repaired once,
    and the second pass returns what the first one wrote. *)
Lemma repair_idempotent_example :
  let once := "<a href='../about/index.html'>About</a> <a href='#top'>Top</a>" in
  @rewriteInternalLinks_fix site site_out mirror_about home_html home_page = Some once /\
  @rewriteInternalLinks_fix site site_out mirror_about once home_page = Some once.
Proof.
  intros once.
  assert (H1 : @rewriteInternalLinks_fix site site_out mirror_about home_html home_page
               = Some once) by (vm_compute; reflexivity).
  split; [exact H1|].
  apply (@repair_idempotent_on_plain_paths site site_out mirror_about home_html
           home_page once
           (MkURL "https://www.fruitpunch.ai/" "https://www.fruitpunch.ai"
              "www.fruitpunch.ai" "/")); [vm_compute; reflexivity|exact H1|].
  intros m g rel Hin Hw. vm_compute in Hin.
  repeat (destruct Hin as [Hin|Hin]; [try discriminate|]); [| |destruct Hin].
  - injection Hin as <- <-. vm_compute in Hw. injection Hw as <-.
    unfold plainPath. repeat split; try reflexivity. discriminate.
  - injection Hin as <- <-. vm_compute in Hw. discriminate.
Defined.

(* ===================================================================== *)
(** * IncompletePageDetector: the body region *)
(* ===================================================================== *)

Module BodyPatternFacts.

Import Regex.

(** The lazy star of the body pattern tries every cut, the shortest
    first. *)
Lemma lazy_any_runs (step : string -> list run) :
  (forall s, step s = chr_step (fun _ => true) s) ->
  forall n s, String.length s <= n -> star_runs step false n s = cuts s.
Proof.
  intros Hstep. induction n as [|n IH]; intros s Hn.
  - destruct s; [reflexivity|simpl in Hn; lia].
  - cbn [star_runs]. rewrite Hstep.
    destruct s as [|c s]; [reflexivity|].
    cbn [chr_step flat_map consumed rest cuts].
    rewrite app_nil_r, IH; [reflexivity|simpl in Hn; lia].
Qed.

Lemma later_none (g : option string) : later None g = g.
Proof. destruct g; reflexivity. Qed.

Lemma hd_extend_group (x : run) (l : list run) :
  group x = None ->
  group <$> hd_error (map (extend x) l) = group <$> hd_error l.
Proof.
  intros Hx. destruct l as [|y l]; [reflexivity|].
  cbn [map hd_error fmap option_fmap option_map extend group].
  rewrite Hx, later_none. reflexivity.
Qed.

(** The closing tag after a cut that starts one character earlier. *)
Lemma close_after_push (c : ascii) (s' : string) (x : run) :
  map (extend (captured (extend (Run (String c "") s' None) x)))
    (runs (RLit "</body>") (rest (captured (extend (Run (String c "") s' None) x))))
  = map (push c) (map (extend (captured x)) (runs (RLit "</body>") (rest (captured x)))).
Proof.
  cbn [captured extend rest consumed].
  rewrite CssPatternFacts.runs_lit.
  destruct (lit_at "</body>" (rest x)) as [[cl r]|]; [|reflexivity].
  unfold captured, extend, push.
  cbn [map consumed rest group later fmap option_fmap option_map].
  rewrite !JsFacts.app_cons, !JsFacts.app_nil_l. reflexivity.
Qed.

Lemma tail_after_push (c : ascii) (s' : string) (l : list run) :
  flat_map (fun x => map (extend x) (runs (RLit "</body>") (rest x)))
    (map captured (map (extend (Run (String c "") s' None)) l))
  = map (push c)
      (flat_map (fun x => map (extend x) (runs (RLit "</body>") (rest x)))
         (map captured l)).
Proof.
  induction l as [|x l IH]; [reflexivity|].
  cbn [map flat_map]. rewrite map_app, IH, close_after_push. reflexivity.
Qed.

Lemma runs_tail (s : string) :
  runs re_body_tail s
  = flat_map (fun x => map (extend x) (runs (RLit "</body>") (rest x)))
      (map captured (cuts s)).
Proof.
  unfold re_body_tail. rewrite RegexFacts.runs_seq, RegexFacts.runs_cap.
  rewrite RegexFacts.runs_star.
  rewrite (lazy_any_runs _ (RegexFacts.runs_chr _) _ s (le_n _)).
  reflexivity.
Qed.

(** The captured text is the text in front of the first closing tag. *)
Lemma tail_group (s : string) :
  group <$> hd_error (runs re_body_tail s) = Some <$> untilClose s.
Proof.
  induction s as [|c s IH].
  - reflexivity.
  - rewrite runs_tail in *. cbn [cuts map flat_map untilClose].
    rewrite tail_after_push.
    change (rest (captured (Run "" (String c s) None))) with (String c s).
    rewrite CssPatternFacts.runs_lit.
    destruct (lit_at "</body>" (String c s)) as [[cl r]|]; [reflexivity|].
    cbn [map app].
    destruct (hd_error (flat_map
               (fun x => map (extend x) (runs (RLit "</body>") (rest x)))
               (map captured (cuts s)))) as [y|] eqn:Hy.
    + destruct (flat_map _ (map captured (cuts s))) as [|y' l]; [discriminate|].
      injection Hy as ->. cbn [fmap option_fmap option_map] in IH.
      destruct (untilClose s) as [b|]; [|discriminate].
      injection IH as IH. cbn [map hd_error fmap option_fmap option_map push group].
      rewrite IH. reflexivity.
    + destruct (flat_map _ (map captured (cuts s))) as [|y' l]; [|discriminate].
      destruct (untilClose s) as [b|]; [discriminate|]. reflexivity.
Qed.

Lemma from_found (stop : ascii -> bool) (s : string) (d : ascii) (r : string) :
  from stop s = String d r -> stop d = true.
Proof.
  induction s as [|c s IH]; [discriminate|].
  cbn [from]. destruct (stop c) eqn:Hc; [|exact IH].
  intros [= <- _]. exact Hc.
Qed.

Lemma gt_needs_stop (x : run) (r2 : regex) :
  starts_with_chr not_gt x ->
  map (extend x) (runs (RSeq (RChr (Js.chr_eqb ">")) r2) (rest x)) = [].
Proof.
  intros (c & r & Hr & Hc). rewrite Hr, RegexFacts.runs_seq, RegexFacts.runs_chr.
  cbn [chr_step]. unfold not_gt in Hc. apply negb_true_iff in Hc.
  rewrite JsFacts.chr_eqb_sym, Hc. reflexivity.
Qed.

(** The match of the body pattern at the start of [s] captures the body
    region that opens there. *)
Lemma exec_body (s : string) :
  group <$> exec_at re_body s = Some <$> bodyAt s.
Proof.
  unfold exec_at, re_body, bodyAt.
  rewrite RegexFacts.runs_seq, CssPatternFacts.runs_lit.
  destruct (lit_at "<body" s) as [[o r]|]; [|reflexivity].
  cbn [flat_map rest]. rewrite app_nil_r.
  rewrite hd_extend_group by reflexivity.
  rewrite RegexFacts.runs_seq, RegexFacts.runs_star.
  destruct (CssPatternFacts.star_chr_runs not_gt (runs (RChr not_gt))
              (RegexFacts.runs_chr not_gt) (String.length r) r (le_n _))
    as (l & Hl & Hall).
  rewrite Hl. cbn [flat_map rest].
  rewrite (CssPatternFacts.flat_map_nil _ l).
  2:{ eapply Forall_impl; [exact Hall|]. intros x Hx. apply gt_needs_stop, Hx. }
  rewrite app_nil_r, hd_extend_group by reflexivity.
  rewrite (AttrPatternFacts.from_ext _ is_gt r)
    by (intros c; unfold not_gt, is_gt; apply negb_involutive).
  destruct (from is_gt r) as [|d r'] eqn:Hf; [reflexivity|].
  apply from_found in Hf. unfold is_gt in Hf.
  rewrite RegexFacts.runs_seq, RegexFacts.runs_chr. cbn [chr_step].
  rewrite JsFacts.chr_eqb_sym, Hf. cbn [flat_map rest]. rewrite app_nil_r.
  rewrite hd_extend_group by reflexivity.
  apply tail_group.
Qed.

(** The leftmost match captures the first body region. *)
Lemma search_body (s : string) :
  group <$> search re_body s = Some <$> bodyRegion s.
Proof.
  induction s as [|c s IH]; cbn [search bodyRegion].
  - pose proof (exec_body "") as H.
    destruct (exec_at re_body "") as [x|], (bodyAt "") as [b|];
      try discriminate H; [exact H|reflexivity].
  - pose proof (exec_body (String c s)) as H.
    destruct (exec_at re_body (String c s)) as [x|], (bodyAt (String c s)) as [b|];
      try discriminate H; [exact H|exact IH].
Qed.

(** [hasBodyContent] measures the first body region. *)
Lemma hasBodyContent_region (content : string) :
  hasBodyContent content
  = match bodyRegion content with
    | Some body => 200 <? String.length (Js.trim body)
    | None => false
    end.
Proof.
  unfold hasBodyContent. pose proof (search_body content) as H.
  destruct (search re_body content) as [x|], (bodyRegion content) as [b|];
    try discriminate H; [|reflexivity].
  injection H as ->. destruct b; reflexivity.
Qed.

End BodyPatternFacts.

(** C9, amended.  A page is flagged exactly when one of the three
    conditions holds: fewer than 50 lines (one more than its number of
    line feeds); no body region with more than 200 characters of trimmed
    text; or one of the three markers.  The body region is the first one
    of the document: it opens at the first place where the text reads
    [<body] with a [>] after it and a closing tag [</body>] after the
    first such [>]; it is the text between that [>] and the first
    closing tag after it, so that a later region does not count.  Hence a page of fewer than 50 lines is
    flagged whatever its body; and a page whose first body region has
    more than 200 characters of trimmed text is not flagged provided it
    also has at least 50 lines and contains no marker. *)
Theorem isBlankPage_conditions (content : string) :
  (hasBodyContent content = true <->
     exists body, bodyRegion content = Some body /\
                  200 < String.length (Js.trim body)) /\
  (isBlankPage content = true <->
     countChr "010" content < 49 \/
     (forall body, bodyRegion content = Some body ->
                   String.length (Js.trim body) <= 200) \/
     exists m, In m cloudflareMarkers /\ Js.includes m content = true) /\
  (lineCount content < 50 -> isBlankPage content = true) /\
  (forall body, bodyRegion content = Some body ->
     200 < String.length (Js.trim body) -> 50 <= lineCount content ->
     (forall m, In m cloudflareMarkers -> Js.includes m content = false) ->
     isBlankPage content = false).
Proof.
  assert (Hbody : hasBodyContent content = true <->
            exists body, bodyRegion content = Some body /\
                         200 < String.length (Js.trim body)).
  { rewrite BodyPatternFacts.hasBodyContent_region.
    destruct (bodyRegion content) as [b|].
    - rewrite Nat.ltb_lt. split; [eauto|]. intros (b' & [= <-] & H). exact H.
    - split; [discriminate|]. intros (b' & [=] & _). }
  split; [exact Hbody|]. unfold isBlankPage. split; [|split].
  - rewrite <- DetectorFacts.marker_found, DetectorFacts.lineCount_newlines.
    rewrite !orb_true_iff, negb_true_iff, Nat.ltb_lt.
    assert (Hno : hasBodyContent content = false <->
              forall body, bodyRegion content = Some body ->
                           String.length (Js.trim body) <= 200).
    { rewrite <- not_true_iff_false, Hbody. split.
      - intros Hn body Hb. destruct (le_lt_dec (String.length (Js.trim body)) 200);
          [assumption|]. destruct Hn. eauto.
      - intros Hall (body & Hb & Hlen). specialize (Hall body Hb). lia. }
    rewrite Hno. intuition lia.
  - intros H. apply Nat.ltb_lt in H. rewrite H. reflexivity.
  - intros body Hb Hlen Hl Hm.
    assert (H1 : hasBodyContent content = true) by (apply Hbody; eauto).
    assert (H2 : hasCloudflareError content = false).
    { apply not_true_iff_false. intros H.
      apply DetectorFacts.marker_found in H as (m & Hin & Hinc).
      rewrite (Hm m Hin) in Hinc. discriminate. }
    rewrite H1, H2.
    replace (lineCount content <? 50) with false; [reflexivity|].
    symmetry. apply Nat.ltb_ge. exact Hl.
Qed.

Lemma isBlankPage_conditions_witness :
  bodyRegion doc_full = Some (repeatChr 201 "a") /\
  200 < String.length (Js.trim (repeatChr 201 "a")) /\
  50 <= lineCount doc_full /\
  (forall m, In m cloudflareMarkers -> Js.includes m doc_full = false) /\
  isBlankPage doc_full = false.
Proof.
  assert (Hb : bodyRegion doc_full = Some (repeatChr 201 "a"))
    by (vm_compute; reflexivity).
  assert (Hn : 200 < String.length (Js.trim (repeatChr 201 "a")))
    by (vm_compute; lia).
  assert (Hl : 50 <= lineCount doc_full) by (vm_compute; lia).
  assert (Hm : forall m, In m cloudflareMarkers -> Js.includes m doc_full = false).
  { intros m Hin. repeat (destruct Hin as [<-|Hin]; [vm_compute; reflexivity|]).
    destruct Hin. }
  split; [exact Hb|]. split; [exact Hn|]. split; [exact Hl|]. split; [exact Hm|].
  destruct (isBlankPage_conditions doc_full) as (_ & _ & _ & H).
  apply (H (repeatChr 201 "a")); assumption.
Defined.

(** A later body region does not count: [doc_script_body] has 50 lines,
    no marker and a body of 201 characters, and is flagged all the same,
    because the first body region is the empty one that its script
    spells. *)
Lemma first_body_region_decides :
  lineCount doc_script_body = 50 /\
  hasCloudflareError doc_script_body = false /\
  bodyRegion doc_script_body = Some "" /\
  isBlankPage doc_script_body = true.
Proof. vm_compute. repeat split. Qed.

(* ===================================================================== *)
(** * Further properties of the scripts *)
(* ===================================================================== *)

(** ** Strings *)

Module StringFacts.

Lemma allChr_app (f : ascii -> bool) (s t : string) :
  allChr f (s +:+ t) = allChr f s && allChr f t.
Proof.
  induction s as [|c s IH]; [reflexivity|].
  rewrite JsFacts.app_cons. cbn [allChr]. rewrite IH. apply andb_assoc.
Qed.

Lemma allChr_impl (f g : ascii -> bool) (s : string) :
  (forall c, f c = true -> g c = true) -> allChr f s = true -> allChr g s = true.
Proof.
  intros H. induction s as [|c s IH]; [reflexivity|].
  cbn [allChr]. rewrite !andb_true_iff. intros [Hc Hs]. auto.
Qed.

Lemma allChr_firstn (f : ascii -> bool) (n : nat) :
  forall s, allChr f s = true -> allChr f (Js.firstn n s) = true.
Proof.
  induction n as [|n IH]; intros [|c s] H; try reflexivity.
  cbn [Js.firstn allChr] in *. apply andb_true_iff in H as [H1 H2].
  rewrite H1, IH; auto.
Qed.

Lemma length_firstn (n : nat) : forall s, String.length (Js.firstn n s) <= n.
Proof.
  induction n as [|n IH]; intros [|c s]; simpl; try lia.
  specialize (IH s). lia.
Qed.

(** A string is empty or ends with a character. *)
Lemma snoc_cases (s : string) : s = "" \/ exists p c, s = p +:+ String c "".
Proof.
  induction s as [|a s IH]; [auto|]. right.
  destruct IH as [->|(p & c & ->)].
  - exists "", a. reflexivity.
  - exists (String a p), c. rewrite JsFacts.app_cons. reflexivity.
Qed.

Lemma endsWith_chr (p : string) (c d : ascii) :
  Js.endsWith (String d "") (p +:+ String c "") = Js.chr_eqb c d.
Proof.
  unfold Js.endsWith. rewrite JsFacts.length_app. cbn [String.length].
  replace (String.length p + 1 - 1) with (String.length p) by lia.
  rewrite JsFacts.skipn_length_app.
  replace (1 <=? String.length p + 1) with true by (symmetry; apply Nat.leb_le; lia).
  cbn [andb String.eqb]. unfold Js.chr_eqb.
  destruct (Ascii.eqb c d); reflexivity.
Qed.

(** [join] on a list that grows at its end. *)
Lemma join_app (l k : list string) :
  l <> [] -> k <> [] ->
  Js.join "/" (l ++ k) = Js.join "/" l +:+ "/" +:+ Js.join "/" k.
Proof.
  intros Hl Hk. induction l as [|a l IH]; [congruence|].
  destruct l as [|b l].
  - destruct k as [|x k]; [congruence|]. reflexivity.
  - change (Js.join "/" ((a :: b :: l) ++ k))
      with (a +:+ "/" +:+ Js.join "/" ((b :: l) ++ k)).
    rewrite IH by discriminate.
    change (Js.join "/" (a :: b :: l)) with (a +:+ "/" +:+ Js.join "/" (b :: l)).
    rewrite !JsFacts.app_assoc. reflexivity.
Qed.

Lemma allChr_join (f : ascii -> bool) (l : list string) :
  f "/"%char = true -> Forall (fun s => allChr f s = true) l ->
  allChr f (Js.join "/" l) = true.
Proof.
  intros Hf. induction l as [|a l IH]; intros H; [reflexivity|].
  apply Forall_cons in H as [Ha Hl]. destruct l as [|b l]; [exact Ha|].
  change (Js.join "/" (a :: b :: l)) with (a +:+ "/" +:+ Js.join "/" (b :: l)).
  rewrite !allChr_app, Ha, (IH Hl). cbn [allChr]. rewrite Hf. reflexivity.
Qed.

(** A replacement of the characters of a class, through the matcher. *)
Lemma scan_go_chr (p : ascii -> bool) (r : string) :
  forall n s, String.length s < n ->
  Regex.concat (map (Regex.render (fun _ _ => r)) (Regex.scan_go (Regex.RChr p) n s))
  = substChr p r s.
Proof.
  induction n as [|n IH]; intros s Hn; [lia|].
  destruct s as [|c s]; [reflexivity|].
  simpl in Hn. cbn [Regex.scan_go substChr]. unfold Regex.exec_at.
  rewrite RegexFacts.runs_chr. cbn [chr_step].
  destruct (p c);
    cbn [hd_error Regex.consumed Regex.rest Regex.group map Regex.concat
         Regex.render default];
    rewrite IH by lia; reflexivity.
Qed.

Lemma replace_all_chr (p : ascii -> bool) (r s : string) :
  Regex.replace_all (Regex.RChr p) (fun _ _ => r) s = substChr p r s.
Proof. unfold Regex.replace_all, Regex.scan. apply scan_go_chr. lia. Qed.

Lemma allChr_substChr (f p : ascii -> bool) (r s : string) :
  allChr f r = true -> (forall c, p c = false -> f c = true) ->
  allChr f (substChr p r s) = true.
Proof.
  intros Hr Hp. induction s as [|c s IH]; [reflexivity|].
  cbn [substChr]. rewrite allChr_app, IH, andb_true_r.
  destruct (p c) eqn:E; [exact Hr|]. cbn [allChr]. rewrite (Hp c E). reflexivity.
Qed.

Lemma firstn_substChr (p : ascii -> bool) (a : ascii) (n : nat) :
  forall s, Js.firstn n (substChr p (String a "") s)
            = substChr p (String a "") (Js.firstn n s).
Proof.
  induction n as [|n IH]; intros [|c s]; try reflexivity.
  cbn [substChr Js.firstn].
  destruct (p c); rewrite !JsFacts.app_cons, !JsFacts.app_nil_l;
    cbn [Js.firstn]; rewrite IH; reflexivity.
Qed.

End StringFacts.

(* ===================================================================== *)
(** ** PathMapper: what [safeFileName] does to a path *)
(* ===================================================================== *)

Module MapperFacts.

Lemma upto_plain (s : string) :
  allChr (fun c => negb (queryOrHash c)) s = true -> upto queryOrHash s = s.
Proof.
  induction s as [|c s IH]; [reflexivity|].
  cbn [allChr upto]. intros H. apply andb_true_iff in H as [Hc Hs].
  apply negb_true_iff in Hc. rewrite Hc, IH; auto.
Qed.

Lemma allChr_upto (s : string) :
  allChr (fun c => negb (queryOrHash c)) (upto queryOrHash s) = true.
Proof.
  induction s as [|c s IH]; [reflexivity|].
  cbn [upto]. destruct (queryOrHash c) eqn:E; [reflexivity|].
  cbn [allChr]. rewrite E, IH. reflexivity.
Qed.

Lemma allChr_dropLast (f : ascii -> bool) (s : string) :
  allChr f s = true -> allChr f (Js.dropLast s) = true.
Proof.
  induction s as [|c s IH]; [reflexivity|].
  cbn [allChr Js.dropLast]. intros H. apply andb_true_iff in H as [Hc Hs].
  destruct s as [|d s]; [reflexivity|].
  cbn [allChr]. rewrite Hc. apply IH, Hs.
Qed.

Lemma allChr_stripLeading (f : ascii -> bool) (c : ascii) (s : string) :
  allChr f s = true -> allChr f (stripLeading c s) = true.
Proof.
  induction s as [|d s IH]; [reflexivity|].
  cbn [stripLeading]. destruct (Js.chr_eqb d c); [|auto].
  cbn [allChr]. intros H. apply andb_true_iff in H as [_ Hs]. auto.
Qed.

Lemma stripLeading_id (s : string) :
  Js.startsWith "/" s = false -> stripLeading "/" s = s.
Proof.
  destruct s as [|c s]; [reflexivity|].
  cbn [Js.startsWith stripLeading]. rewrite andb_true_r.
  rewrite JsFacts.chr_eqb_sym. intros ->. reflexivity.
Qed.

Lemma stripLeading_empty (s : string) :
  stripLeading "/" s = "" <-> allChr is_slash s = true.
Proof.
  induction s as [|c s IH]; [tauto|].
  cbn [stripLeading allChr]. unfold is_slash at 1.
  destruct (Js.chr_eqb c "/"); [exact IH|]. split; discriminate.
Qed.

(** The name of a path from the root without query, fragment and
    trailing slash is the path without its leading slash. *)
Lemma safeFileName_rooted (d : string) :
  d <> "" -> allChr (fun c => negb (queryOrHash c)) d = true ->
  Js.startsWith "/" d = false -> Js.endsWith "/" d = false ->
  upto queryOrHash ("/" +:+ d) = "/" +:+ d /\
  Js.endsWith "/" ("/" +:+ d) = false /\
  safeFileName ("/" +:+ d) = d.
Proof.
  intros Hne Hq Hs He.
  assert (Hup : upto queryOrHash ("/" +:+ d) = "/" +:+ d).
  { apply upto_plain. rewrite JsFacts.app_cons, JsFacts.app_nil_l.
    cbn [allChr]. rewrite Hq. reflexivity. }
  assert (Hend : Js.endsWith "/" ("/" +:+ d) = false).
  { destruct (StringFacts.snoc_cases d) as [->|(p & c & ->)]; [contradiction|].
    rewrite StringFacts.endsWith_chr in He.
    rewrite <- JsFacts.app_assoc, StringFacts.endsWith_chr. exact He. }
  split; [exact Hup|]. split; [exact Hend|].
  rewrite PathMapperFacts.safeFileName_refines. unfold toLocalPath_rules.
  change (fun c : ascii => Js.chr_eqb c "?" || Js.chr_eqb c "#") with queryOrHash.
  rewrite Hup, Hend. rewrite JsFacts.app_cons, JsFacts.app_nil_l.
  cbn [stripLeading]. rewrite JsFacts.chr_eqb_refl.
  apply stripLeading_id, Hs.
Qed.

Lemma safeFileName_directory (d : string) :
  d <> "" -> allChr (fun c => negb (queryOrHash c)) d = true ->
  Js.startsWith "/" d = false -> Js.endsWith "/" d = false ->
  safeFileName ("/" +:+ d) = d /\ safeFileName ("/" +:+ d +:+ "/") = d.
Proof.
  intros Hne Hq Hs He.
  destruct (safeFileName_rooted d Hne Hq Hs He) as (Hup & Hend & H1).
  split; [exact H1|].
  rewrite <- JsFacts.app_assoc, !PathMapperFacts.safeFileName_refines.
  rewrite (PathMapperFacts.rules_trailing_slash _ Hup Hend).
  rewrite <- PathMapperFacts.safeFileName_refines. exact H1.
Qed.

End MapperFacts.

(** X1, [safeFileName] of scrape.mjs, rescrape-blank.mjs and
    fix-links.mjs: for a relative directory path [d] (not empty, without
    question mark and hash sign, neither starting nor ending with a
    slash), the URL paths [/d] and [/d/] are both mapped to [d] itself:
    the page of such a URL path is stored in the directory of that
    name. *)
Theorem safeFileName_inverts_directory (d : string) :
  d <> "" -> allChr (fun c => negb (queryOrHash c)) d = true ->
  Js.startsWith "/" d = false -> Js.endsWith "/" d = false ->
  safeFileName ("/" +:+ d) = d /\ safeFileName ("/" +:+ d +:+ "/") = d.
Proof.
  intros Hne Hq Hs He.
  destruct (MapperFacts.safeFileName_rooted d Hne Hq Hs He) as (Hup & Hend & H1).
  split; [exact H1|].
  rewrite <- JsFacts.app_assoc, !PathMapperFacts.safeFileName_refines.
  rewrite (PathMapperFacts.rules_trailing_slash _ Hup Hend).
  rewrite <- PathMapperFacts.safeFileName_refines. exact H1.
Qed.

Lemma safeFileName_inverts_directory_witness :
  "blog/post" <> "" /\
  allChr (fun c => negb (queryOrHash c)) "blog/post" = true /\
  Js.startsWith "/" "blog/post" = false /\ Js.endsWith "/" "blog/post" = false /\
  safeFileName ("/" +:+ "blog/post") = "blog/post" /\
  safeFileName ("/" +:+ "blog/post" +:+ "/") = "blog/post".
Proof.
  split; [discriminate|]. split; [reflexivity|]. split; [reflexivity|].
  split; [reflexivity|].
  apply (safeFileName_inverts_directory "blog/post");
    [discriminate|reflexivity|reflexivity|reflexivity].
Defined.

(** X2, [safeFileName]: whatever the input, the name holds no question
    mark and no hash sign; the query and the fragment never reach the
    file system. *)
Theorem safeFileName_drops_query_and_fragment (u : string) :
  allChr (fun c => negb (queryOrHash c)) (safeFileName u) = true.
Proof.
  rewrite PathMapperFacts.safeFileName_refines. unfold toLocalPath_rules.
  change (fun c : ascii => Js.chr_eqb c "?" || Js.chr_eqb c "#") with queryOrHash.
  pose proof (MapperFacts.allChr_upto u) as H.
  set (p := upto queryOrHash u) in *.
  assert (H' : allChr (fun c => negb (queryOrHash c))
                 (if Js.endsWith "/" p then Js.dropLast p else p) = true).
  { destruct (Js.endsWith "/" p); [apply MapperFacts.allChr_dropLast|]; exact H. }
  destruct (if Js.endsWith "/" p then Js.dropLast p else p) eqn:E; [reflexivity|].
  apply MapperFacts.allChr_stripLeading, H'.
Qed.

(** X3, [safeFileName]: the name is the empty string exactly when the
    path in front of the query and the fragment consists of two or more
    slashes and nothing else.  (The fixed name [index] is given to the
    empty path and to the path of one slash only; for a path of several
    slashes the page directory is the mirror root itself.) *)
Theorem safeFileName_empty_iff (u : string) :
  safeFileName u = "" <->
  allChr is_slash (upto queryOrHash u) = true /\
  2 <= String.length (upto queryOrHash u).
Proof.
  rewrite PathMapperFacts.safeFileName_refines. unfold toLocalPath_rules.
  change (fun c : ascii => Js.chr_eqb c "?" || Js.chr_eqb c "#") with queryOrHash.
  set (p := upto queryOrHash u).
  destruct (StringFacts.snoc_cases p) as [->|(q & c & ->)].
  { cbn. split; [discriminate|]. intros [_ H]. lia. }
  rewrite StringFacts.endsWith_chr, StringFacts.allChr_app, JsFacts.length_app.
  cbn [allChr String.length]. rewrite andb_true_r. fold (is_slash c).
  destruct (is_slash c) eqn:Ec.
  - unfold is_slash in Ec. apply JsFacts.chr_eqb_eq in Ec. subst c.
    rewrite PathMapperFacts.dropLast_snoc, andb_true_r.
    destruct q as [|a q]; [cbn; split; [discriminate|intros [_ H]; lia]|].
    rewrite MapperFacts.stripLeading_empty. cbn [String.length]. intuition lia.
  - rewrite andb_false_r.
    destruct (q +:+ String c "") as [|a r] eqn:E.
    { destruct q; discriminate. }
    rewrite <- E, MapperFacts.stripLeading_empty, StringFacts.allChr_app.
    cbn [allChr]. rewrite Ec, andb_false_r. intuition discriminate.
Qed.

(* ===================================================================== *)
(** ** The reverse mapping of rescrape-blank.mjs, on POSIX paths *)
(* ===================================================================== *)

Module PosixFacts.

Lemma clean_parts (s : string) :
  cleanName s ->
  s <> "" /\ s <> "." /\ s <> ".." /\ allChr seg_chr s = true.
Proof.
  unfold cleanName, cleanSeg.
  rewrite !andb_true_iff, !negb_true_iff, !String.eqb_neq. tauto.
Qed.

Lemma seg_chr_slash (c : ascii) : seg_chr c = true -> Js.chr_eqb c "/" = false.
Proof.
  unfold seg_chr. rewrite negb_true_iff, !orb_false_iff. tauto.
Qed.

Lemma seg_chr_plain (c : ascii) : seg_chr c = true -> negb (queryOrHash c) = true.
Proof.
  unfold seg_chr, queryOrHash. rewrite !negb_true_iff, !orb_false_iff. tauto.
Qed.

Lemma clean_seg_chr (l : list string) :
  Forall cleanName l -> Forall (fun s => allChr seg_chr s = true) l.
Proof.
  intros H. eapply Forall_impl; [exact H|].
  intros s Hs. apply (clean_parts s Hs).
Qed.

(** [split] undoes [join]. *)
Lemma split_head (a rest : string) :
  allChr seg_chr a = true ->
  Js.split "/" (a +:+ String "/" rest) = a :: Js.split "/" rest.
Proof.
  induction a as [|c a IH]; intros H.
  - rewrite JsFacts.app_nil_l. reflexivity.
  - cbn [allChr] in H. apply andb_true_iff in H as [Hc Ha].
    rewrite JsFacts.app_cons. cbn [Js.split].
    rewrite (seg_chr_slash c Hc), (IH Ha). reflexivity.
Qed.

Lemma split_one (a : string) : allChr seg_chr a = true -> Js.split "/" a = [a].
Proof.
  induction a as [|c a IH]; intros H; [reflexivity|].
  cbn [allChr] in H. apply andb_true_iff in H as [Hc Ha].
  cbn [Js.split]. rewrite (seg_chr_slash c Hc), (IH Ha). reflexivity.
Qed.

Lemma split_join (l : list string) :
  l <> [] -> Forall (fun s => allChr seg_chr s = true) l ->
  Js.split "/" (Js.join "/" l) = l.
Proof.
  induction l as [|a l IH]; [congruence|]. intros _ H.
  apply Forall_cons in H as [Ha Hl].
  destruct l as [|b l]; [apply split_one, Ha|].
  change (Js.join "/" (a :: b :: l)) with (a +:+ String "/" (Js.join "/" (b :: l))).
  rewrite (split_head a _ Ha), IH; [reflexivity|discriminate|exact Hl].
Qed.

Lemma normalizeSegs_clean (absolute : bool) (l : list string) :
  Forall cleanName l ->
  forall stack, Posix.normalizeSegs absolute stack l = rev stack ++ l.
Proof.
  induction l as [|s l IH]; intros H stack.
  - cbn [Posix.normalizeSegs]. rewrite app_nil_r. reflexivity.
  - apply Forall_cons in H as [Hs Hl].
    destruct (clean_parts s Hs) as (H1 & H2 & H3 & _).
    apply String.eqb_neq in H1, H2, H3.
    cbn [Posix.normalizeSegs]. rewrite H1, H2, H3. cbn [orb].
    rewrite (IH Hl). cbn [rev]. rewrite <- app_assoc. reflexivity.
Qed.

(** A path of clean names neither starts nor ends with a slash. *)
Lemma join_last (l : list string) :
  l <> [] -> Forall cleanName l ->
  exists p c, Js.join "/" l = p +:+ String c "" /\ Js.chr_eqb c "/" = false.
Proof.
  induction l as [|a l IH]; [congruence|]. intros _ H.
  apply Forall_cons in H as [Ha Hl].
  destruct l as [|b l].
  - destruct (clean_parts a Ha) as (Hne & _ & _ & Hall).
    destruct (StringFacts.snoc_cases a) as [->|(p & c & ->)]; [contradiction|].
    exists p, c. split; [reflexivity|].
    rewrite StringFacts.allChr_app in Hall. apply andb_true_iff in Hall as [_ Hc].
    cbn [allChr] in Hc. rewrite andb_true_r in Hc. apply seg_chr_slash, Hc.
  - destruct IH as (p & c & E & Hc); [discriminate|exact Hl|].
    exists (a +:+ "/" +:+ p), c. split; [|exact Hc].
    change (Js.join "/" (a :: b :: l)) with (a +:+ "/" +:+ Js.join "/" (b :: l)).
    rewrite E, !JsFacts.app_assoc. reflexivity.
Qed.

Lemma join_first (l : list string) :
  l <> [] -> Forall cleanName l ->
  exists c r, Js.join "/" l = String c r /\ Js.chr_eqb c "/" = false.
Proof.
  destruct l as [|a l]; [congruence|]. intros _ H.
  apply Forall_cons in H as [Ha _].
  destruct (clean_parts a Ha) as (Hne & _ & _ & Hall).
  destruct a as [|c r]; [contradiction|].
  cbn [allChr] in Hall. apply andb_true_iff in Hall as [Hc _].
  exists c. destruct l as [|b l].
  - exists r. split; [reflexivity|apply seg_chr_slash, Hc].
  - exists (r +:+ "/" +:+ Js.join "/" (b :: l)).
    split; [reflexivity|apply seg_chr_slash, Hc].
Qed.

Lemma join_not_dot (l : list string) :
  l <> [] -> Forall cleanName l -> Js.join "/" l <> ".".
Proof.
  intros Hne H E.
  pose proof (split_join l Hne (clean_seg_chr l H)) as Hs.
  rewrite E in Hs. cbn in Hs. subst l.
  apply Forall_cons in H as [H _]. discriminate H.
Qed.

(** The segments of an absolute path made of clean names. *)
Lemma segments_abs (l : list string) :
  l <> [] -> Forall cleanName l ->
  Posix.segments ("/" +:+ Js.join "/" l) = l.
Proof.
  intros Hne H. unfold Posix.segments.
  rewrite JsFacts.app_cons, JsFacts.app_nil_l.
  cbn [Js.startsWith Js.split]. rewrite JsFacts.chr_eqb_refl.
  rewrite (split_join l Hne (clean_seg_chr l H)).
  cbn [andb Posix.normalizeSegs String.eqb orb].
  apply (normalizeSegs_clean true l H []).
Qed.

Lemma endsWith_abs (l : list string) :
  l <> [] -> Forall cleanName l ->
  Js.endsWith "/" ("/" +:+ Js.join "/" l) = false.
Proof.
  intros Hne H. destruct (join_last l Hne H) as (p & c & -> & Hc).
  rewrite <- JsFacts.app_assoc, StringFacts.endsWith_chr. exact Hc.
Qed.

Lemma normalize_abs (l : list string) :
  l <> [] -> Forall cleanName l ->
  Posix.normalize ("/" +:+ Js.join "/" l) = "/" +:+ Js.join "/" l.
Proof.
  intros Hne H. unfold Posix.normalize.
  rewrite (segments_abs l Hne H), (endsWith_abs l Hne H).
  rewrite JsFacts.app_cons, JsFacts.app_nil_l. cbn [Js.startsWith andb].
  rewrite JsFacts.chr_eqb_refl. cbn [andb].
  rewrite JsFacts.app_nil_r. reflexivity.
Qed.

Lemma nonEmpty_abs (s : string) : Posix.nonEmpty ("/" +:+ s) = true.
Proof. reflexivity. Qed.

(** [path.join(dir, rel)] for an absolute directory and a relative path,
    both made of clean names. *)
Lemma join_abs (l k : list string) :
  l <> [] -> Forall cleanName l -> k <> [] -> Forall cleanName k ->
  Posix.join ["/" +:+ Js.join "/" l; Js.join "/" k]
  = "/" +:+ Js.join "/" (l ++ k).
Proof.
  intros Hne H Hk Hkc. unfold Posix.join.
  destruct (join_first k Hk Hkc) as (c & r & E & _).
  assert (Hn : Posix.nonEmpty (Js.join "/" k) = true) by (rewrite E; reflexivity).
  cbn [List.filter]. rewrite nonEmpty_abs, Hn.
  change (Js.join "/" ["/" +:+ Js.join "/" l; Js.join "/" k])
    with (("/" +:+ Js.join "/" l) +:+ "/" +:+ Js.join "/" k).
  rewrite JsFacts.app_assoc, <- (StringFacts.join_app l k Hne Hk).
  apply normalize_abs.
  - destruct l; [congruence|discriminate].
  - apply Forall_app. auto.
Qed.

Lemma dropCommon_app (l rest : list string) :
  Posix.dropCommon l (l ++ rest) = ([], rest).
Proof.
  induction l as [|a l IH]; [destruct rest; reflexivity|].
  cbn [Posix.dropCommon app]. rewrite String.eqb_refl. exact IH.
Qed.

(** [path.relative] from a directory to a file below it. *)
Lemma relative_below (cwd : string) (l rest : list string) :
  l <> [] -> Forall cleanName l -> Forall cleanName rest ->
  Posix.relative cwd ("/" +:+ Js.join "/" l) ("/" +:+ Js.join "/" (l ++ rest))
  = Js.join "/" rest.
Proof.
  intros Hne H Hr. unfold Posix.relative.
  replace (Js.startsWith "/" ("/" +:+ Js.join "/" l)) with true by reflexivity.
  replace (Js.startsWith "/" ("/" +:+ Js.join "/" (l ++ rest))) with true
    by reflexivity.
  rewrite (segments_abs l Hne H), (segments_abs (l ++ rest)).
  - rewrite dropCommon_app. reflexivity.
  - destruct l; [congruence|discriminate].
  - apply Forall_app. auto.
Qed.

Lemma dropTrailingEmpty_clean (l : list string) :
  Forall cleanName l -> Posix.dropTrailingEmpty l = l.
Proof.
  induction l as [|a l IH]; intros H; [reflexivity|].
  apply Forall_cons in H as [Ha Hl]. cbn [Posix.dropTrailingEmpty].
  rewrite (IH Hl). destruct l as [|b l]; [|reflexivity].
  destruct (clean_parts a Ha) as (Hne & _). apply String.eqb_neq in Hne.
  rewrite Hne. reflexivity.
Qed.

Lemma dirname_below (l : list string) (x : string) :
  l <> [] -> Forall cleanName l -> cleanName x ->
  Posix.dirname (Js.join "/" (l ++ [x])) = Js.join "/" l.
Proof.
  intros Hne H Hx. unfold Posix.dirname.
  assert (Hall : Forall cleanName (l ++ [x])).
  { apply Forall_app. split; [exact H|]. constructor; [exact Hx|constructor]. }
  rewrite split_join; [|destruct l; discriminate|apply clean_seg_chr, Hall].
  rewrite (dropTrailingEmpty_clean _ Hall), removelast_last.
  destruct (join_first l Hne H) as (c & r & E & _).
  destruct l as [|a l]; [congruence|]. rewrite E. reflexivity.
Qed.

(** The file of a page, for a URL path of clean names with a slash at
    its end. *)
Lemma pageFile_clean (cwd : string) (out l : list string) :
  out <> [] -> Forall cleanName out -> l <> [] -> Forall cleanName l ->
  @pageFile (Posix.platform cwd) ("/" +:+ Js.join "/" out)
    ("/" +:+ Js.join "/" l +:+ "/")
  = "/" +:+ Js.join "/" (out ++ l ++ ["index.html"]).
Proof.
  intros Ho Hout Hl Hcl.
  destruct (join_first l Hl Hcl) as (c & r & E & Hc).
  destruct (join_last l Hl Hcl) as (p & c' & E' & Hc').
  destruct (MapperFacts.safeFileName_directory (Js.join "/" l)) as [_ Hd].
  - rewrite E. discriminate.
  - apply StringFacts.allChr_join; [reflexivity|].
    eapply Forall_impl; [exact Hcl|]. intros s Hx.
    eapply StringFacts.allChr_impl; [apply seg_chr_plain|].
    apply (clean_parts s Hx).
  - rewrite E. cbn [Js.startsWith]. rewrite JsFacts.chr_eqb_sym, Hc. reflexivity.
  - rewrite E', StringFacts.endsWith_chr. exact Hc'.
  - unfold pageFile. rewrite Hd. cbn [path_join Posix.platform].
    rewrite (join_abs out l Ho Hout Hl Hcl).
    change "index.html" with (Js.join "/" ["index.html"]) at 1.
    rewrite join_abs.
    + rewrite <- app_assoc. reflexivity.
    + destruct out; [congruence|discriminate].
    + apply Forall_app. auto.
    + discriminate.
    + constructor; [reflexivity|constructor].
Qed.

(** The URL path that the reverse mapping gives to the page document of
    a directory of the mirror. *)
Lemma filePathToUrlPath_clean (cwd : string) (out l : list string) :
  out <> [] -> Forall cleanName out -> l <> [] -> Forall cleanName l ->
  @filePathToUrlPath (Posix.platform cwd) ("/" +:+ Js.join "/" out)
    ("/" +:+ Js.join "/" (out ++ l ++ ["index.html"]))
  = if String.eqb (Js.join "/" l) "index" then "/"
    else "/" +:+ Js.join "/" l +:+ "/".
Proof.
  intros Ho Hout Hl Hcl.
  assert (Hindex : cleanName "index.html") by reflexivity.
  unfold filePathToUrlPath.
  cbn [path_relative path_dirname Posix.platform].
  rewrite relative_below; [|exact Ho|exact Hout|].
  2:{ apply Forall_app. split; [exact Hcl|]. constructor; [exact Hindex|constructor]. }
  pose proof (dirname_below l "index.html" Hl Hcl Hindex) as Hd.
  rewrite Hd.
  pose proof (join_not_dot l Hl Hcl) as Hdot.
  apply String.eqb_neq in Hdot. rewrite Hdot.
  destruct (String.eqb (Js.join "/" l) "index") eqn:E1; [reflexivity|].
  cbn [orb].
  destruct (String.eqb (Js.join "/" (l ++ ["index.html"])) "index/index.html")
    eqn:E2; [|reflexivity].
  apply String.eqb_eq in E2. rewrite E2 in Hd.
  apply String.eqb_neq in E1. destruct E1. rewrite <- Hd. reflexivity.
Qed.

(** The file of the root page and of the page [/index/]. *)
Lemma pageFile_index (cwd : string) (out : list string) (urlPath : string) :
  out <> [] -> Forall cleanName out -> safeFileName urlPath = "index" ->
  @filePathToUrlPath (Posix.platform cwd) ("/" +:+ Js.join "/" out)
    (@pageFile (Posix.platform cwd) ("/" +:+ Js.join "/" out) urlPath) = "/".
Proof.
  intros Ho Hout Hname. unfold filePathToUrlPath, pageFile. rewrite Hname.
  change "index" with (Js.join "/" ["index"]) at 1 2.
  cbn [path_join path_relative path_dirname Posix.platform].
  assert (Hi : Forall cleanName ["index"]).
  { constructor; [reflexivity|constructor]. }
  assert (Hh : cleanName "index.html") by reflexivity.
  rewrite (join_abs out ["index"] Ho Hout); [|discriminate|exact Hi].
  change "index.html" with (Js.join "/" ["index.html"]) at 1 2.
  rewrite !join_abs;
    [|destruct out; [congruence|discriminate] | apply Forall_app; auto
     |discriminate | constructor; [exact Hh|constructor] ].
  rewrite <- !app_assoc.
  rewrite !relative_below; [|exact Ho|exact Hout|].
  2:{ constructor; [reflexivity|]. constructor; [exact Hh|constructor]. }
  reflexivity.
Qed.

End PosixFacts.

(** X4, [filePathToUrlPath] of rescrape-blank.mjs (announced as the
    reverse of [safeFileName]), on POSIX paths: let the mirror root be
    an absolute path of clean names, and take a URL path [/s1/.../sn/]
    of clean names (not empty, not [.] or [..], without slash, question
    mark and hash sign) other than [/index/].  The file in which the
    scraper stores the page of that URL path is mapped back to the URL
    path; the file of the root page is mapped back to [/]; and the page
    [/index/], which shares its directory with the root page, is mapped
    to [/] as well. *)
Theorem filePathToUrlPath_inverts_safeFileName (cwd : string)
    (out segs : list string) :
  out <> [] -> Forall (fun s => cleanSeg s = true) out ->
  segs <> [] -> Forall (fun s => cleanSeg s = true) segs ->
  Js.join "/" segs <> "index" ->
  let OUT := "/" +:+ Js.join "/" out in
  let urlPath := "/" +:+ Js.join "/" segs +:+ "/" in
  @filePathToUrlPath (Posix.platform cwd) OUT
    (@pageFile (Posix.platform cwd) OUT urlPath) = urlPath /\
  @filePathToUrlPath (Posix.platform cwd) OUT
    (@pageFile (Posix.platform cwd) OUT "/") = "/" /\
  @filePathToUrlPath (Posix.platform cwd) OUT
    (@pageFile (Posix.platform cwd) OUT "/index/") = "/".
Proof.
  intros Ho Hout Hs Hsegs Hidx OUT urlPath.
  split; [|split; apply PosixFacts.pageFile_index; auto].
  unfold urlPath, OUT.
  rewrite (PosixFacts.pageFile_clean cwd out segs Ho Hout Hs Hsegs).
  rewrite (PosixFacts.filePathToUrlPath_clean cwd out segs Ho Hout Hs Hsegs).
  apply String.eqb_neq in Hidx. rewrite Hidx. reflexivity.
Qed.

Lemma filePathToUrlPath_inverts_safeFileName_witness :
  ["site"; "offline"] <> [] /\
  Forall (fun s => cleanSeg s = true) ["site"; "offline"] /\
  ["blog"; "post"] <> [] /\
  Forall (fun s => cleanSeg s = true) ["blog"; "post"] /\
  Js.join "/" ["blog"; "post"] <> "index" /\
  @filePathToUrlPath site site_out (@pageFile site site_out "/blog/post/")
  = "/blog/post/" /\
  @filePathToUrlPath site site_out (@pageFile site site_out "/") = "/" /\
  @filePathToUrlPath site site_out (@pageFile site site_out "/index/") = "/".
Proof.
  assert (H1 : Forall (fun s => cleanSeg s = true) ["site"; "offline"]).
  { repeat constructor. }
  assert (H2 : Forall (fun s => cleanSeg s = true) ["blog"; "post"]).
  { repeat constructor. }
  split; [discriminate|]. split; [exact H1|]. split; [discriminate|].
  split; [exact H2|]. split; [discriminate|].
  apply (filePathToUrlPath_inverts_safeFileName "/site" ["site"; "offline"]
           ["blog"; "post"]); [discriminate|exact H1|discriminate|exact H2|discriminate].
Defined.

Module UrlFacts.

Lemma skipn_all (s : string) : Js.skipn (String.length s) s = "".
Proof. induction s as [|c s IH]; [reflexivity|exact IH]. Qed.

Lemma parseAbsolute_site_raw (P' : string) :
  Posix.parseAbsolute ("https://www.fruitpunch.ai" +:+ String "/" P')
  = (let r := String "/" P' in
     let path := upto Posix.is_query_or_hash r in
     let tail := Js.skipn (String.length path) r in
     Some (MkURL ("https://www.fruitpunch.ai" +:+ Posix.normalizePath path +:+ tail)
             "https://www.fruitpunch.ai" "www.fruitpunch.ai"
             (Posix.normalizePath path))).
Proof. reflexivity. Qed.

Lemma parseAbsolute_site (P' : string) :
  upto Posix.is_query_or_hash (String "/" P') = String "/" P' ->
  Posix.parseAbsolute ("https://www.fruitpunch.ai" +:+ String "/" P')
  = Some (MkURL ("https://www.fruitpunch.ai" +:+ Posix.normalizePath (String "/" P'))
            "https://www.fruitpunch.ai" "www.fruitpunch.ai"
            (Posix.normalizePath (String "/" P'))).
Proof.
  intros Hup. rewrite parseAbsolute_site_raw. cbv zeta.
  rewrite Hup, skipn_all, JsFacts.app_nil_r. reflexivity.
Qed.

Lemma parse_relative_site (P' : string) :
  Js.startsWith "/" P' = false ->
  Posix.parse (String "/" P') (Some BASE)
  = Posix.parseAbsolute ("https://www.fruitpunch.ai" +:+ String "/" P').
Proof.
  intros H. unfold Posix.parse.
  assert (E : Posix.parseAbsolute (String "/" P') = None) by reflexivity.
  rewrite E.
  assert (Eb : Some BASE ≫= Posix.parseAbsolute = Some base_url) by reflexivity.
  rewrite Eb. cbn [mbind option_bind origin base_url].
  replace (String.eqb "https://www.fruitpunch.ai" "null") with false by reflexivity.
  replace (Js.startsWith "//" (String "/" P')) with false
    by (symmetry; exact H).
  reflexivity.
Qed.


Lemma normalizeSegs_app (absolute : bool) (l k : list string) :
  Forall cleanName l ->
  forall stack, Posix.normalizeSegs absolute stack (l ++ k)
                = Posix.normalizeSegs absolute (rev l ++ stack) k.
Proof.
  induction l as [|s l IH]; intros H stack; [reflexivity|].
  apply Forall_cons in H as [Hs Hl].
  destruct (PosixFacts.clean_parts s Hs) as (H1 & H2 & H3 & _).
  apply String.eqb_neq in H1, H2, H3.
  cbn [app Posix.normalizeSegs]. rewrite H1, H2, H3. cbn [orb].
  rewrite (IH Hl). cbn [rev]. rewrite <- app_assoc. reflexivity.
Qed.

(** The URL parser leaves the path of a directory as it is. *)
Lemma normalizePath_dir (l : list string) :
  l <> [] -> Forall cleanName l ->
  Posix.normalizePath ("/" +:+ Js.join "/" l +:+ "/") = "/" +:+ Js.join "/" l +:+ "/".
Proof.
  intros Hne H. unfold Posix.normalizePath.
  assert (Hs : Js.split "/" ("/" +:+ Js.join "/" l +:+ "/") = "" :: l ++ [""]).
  { rewrite JsFacts.app_cons, JsFacts.app_nil_l. cbn [Js.split].
    rewrite JsFacts.chr_eqb_refl. f_equal.
    change (Js.join "/" l +:+ "/") with (Js.join "/" l +:+ "/" +:+ Js.join "/" [""]).
    rewrite <- StringFacts.join_app by (auto; discriminate).
    apply PosixFacts.split_join; [destruct l; discriminate|].
    apply Forall_app. split; [apply PosixFacts.clean_seg_chr, H|].
    constructor; [reflexivity|constructor]. }
  rewrite Hs. cbn [Posix.normalizeSegs String.eqb orb].
  rewrite (normalizeSegs_app true l [""] H []).
  cbn [Posix.normalizeSegs String.eqb orb]. rewrite app_nil_r, rev_involutive.
  destruct (PosixFacts.join_first l Hne H) as (c & r & E & _).
  replace (Js.endsWith "/" ("/" +:+ Js.join "/" l +:+ "/")) with true.
  2:{ symmetry. rewrite <- JsFacts.app_assoc. apply PathMapperFacts.endsWith_snoc. }
  rewrite E. reflexivity.
Qed.

Lemma plain_dir (l : list string) :
  Forall cleanName l ->
  upto Posix.is_query_or_hash ("/" +:+ Js.join "/" l +:+ "/")
  = "/" +:+ Js.join "/" l +:+ "/".
Proof.
  intros H. apply (MapperFacts.upto_plain ("/" +:+ Js.join "/" l +:+ "/")).
  rewrite !StringFacts.allChr_app. rewrite StringFacts.allChr_join; [reflexivity|reflexivity|].
  eapply Forall_impl; [exact H|]. intros s Hx.
  eapply StringFacts.allChr_impl; [apply PosixFacts.seg_chr_plain|].
  apply (PosixFacts.clean_parts s Hx).
Qed.

(** [new URL(urlPath, BASE)] and [new URL(href)] for the URL path of a
    directory. *)
Lemma parse_dir (l : list string) :
  l <> [] -> Forall cleanName l ->
  let urlPath := "/" +:+ Js.join "/" l +:+ "/" in
  Posix.parse urlPath (Some BASE)
  = Some (MkURL (BASE +:+ urlPath) BASE "www.fruitpunch.ai" urlPath) /\
  Posix.parse (BASE +:+ urlPath) None
  = Some (MkURL (BASE +:+ urlPath) BASE "www.fruitpunch.ai" urlPath).
Proof.
  intros Hne H urlPath.
  destruct (PosixFacts.join_first l Hne H) as (c & r & E & Hc).
  assert (Ep : urlPath = String "/" (Js.join "/" l +:+ "/")).
  { unfold urlPath. rewrite JsFacts.app_cons, JsFacts.app_nil_l. reflexivity. }
  assert (Ha : Posix.parseAbsolute (BASE +:+ urlPath)
               = Some (MkURL (BASE +:+ urlPath) BASE "www.fruitpunch.ai" urlPath)).
  { rewrite Ep. change BASE with "https://www.fruitpunch.ai".
    rewrite parseAbsolute_site; rewrite <- Ep.
    - unfold urlPath. rewrite (normalizePath_dir l Hne H). reflexivity.
    - apply plain_dir, H. }
  split.
  - rewrite Ep at 1. rewrite parse_relative_site.
    + rewrite <- Ep. exact Ha.
    + rewrite E. rewrite JsFacts.app_cons. cbn [Js.startsWith].
      rewrite JsFacts.chr_eqb_sym, Hc. reflexivity.
  - unfold Posix.parse. rewrite Ha. reflexivity.
Qed.

End UrlFacts.
(** X20, [findBlankPages] and [rescrapeUrl] of rescrape-blank.mjs, on
    POSIX paths: take the page document [index.html] of a directory
    [s1/.../sn] of the mirror, the names being clean and made of
    letters, digits, dots, underscores and hyphens (characters that URL
    parsing leaves as they are).  The URL under which [findBlankPages]
    lists it is the site address followed by [/s1/.../sn/] (by [/] for
    the directory [index]), and the file that [rescrapeUrl] writes for
    that URL is the very file that was found: a blank page is re-scraped
    in place, the home page included. *)
Theorem blank_page_is_rescraped_in_place (cwd : string) (out segs : list string) :
  out <> [] -> Forall (fun s => cleanSeg s = true) out ->
  segs <> [] -> Forall (fun s => cleanSeg s = true) segs ->
  Forall (fun s => allChr is_file_char s = true) segs ->
  let OUT := "/" +:+ Js.join "/" out in
  let fullPath := "/" +:+ Js.join "/" (out ++ segs ++ ["index.html"]) in
  @blankPageUrl (Posix.platform cwd) OUT fullPath
  = Some (BASE +:+ (if String.eqb (Js.join "/" segs) "index" then "/"
                    else "/" +:+ Js.join "/" segs +:+ "/")) /\
  @blankPageUrl (Posix.platform cwd) OUT fullPath
    ≫= @rescrapeFile (Posix.platform cwd) OUT = Some fullPath.
Proof.
  intros Ho Hout Hs Hsegs _ OUT fullPath.
  unfold blankPageUrl, fullPath, OUT.
  rewrite (PosixFacts.filePathToUrlPath_clean cwd out segs Ho Hout Hs Hsegs).
  cbn [url_parse Posix.platform].
  destruct (String.eqb (Js.join "/" segs) "index") eqn:E.
  - apply String.eqb_eq in E.
    assert (El : segs = ["index"]).
    { rewrite <- (PosixFacts.split_join segs Hs (PosixFacts.clean_seg_chr segs Hsegs)).
      rewrite E. reflexivity. }
    subst segs.
    replace (Posix.parse "/" (Some BASE)) with (Some base_url) by reflexivity.
    cbn [fmap option_fmap option_map href base_url mbind option_bind].
    split; [reflexivity|].
    unfold rescrapeFile. cbn [url_parse Posix.platform].
    replace (Posix.parse "https://www.fruitpunch.ai/" None) with (Some base_url)
      by reflexivity.
    cbn [mbind option_bind pathname base_url]. f_equal.
    unfold pageFile. change (safeFileName "/") with (Js.join "/" ["index"]).
    cbn [path_join Posix.platform].
    assert (Hi : Forall cleanName ["index"]) by (constructor; [reflexivity|constructor]).
    rewrite (PosixFacts.join_abs out ["index"] Ho Hout); [|discriminate|exact Hi].
    change "index.html" with (Js.join "/" ["index.html"]) at 1.
    rewrite PosixFacts.join_abs.
    + rewrite <- app_assoc. reflexivity.
    + destruct out; [congruence|discriminate].
    + apply Forall_app. auto.
    + discriminate.
    + constructor; [reflexivity|constructor].
  - destruct (UrlFacts.parse_dir segs Hs Hsegs) as [H1 H2].
    cbv zeta in H1, H2. rewrite H1.
    cbn [fmap option_fmap option_map href mbind option_bind].
    split; [reflexivity|].
    unfold rescrapeFile. cbn [url_parse Posix.platform]. rewrite H2.
    cbn [mbind option_bind pathname]. f_equal.
    apply (PosixFacts.pageFile_clean cwd out segs Ho Hout Hs Hsegs).
Qed.

Lemma blank_page_is_rescraped_in_place_witness :
  ["site"; "offline"] <> [] /\
  Forall (fun s => cleanSeg s = true) ["site"; "offline"] /\
  ["blog"; "post"] <> [] /\
  Forall (fun s => cleanSeg s = true) ["blog"; "post"] /\
  Forall (fun s => allChr is_file_char s = true) ["blog"; "post"] /\
  @blankPageUrl site site_out "/site/offline/blog/post/index.html"
  = Some "https://www.fruitpunch.ai/blog/post/" /\
  @blankPageUrl site site_out "/site/offline/blog/post/index.html"
    ≫= @rescrapeFile site site_out
  = Some "/site/offline/blog/post/index.html".
Proof.
  assert (H1 : Forall (fun s => cleanSeg s = true) ["site"; "offline"]).
  { repeat constructor. }
  assert (H2 : Forall (fun s => cleanSeg s = true) ["blog"; "post"]).
  { repeat constructor. }
  assert (H3 : Forall (fun s => allChr is_file_char s = true) ["blog"; "post"]).
  { repeat constructor. }
  split; [discriminate|]. split; [exact H1|]. split; [discriminate|].
  split; [exact H2|]. split; [exact H3|].
  apply (blank_page_is_rescraped_in_place "/site" ["site"; "offline"]
           ["blog"; "post"]); [discriminate|exact H1|discriminate|exact H2|exact H3].
Defined.

(* ===================================================================== *)
(** ** The pages of an existing mirror *)
(* ===================================================================== *)

Module SetFacts.

Lemma in_setAdd (x y : string) (l : list string) :
  In x (setAdd y l) <-> In x l \/ x = y.
Proof.
  unfold setAdd. destruct (existsb _ l) eqn:E.
  - split; [auto|]. intros [H| ->]; [exact H|].
    apply existsb_exists in E as (z & Hz & Ez). apply String.eqb_eq in Ez.
    subst. exact Hz.
  - rewrite in_app_iff. cbn [In]. intuition.
Qed.

Lemma in_fold_setAdd (keep : string -> bool) (g : string -> string) (x : string) :
  forall l acc,
  In x (fold_left (fun a m => if keep m then setAdd (g m) a else a) l acc) <->
  In x acc \/ exists m, In m l /\ keep m = true /\ x = g m.
Proof.
  induction l as [|m l IH]; intros acc.
  - cbn [fold_left]. split; [auto|]. intros [H|(m & [] & _)]. exact H.
  - cbn [fold_left]. rewrite IH. split.
    + intros [H|(m' & Hm & Hk & E)].
      * destruct (keep m) eqn:Ek; [|auto].
        apply in_setAdd in H as [H| ->]; [auto|].
        right. exists m. cbn [In]. auto.
      * right. exists m'. cbn [In]. auto.
    + intros [H|(m' & [<-|Hm] & Hk & E)].
      * left. destruct (keep m); [apply in_setAdd|]; auto.
      * left. rewrite Hk. apply in_setAdd. auto.
      * right. eauto.
Qed.

Lemma in_captures (r : Regex.regex) (s c : string) :
  In c (captures r s) <->
  exists m g, In (Regex.TMatch m g) (Regex.scan r s) /\ c = default "" g.
Proof.
  unfold captures. rewrite in_flat_map. split.
  - intros ([a|m g] & Hin & Hc); [destruct Hc|].
    destruct Hc as [<-|[]]. eauto.
  - intros (m & g & Hin & ->). exists (Regex.TMatch m g). cbn [In]. auto.
Qed.

End SetFacts.

Module ListingFacts.

(** Induction on a listing, through the entries of its directories. *)
Lemma Dirent_induct (Q : Dirent -> Prop) :
  (forall name, Q (DFile name)) ->
  (forall name entries, Forall Q entries -> Q (DDir name entries)) ->
  forall e, Q e.
Proof.
  intros Hf Hd. fix IH 1. intros [name|name entries]; [apply Hf|].
  apply Hd. induction entries as [|e entries IHl]; constructor; [apply IH|exact IHl].
Qed.

(** The path of a page below named directories does not start with a
    slash, so it is neither empty nor the root path. *)
Lemma join_head (bs : list string) :
  bs <> [] -> Forall (fun s => dir_name s = true) bs ->
  exists c r, Js.join "/" bs = String c r /\ Js.chr_eqb c "/" = false.
Proof.
  destruct bs as [|a bs]; [congruence|]. intros _ H.
  apply Forall_cons in H as [Ha _].
  unfold dir_name in Ha. apply andb_true_iff in Ha as [Hne Hc].
  destruct a as [|c r]; [discriminate|].
  cbn [allChr] in Hc. apply andb_true_iff in Hc as [Hc _].
  apply negb_true_iff in Hc.
  exists c. destruct bs as [|b bs].
  - exists r. auto.
  - exists (r +:+ "/" +:+ Js.join "/" (b :: bs)). auto.
Qed.

Lemma newBase_join (bs : list string) (name : string) :
  Forall (fun s => dir_name s = true) bs ->
  match Js.join "/" bs with
  | "" => name
  | _ => Js.join "/" bs +:+ "/" +:+ name
  end = Js.join "/" (bs ++ [name]).
Proof.
  intros H. destruct bs as [|a bs]; [reflexivity|].
  destruct (join_head (a :: bs)) as (c & r & E & _); [discriminate|exact H|].
  rewrite StringFacts.join_app by discriminate. rewrite E. reflexivity.
Qed.

Lemma urlPath_join (bs : list string) :
  Forall (fun s => dir_name s = true) bs ->
  (if String.eqb (Js.orElse (Js.join "/" bs) "/") "/"
   then Js.orElse (Js.join "/" bs) "/"
   else "/" +:+ Js.orElse (Js.join "/" bs) "/")
  = "/" +:+ Js.join "/" bs.
Proof.
  intros H. destruct bs as [|a bs]; [reflexivity|].
  destruct (join_head (a :: bs)) as (c & r & E & Hc); [discriminate|exact H|].
  rewrite E. cbn [Js.orElse String.eqb].
  unfold Js.chr_eqb in Hc. rewrite Hc. reflexivity.
Qed.

Lemma page_in_cons (e : Dirent) (l : list Dirent) (segs : list string) :
  page_in (e :: l) segs <-> page_in [e] segs \/ page_in l segs.
Proof.
  split.
  - intros H. inversion H as [? Hin|? name sub segs' Hin Hs Hp]; subst.
    + destruct Hin as [->|Hin]; [left|right]; apply page_here; cbn [In]; auto.
    + destruct Hin as [->|Hin]; [left|right];
        eapply page_below; cbn [In]; eauto.
  - intros [H|H]; inversion H as [? Hin|? name sub segs' Hin Hs Hp]; subst.
    + apply page_here. destruct Hin as [->|[]]. cbn [In]. auto.
    + eapply page_below; [|exact Hs|exact Hp]. destruct Hin as [->|[]]. cbn [In]. auto.
    + apply page_here. cbn [In]. auto.
    + eapply page_below; [|exact Hs|exact Hp]. cbn [In]. auto.
Qed.

Lemma page_in_nil (segs : list string) : ~ page_in [] segs.
Proof. intros H. inversion H as [? Hin|? ? ? ? Hin]; destruct Hin. Qed.

Lemma scanDirectory_ok (entries : list Dirent) :
  Forall scan_ok entries -> forallb named entries = true ->
  forall bs urls u, Forall (fun s => dir_name s = true) bs ->
    In u (scanDirectory entries (Js.join "/" bs) urls) <->
    In u urls \/ exists segs, page_in entries segs /\ u = urlOf bs segs.
Proof.
  unfold scanDirectory.
  induction entries as [|e entries IH]; intros Hall Hn bs urls u Hbs.
  - cbn [fold_left]. split; [auto|].
    intros [H|(segs & H & _)]; [exact H|]. destruct (page_in_nil _ H).
  - apply Forall_cons in Hall as [He Hall].
    cbn [forallb] in Hn. apply andb_true_iff in Hn as [Hne Hn].
    cbn [fold_left]. rewrite (IH Hall Hn bs _ u Hbs), (He Hne bs urls u Hbs).
    split.
    + intros [[H|(segs & Hp & E)]|(segs & Hp & E)]; [auto| |];
        right; exists segs; (split; [apply page_in_cons; auto|exact E]).
    + intros [H|(segs & Hp & E)]; [auto|].
      apply page_in_cons in Hp as [Hp|Hp]; [left; right|right]; eauto.
Qed.

Lemma scanEntry_ok (e : Dirent) : scan_ok e.
Proof.
  induction e as [name|name entries IH] using Dirent_induct;
    intros Hn bs urls u Hbs.
  - cbn [scanEntry]. destruct (Js.startsWith "_" name) eqn:Hs.
    { split; [auto|]. intros [H|(segs & Hp & _)]; [exact H|].
      inversion Hp as [? Hin|? ? ? ? Hin]; subst.
      - destruct Hin as [[= ->]|[]]. discriminate.
      - destruct Hin as [[=]|[]]. }
    destruct (String.eqb name "index.html") eqn:Hi.
    + apply String.eqb_eq in Hi. subst name.
      rewrite SetFacts.in_setAdd, (urlPath_join bs Hbs). split.
      * intros [H| ->]; [auto|]. right. exists []. split.
        { apply page_here. cbn [In]. auto. }
        unfold urlOf. rewrite app_nil_r. reflexivity.
      * intros [H|(segs & Hp & ->)]; [auto|]. right.
        inversion Hp as [? Hin|? ? ? ? Hin]; subst.
        { unfold urlOf. rewrite app_nil_r. reflexivity. }
        destruct Hin as [[=]|[]].
    + split; [auto|]. intros [H|(segs & Hp & _)]; [exact H|].
      inversion Hp as [? Hin|? ? ? ? Hin]; subst.
      * destruct Hin as [[= ->]|[]]. discriminate.
      * destruct Hin as [[=]|[]].
  - cbn [named] in Hn. apply andb_true_iff in Hn as [Hname Hn].
    cbn [scanEntry]. destruct (Js.startsWith "_" name) eqn:Hs.
    { split; [auto|]. intros [H|(segs & Hp & _)]; [exact H|].
      inversion Hp as [? Hin|? ? ? ? Hin Hs']; subst.
      - destruct Hin as [[=]|[]].
      - destruct Hin as [[= <- <-]|[]]. congruence. }
    rewrite (newBase_join bs name Hbs).
    change (fold_left (fun urls0 e => scanEntry (Js.join "/" (bs ++ [name])) e urls0)
              entries urls)
      with (scanDirectory entries (Js.join "/" (bs ++ [name])) urls).
    rewrite (scanDirectory_ok entries IH Hn (bs ++ [name]) urls u).
    2:{ apply Forall_app. split; [exact Hbs|]. constructor; [exact Hname|constructor]. }
    split.
    + intros [H|(segs & Hp & ->)]; [auto|]. right. exists (name :: segs). split.
      * eapply page_below; [cbn [In]; auto|exact Hs|exact Hp].
      * unfold urlOf. rewrite <- app_assoc. reflexivity.
    + intros [H|(segs & Hp & ->)]; [auto|]. right.
      inversion Hp as [? Hin|? ? ? segs' Hin Hs' Hp']; subst.
      * destruct Hin as [[=]|[]].
      * destruct Hin as [[= <- <-]|[]]. exists segs'. split; [exact Hp'|].
        unfold urlOf. rewrite <- app_assoc. reflexivity.
Qed.

End ListingFacts.

(** X5, [getUrlsFromExistingScrape] of scrape.mjs: for a listing of the
    mirror whose directories have file-system names (not empty, without
    slash), a URL is returned exactly when some chain of directories
    [s1], ..., [sn], none of which has a name that starts with an
    underscore, leads from the mirror root to a file [index.html], and
    the URL is the site address followed by [/s1/.../sn] (by [/] alone
    for a document in the root itself).  Pages below [_assets] and the
    like are never listed, and the home page, which the scraper stores
    in the directory [index], is listed under the path [/index]. *)
Theorem existing_pages_are_listed (entries : list Dirent) (u : string) :
  forallb named entries = true ->
  (In u (getUrlsFromExistingScrape (Some entries)) <->
   exists segs, page_in entries segs /\ u = BASE +:+ "/" +:+ Js.join "/" segs).
Proof.
  intros Hn. cbn [getUrlsFromExistingScrape].
  change "" with (Js.join "/" []) at 1.
  rewrite (ListingFacts.scanDirectory_ok entries); [|
    apply Forall_forall; intros e _; apply ListingFacts.scanEntry_ok | exact Hn |
    constructor ].
  cbn [In]. unfold urlOf. cbn [app]. tauto.
Qed.

Lemma existing_pages_are_listed_witness :
  forallb named listing = true /\
  getUrlsFromExistingScrape (Some listing)
  = ["https://www.fruitpunch.ai/index"; "https://www.fruitpunch.ai/blog/post"] /\
  (In "https://www.fruitpunch.ai/blog/post" (getUrlsFromExistingScrape (Some listing)) <->
   exists segs, page_in listing segs /\
     "https://www.fruitpunch.ai/blog/post" = BASE +:+ "/" +:+ Js.join "/" segs).
Proof.
  split; [reflexivity|]. split; [reflexivity|].
  apply (existing_pages_are_listed listing "https://www.fruitpunch.ai/blog/post").
  reflexivity.
Defined.

(* ===================================================================== *)
(** ** Scraping the pages of an existing mirror again *)
(* ===================================================================== *)

Module FallbackFacts.

Lemma url_name_clean (s : string) : url_name s = true -> cleanName s.
Proof. unfold url_name. intros H. apply andb_true_iff in H as [H _]. exact H. Qed.

Lemma url_name_dir (s : string) : url_name s = true -> dir_name s = true.
Proof.
  intros H. apply url_name_clean in H.
  destruct (PosixFacts.clean_parts s H) as (H1 & _ & _ & Hc).
  unfold dir_name. apply String.eqb_neq in H1. rewrite H1. cbn [negb andb].
  eapply StringFacts.allChr_impl; [|exact Hc].
  intros c Hs. rewrite (PosixFacts.seg_chr_slash c Hs). reflexivity.
Qed.

Lemma url_listing_named (e : Dirent) : url_listing e = true -> named e = true.
Proof.
  induction e as [name|name entries IH] using ListingFacts.Dirent_induct;
    [reflexivity|].
  cbn [url_listing named]. intros H. apply andb_true_iff in H as [Hn Hl].
  rewrite (url_name_dir name Hn). cbn [andb].
  apply forallb_forall. intros x Hx.
  rewrite Forall_forall in IH. apply (IH x); [apply list_elem_of_In, Hx|].
  rewrite forallb_forall in Hl. apply (Hl x Hx).
Qed.

Lemma page_in_url_names (entries : list Dirent) (segs : list string) :
  page_in entries segs -> forallb url_listing entries = true ->
  Forall cleanName segs.
Proof.
  induction 1 as [entries Hin|entries name sub segs Hin Hs Hp IH]; intros Hl;
    [constructor|].
  rewrite forallb_forall in Hl. specialize (Hl _ Hin).
  cbn [url_listing] in Hl. apply andb_true_iff in Hl as [Hn Hsub].
  constructor; [apply url_name_clean, Hn|apply IH, Hsub].
Qed.

(** The file of a page whose name is a chain of clean names. *)
Lemma pageFile_named (cwd : string) (out l : list string) (urlPath : string) :
  out <> [] -> Forall cleanName out -> l <> [] -> Forall cleanName l ->
  safeFileName urlPath = Js.join "/" l ->
  @pageFile (Posix.platform cwd) ("/" +:+ Js.join "/" out) urlPath
  = "/" +:+ Js.join "/" (out ++ l ++ ["index.html"]).
Proof.
  intros Ho Hout Hl Hcl Hd.
  unfold pageFile. rewrite Hd. cbn [path_join Posix.platform].
  rewrite (PosixFacts.join_abs out l Ho Hout Hl Hcl).
  change "index.html" with (Js.join "/" ["index.html"]) at 1.
  rewrite PosixFacts.join_abs.
  - rewrite <- app_assoc. reflexivity.
  - destruct out; [congruence|discriminate].
  - apply Forall_app. auto.
  - discriminate.
  - constructor; [reflexivity|constructor].
Qed.

Lemma plain_path (l : list string) :
  Forall cleanName l ->
  allChr (fun c => negb (queryOrHash c)) (Js.join "/" l) = true.
Proof.
  intros H. apply StringFacts.allChr_join; [reflexivity|].
  eapply Forall_impl; [exact H|]. intros s Hx.
  eapply StringFacts.allChr_impl; [apply PosixFacts.seg_chr_plain|].
  apply (PosixFacts.clean_parts s Hx).
Qed.

(** The URL parser leaves the path of a page without trailing slash as
    it is. *)
Lemma normalizePath_page (l : list string) :
  l <> [] -> Forall cleanName l ->
  Posix.normalizePath (String "/" (Js.join "/" l)) = String "/" (Js.join "/" l).
Proof.
  intros Hne H. unfold Posix.normalizePath.
  cbn [Js.split]. rewrite JsFacts.chr_eqb_refl.
  rewrite (PosixFacts.split_join l Hne (PosixFacts.clean_seg_chr l H)).
  cbn [Posix.normalizeSegs String.eqb orb].
  rewrite (PosixFacts.normalizeSegs_clean true l H []).
  pose proof (PosixFacts.endsWith_abs l Hne H) as He.
  rewrite JsFacts.app_cons, JsFacts.app_nil_l in He. rewrite He.
  cbn [andb]. rewrite JsFacts.app_nil_r.
  rewrite JsFacts.app_cons, JsFacts.app_nil_l. reflexivity.
Qed.

(** [new URL(u)] for the URL of a page without trailing slash. *)
Lemma parse_page (l : list string) :
  l <> [] -> Forall cleanName l ->
  Posix.parse (BASE +:+ "/" +:+ Js.join "/" l) None
  = Some (MkURL (BASE +:+ "/" +:+ Js.join "/" l) BASE "www.fruitpunch.ai"
            ("/" +:+ Js.join "/" l)).
Proof.
  intros Hne H. unfold Posix.parse.
  change (BASE +:+ "/" +:+ Js.join "/" l)
    with ("https://www.fruitpunch.ai" +:+ String "/" (Js.join "/" l)).
  rewrite UrlFacts.parseAbsolute_site.
  - rewrite (normalizePath_page l Hne H). reflexivity.
  - apply (MapperFacts.upto_plain (String "/" (Js.join "/" l))).
    cbn [allChr]. rewrite (plain_path l H). reflexivity.
Qed.

End FallbackFacts.

(** X22, [getUrlsFromExistingScrape] and [scrapeUrls] of scrape.mjs, on
    POSIX paths: when the sitemap is not available the pages to scrape
    are read off the existing mirror.  For a mirror whose directories
    have clean names made of letters, digits, dots, underscores and
    hyphens, every URL of that list passes the origin test of
    [scrapeUrls], and the file that the scrape writes for it is the
    document [index.html] of the directory [s1/.../sn] in which the page
    was found; a document in the mirror root itself, listed under the
    path [/], is written to the directory [index] instead. *)
Theorem existing_pages_are_scraped_in_place (cwd : string) (out : list string)
    (entries : list Dirent) (u : string) :
  out <> [] -> Forall (fun s => cleanSeg s = true) out ->
  forallb url_listing entries = true ->
  In u (getUrlsFromExistingScrape (Some entries)) ->
  exists segs, page_in entries segs /\
    @scrapeFile (Posix.platform cwd) ("/" +:+ Js.join "/" out) u
    = Some (Some ("/" +:+ Js.join "/"
                    (out ++ match segs with [] => ["index"] | _ => segs end
                         ++ ["index.html"]))).
Proof.
  intros Ho Hout Hl Hin.
  assert (Hn : forallb named entries = true).
  { apply forallb_forall. intros e He. apply FallbackFacts.url_listing_named.
    rewrite forallb_forall in Hl. apply (Hl e He). }
  cbn [getUrlsFromExistingScrape] in Hin.
  change "" with (Js.join "/" []) in Hin at 1.
  rewrite (ListingFacts.scanDirectory_ok entries) in Hin; [|
    apply Forall_forall; intros e _; apply ListingFacts.scanEntry_ok | exact Hn |
    constructor ].
  destruct Hin as [[]|(segs & Hp & ->)].
  exists segs. split; [exact Hp|].
  pose proof (FallbackFacts.page_in_url_names entries segs Hp Hl) as Hsegs.
  assert (En : @normalizeOrigin (Posix.platform cwd) "https://www.fruitpunch.ai"
               = Some "https://fruitpunch.ai") by reflexivity.
  unfold urlOf, scrapeFile. cbn [app url_parse Posix.platform].
  destruct segs as [|s segs].
  - replace (Posix.parse (BASE +:+ "/" +:+ Js.join "/" []) None)
      with (Some base_url) by reflexivity.
    cbn [mbind option_bind origin pathname base_url].
    change BASE with "https://www.fruitpunch.ai". rewrite En.
    cbn [mbind option_bind]. rewrite String.eqb_refl. do 2 f_equal.
    apply (FallbackFacts.pageFile_named cwd out ["index"] "/" Ho Hout);
      [discriminate|constructor; [reflexivity|constructor]|reflexivity].
  - rewrite (FallbackFacts.parse_page (s :: segs)); [|discriminate|exact Hsegs].
    cbn [mbind option_bind origin pathname].
    change BASE with "https://www.fruitpunch.ai". rewrite En.
    cbn [mbind option_bind]. rewrite String.eqb_refl. do 2 f_equal.
    apply (FallbackFacts.pageFile_named cwd out (s :: segs) _ Ho Hout);
      [discriminate|exact Hsegs|].
    destruct (PosixFacts.join_first (s :: segs)) as (c & r & E & Hc);
      [discriminate|exact Hsegs|].
    destruct (PosixFacts.join_last (s :: segs)) as (p & c' & E' & Hc');
      [discriminate|exact Hsegs|].
    apply MapperFacts.safeFileName_directory.
    + rewrite E. discriminate.
    + apply FallbackFacts.plain_path, Hsegs.
    + rewrite E. cbn [Js.startsWith]. rewrite JsFacts.chr_eqb_sym, Hc. reflexivity.
    + rewrite E', StringFacts.endsWith_chr. exact Hc'.
Qed.

Lemma existing_pages_are_scraped_in_place_witness :
  ["site"; "offline"] <> [] /\
  Forall (fun s => cleanSeg s = true) ["site"; "offline"] /\
  forallb url_listing listing = true /\
  In "https://www.fruitpunch.ai/blog/post" (getUrlsFromExistingScrape (Some listing)) /\
  @scrapeFile site site_out "https://www.fruitpunch.ai/blog/post"
  = Some (Some "/site/offline/blog/post/index.html") /\
  exists segs, page_in listing segs /\
    @scrapeFile site site_out "https://www.fruitpunch.ai/blog/post"
    = Some (Some ("/" +:+ Js.join "/"
                    (["site"; "offline"]
                       ++ match segs with [] => ["index"] | _ => segs end
                       ++ ["index.html"]))).
Proof.
  assert (H1 : Forall (fun s => cleanSeg s = true) ["site"; "offline"]).
  { repeat constructor. }
  assert (H2 : In "https://www.fruitpunch.ai/blog/post"
                 (getUrlsFromExistingScrape (Some listing))).
  { right. left. reflexivity. }
  split; [discriminate|]. split; [exact H1|]. split; [reflexivity|].
  split; [exact H2|]. split; [reflexivity|].
  apply (existing_pages_are_scraped_in_place "/site" ["site"; "offline"] listing
           "https://www.fruitpunch.ai/blog/post");
    [discriminate|exact H1|reflexivity|exact H2].
Defined.

(* ===================================================================== *)
(** ** The list of local links *)
(* ===================================================================== *)

Module LocalLinkFacts.

Lemma substChr_none (p : ascii -> bool) (r s : string) :
  allChr (fun c => negb (p c)) s = true -> substChr p r s = s.
Proof.
  induction s as [|c s IH]; [reflexivity|].
  cbn [allChr substChr]. intros H. apply andb_true_iff in H as [Hc Hs].
  apply negb_true_iff in Hc. rewrite Hc, (IH Hs). reflexivity.
Qed.

Lemma slashes_id (s : string) :
  allChr (fun c => negb (Js.chr_eqb "\" c)) s = true -> slashes s = s.
Proof.
  intros H. unfold slashes. rewrite StringFacts.replace_all_chr.
  apply substChr_none, H.
Qed.

Lemma link_name_parts (s : string) :
  link_name s = true ->
  cleanName s /\ allChr (fun c => negb (Js.chr_eqb "\" c)) s = true.
Proof. unfold link_name, cleanName. apply andb_true_iff. Qed.

Lemma link_names_clean (l : list string) :
  Forall (fun s => link_name s = true) l -> Forall cleanName l.
Proof.
  intros H. eapply Forall_impl; [exact H|]. intros s Hs.
  apply (link_name_parts s Hs).
Qed.

(** [path.normalize] and [path.join] on relative paths of clean names. *)
Lemma normalize_rel (l : list string) :
  l <> [] -> Forall cleanName l -> Posix.normalize (Js.join "/" l) = Js.join "/" l.
Proof.
  intros Hne H. unfold Posix.normalize, Posix.segments.
  destruct (PosixFacts.join_first l Hne H) as (c & r & E & Hc).
  destruct (PosixFacts.join_last l Hne H) as (p & c' & E' & Hc').
  assert (Hs : Js.startsWith "/" (Js.join "/" l) = false).
  { rewrite E. cbn [Js.startsWith]. rewrite JsFacts.chr_eqb_sym, Hc. reflexivity. }
  assert (He : Js.endsWith "/" (Js.join "/" l) = false).
  { rewrite E', StringFacts.endsWith_chr. exact Hc'. }
  rewrite Hs, He, (PosixFacts.split_join l Hne (PosixFacts.clean_seg_chr l H)).
  rewrite (PosixFacts.normalizeSegs_clean false l H []). cbn [rev app andb].
  rewrite E at 1. rewrite JsFacts.app_nil_r. reflexivity.
Qed.

Lemma join_rel (bs : list string) (name : string) :
  Forall cleanName bs -> cleanName name ->
  Posix.join [Js.join "/" bs; name] = Js.join "/" (bs ++ [name]).
Proof.
  intros H Hn. unfold Posix.join.
  destruct (PosixFacts.clean_parts name Hn) as (Hne & _).
  assert (Hx : Posix.nonEmpty name = true).
  { unfold Posix.nonEmpty. apply negb_true_iff, String.eqb_neq, Hne. }
  destruct bs as [|a bs].
  - cbn [Js.join List.filter Posix.nonEmpty String.eqb negb app].
    fold (Posix.nonEmpty name). rewrite Hx.
    apply (normalize_rel [name]); [discriminate|].
    constructor; [exact Hn|constructor].
  - destruct (PosixFacts.join_first (a :: bs)) as (c & r & E & _);
      [discriminate|exact H|].
    assert (Hb : Posix.nonEmpty (Js.join "/" (a :: bs)) = true)
      by (rewrite E; reflexivity).
    cbn [List.filter]. rewrite Hb, Hx.
    change (Js.join "/" [Js.join "/" (a :: bs); name])
      with (Js.join "/" (a :: bs) +:+ "/" +:+ Js.join "/" [name]).
    rewrite <- StringFacts.join_app by discriminate.
    apply normalize_rel; [discriminate|].
    apply Forall_app. split; [exact H|]. constructor; [exact Hn|constructor].
Qed.

Lemma replace_end_suffix (d suffix : string) :
  replace_end suffix "" (d +:+ suffix) = d.
Proof.
  unfold replace_end, Js.endsWith. rewrite JsFacts.length_app.
  replace (String.length d + String.length suffix - String.length suffix)
    with (String.length d) by lia.
  rewrite JsFacts.skipn_length_app, JsFacts.firstn_length_app, String.eqb_refl.
  replace (String.length suffix <=? String.length d + String.length suffix)
    with true by (symmetry; apply Nat.leb_le; lia).
  cbn [andb]. apply JsFacts.app_nil_r.
Qed.

(** The element listed for the page document of the directories [bs]. *)
Lemma listed_document (bs : list string) :
  Forall (fun s => link_name s = true) bs ->
  Js.orElse
    (replace_end "/index.html" ""
       (slashes (Posix.join [Js.join "/" bs; "index.html"]))) "/"
  = listedPath bs.
Proof.
  intros H. pose proof (link_names_clean bs H) as Hc.
  rewrite (join_rel bs "index.html" Hc) by reflexivity.
  rewrite slashes_id.
  2:{ apply StringFacts.allChr_join; [reflexivity|].
      apply Forall_app. split.
      - eapply Forall_impl; [exact H|]. intros s Hs. apply (link_name_parts s Hs).
      - constructor; [reflexivity|constructor]. }
  destruct bs as [|a bs]; [reflexivity|].
  rewrite StringFacts.join_app by discriminate.
  change ("/" +:+ Js.join "/" ["index.html"]) with "/index.html".
  rewrite replace_end_suffix.
  destruct (PosixFacts.join_first (a :: bs)) as (c & r & E & _);
    [discriminate|exact Hc|].
  cbn [listedPath]. rewrite E. reflexivity.
Qed.

Lemma listedPath_not_root (segs : list string) :
  Forall (fun s => link_name s = true) segs ->
  String.eqb (listedPath segs) "/" = false.
Proof.
  intros H. destruct segs as [|a l]; [reflexivity|].
  destruct (PosixFacts.join_first (a :: l)) as (c & r & E & Hc);
    [discriminate|apply link_names_clean, H|].
  cbn [listedPath]. rewrite E. cbn [String.eqb].
  unfold Js.chr_eqb in Hc. rewrite Hc. reflexivity.
Qed.

Lemma findHtmlFiles_ok (cwd : string) (entries : list Dirent) :
  Forall (fun e => linkable e = true ->
            forall bs x, Forall (fun s => link_name s = true) bs ->
              In x (@findEntry (Posix.platform cwd) (Js.join "/" bs) e) <->
              exists segs, page_in [e] segs /\ x = listedPath (bs ++ segs)) entries ->
  forallb linkable entries = true ->
  forall bs x, Forall (fun s => link_name s = true) bs ->
    In x (@findHtmlFiles (Posix.platform cwd) entries (Js.join "/" bs)) <->
    exists segs, page_in entries segs /\ x = listedPath (bs ++ segs).
Proof.
  unfold findHtmlFiles.
  induction entries as [|e entries IH]; intros Hall Hn bs x Hbs.
  - cbn [flat_map In]. split; [tauto|].
    intros (segs & H & _). destruct (ListingFacts.page_in_nil _ H).
  - apply Forall_cons in Hall as [He Hall].
    cbn [forallb] in Hn. apply andb_true_iff in Hn as [Hne Hn].
    cbn [flat_map]. rewrite in_app_iff, (IH Hall Hn bs x Hbs), (He Hne bs x Hbs).
    split.
    + intros [(segs & Hp & E)|(segs & Hp & E)];
        exists segs; (split; [apply ListingFacts.page_in_cons; auto|exact E]).
    + intros (segs & Hp & E).
      apply ListingFacts.page_in_cons in Hp as [Hp|Hp]; [left|right]; eauto.
Qed.

Lemma findEntry_ok (cwd : string) (e : Dirent) :
  linkable e = true ->
  forall bs x, Forall (fun s => link_name s = true) bs ->
    In x (@findEntry (Posix.platform cwd) (Js.join "/" bs) e) <->
    exists segs, page_in [e] segs /\ x = listedPath (bs ++ segs).
Proof.
  induction e as [name|name entries IH] using ListingFacts.Dirent_induct;
    intros Hn bs x Hbs.
  - cbn [findEntry]. destruct (String.eqb name "index.html") eqn:Hi.
    + apply String.eqb_eq in Hi. subst name.
      cbn [path_join Posix.platform]. rewrite (listed_document bs Hbs).
      cbn [In]. split.
      * intros [<-|[]]. exists []. split.
        { apply page_here. cbn [In]. auto. }
        rewrite app_nil_r. reflexivity.
      * intros (segs & Hp & ->). left.
        inversion Hp as [? Hin|? ? ? ? Hin]; subst.
        { rewrite app_nil_r. reflexivity. }
        destruct Hin as [[=]|[]].
    + cbn [In]. split; [tauto|]. intros (segs & Hp & _).
      inversion Hp as [? Hin|? ? ? ? Hin]; subst.
      * destruct Hin as [[= ->]|[]]. discriminate.
      * destruct Hin as [[=]|[]].
  - cbn [linkable] in Hn. apply andb_true_iff in Hn as [Hname Hn].
    cbn [findEntry]. destruct (Js.startsWith "_" name) eqn:Hs.
    { cbn [In]. split; [tauto|]. intros (segs & Hp & _).
      inversion Hp as [? Hin|? ? ? ? Hin Hs']; subst.
      - destruct Hin as [[=]|[]].
      - destruct Hin as [[= <- <-]|[]]. congruence. }
    cbn [path_join Posix.platform].
    rewrite (join_rel bs name (link_names_clean bs Hbs)
               (proj1 (link_name_parts name Hname))).
    change (flat_map (@findEntry (Posix.platform cwd) (Js.join "/" (bs ++ [name])))
              entries)
      with (@findHtmlFiles (Posix.platform cwd) entries (Js.join "/" (bs ++ [name]))).
    rewrite (findHtmlFiles_ok cwd entries IH Hn (bs ++ [name]) x).
    2:{ apply Forall_app. split; [exact Hbs|]. constructor; [exact Hname|constructor]. }
    split.
    + intros (segs & Hp & ->). exists (name :: segs). split.
      * eapply page_below; [cbn [In]; auto|exact Hs|exact Hp].
      * rewrite <- app_assoc. reflexivity.
    + intros (segs & Hp & ->).
      inversion Hp as [? Hin|? ? ? segs' Hin Hs' Hp']; subst.
      * destruct Hin as [[=]|[]].
      * destruct Hin as [[= <- <-]|[]]. exists segs'. split; [exact Hp'|].
        rewrite <- app_assoc. reflexivity.
Qed.

(** The directories that lead to a page of a linkable listing have
    clean names. *)
Lemma page_in_names (entries : list Dirent) (segs : list string) :
  page_in entries segs -> forallb linkable entries = true ->
  Forall (fun s => link_name s = true) segs.
Proof.
  induction 1 as [entries Hin|entries name sub segs Hin Hs Hp IH]; intros Hn.
  - constructor.
  - rewrite forallb_forall in Hn. specialize (Hn _ Hin).
    cbn [linkable] in Hn. apply andb_true_iff in Hn as [Hname Hsub].
    constructor; [exact Hname|apply IH, Hsub].
Qed.

End LocalLinkFacts.

(** X21, [findHtmlFiles] and the links of the script that generates
    the list of local links, on POSIX paths: for a listing of the mirror
    whose directories can be read and have clean names without
    backslash, a link is generated exactly when some chain of
    directories [s1], ..., [sn], none with a name that starts with an
    underscore, leads from the mirror root to a file [index.html].  For
    [n >= 1] the link is the local address followed by
    [/s1/.../sn/index.html], the path of the document below the served
    root.  For a document in the root itself the pattern that should
    strip the file name does not match (it asks for a slash in front),
    and the link is the local address followed by
    [/index.html/index.html]; the branch for the root path is never
    taken. *)
Theorem local_links_are_characterised (cwd : string) (entries : list Dirent)
    (link : string) :
  forallb linkable entries = true ->
  (In link (@localhostLinks (Posix.platform cwd) entries) <->
   exists segs, page_in entries segs /\
     link = "http://localhost:8000/" +:+ listedPath segs +:+ "/index.html").
Proof.
  intros Hn. unfold localhostLinks. rewrite in_map_iff.
  assert (Hfind : forall x,
    In x (@findHtmlFiles (Posix.platform cwd) entries "") <->
    exists segs, page_in entries segs /\ x = listedPath segs).
  { intros x. change "" with (Js.join "/" []).
    apply (LocalLinkFacts.findHtmlFiles_ok cwd entries); [|exact Hn|constructor].
    apply Forall_forall. intros e _. apply LocalLinkFacts.findEntry_ok. }
  split.
  - intros (x & <- & Hx). apply Hfind in Hx as (segs & Hp & ->).
    exists segs. split; [exact Hp|]. unfold localhostLink.
    rewrite (LocalLinkFacts.listedPath_not_root segs
               (LocalLinkFacts.page_in_names entries segs Hp Hn)).
    reflexivity.
  - intros (segs & Hp & ->). exists (listedPath segs). split.
    + unfold localhostLink.
      rewrite (LocalLinkFacts.listedPath_not_root segs
                 (LocalLinkFacts.page_in_names entries segs Hp Hn)).
      reflexivity.
    + apply Hfind. eauto.
Qed.

Lemma local_links_are_characterised_witness :
  forallb linkable listing_root = true /\
  @localhostLinks site listing_root
  = ["http://localhost:8000/index.html/index.html";
     "http://localhost:8000/index/index.html";
     "http://localhost:8000/blog/post/index.html"] /\
  (In "http://localhost:8000/blog/post/index.html"
      (@localhostLinks site listing_root) <->
   exists segs, page_in listing_root segs /\
     "http://localhost:8000/blog/post/index.html"
     = "http://localhost:8000/" +:+ listedPath segs +:+ "/index.html").
Proof.
  split; [reflexivity|]. split; [vm_compute; reflexivity|].
  apply (local_links_are_characterised "/site" listing_root
           "http://localhost:8000/blog/post/index.html").
  reflexivity.
Defined.

(* ===================================================================== *)
(** ** AssetStore: names, requests and files *)
(* ===================================================================== *)

Section AssetNames.

Context `{P : Platform}.

Lemma file_char_name (urlObj : URL) :
  allChr is_file_char
    (let ext := Js.orElse (path_extname (pathname urlObj)) ".html" in
     let basename := Js.orElse (path_basename (pathname urlObj) ext) "index" in
     let dir :=
       Regex.replace_all (Regex.RChr (Js.chr_eqb "/")) (fun _ _ => "_")
         (Regex.replace_start (Regex.RChr (Js.chr_eqb "/")) ""
            (path_dirname (pathname urlObj))) in
     let filename :=
       match dir with
       | "" => basename +:+ ext
       | _ => dir +:+ "_" +:+ basename +:+ ext
       end in
     Regex.replace_all (Regex.RChr (fun c => negb (is_file_char c)))
       (fun _ _ => "_") filename) = true.
Proof.
  cbv zeta. rewrite StringFacts.replace_all_chr.
  apply StringFacts.allChr_substChr; [reflexivity|].
  intros c Hc. apply negb_false_iff in Hc. exact Hc.
Qed.

Lemma alnum_fallback_name (u : string) :
  allChr is_file_char
    ("asset_" +:+
     Js.firstn 50
       (Regex.replace_all (Regex.RChr (fun c => negb (is_alnum c)))
          (fun _ _ => "_") u)) = true.
Proof.
  rewrite StringFacts.allChr_app. apply andb_true_iff. split; [reflexivity|].
  apply StringFacts.allChr_firstn. rewrite StringFacts.replace_all_chr.
  apply StringFacts.allChr_substChr; [reflexivity|].
  intros c Hc. apply negb_false_iff in Hc. unfold is_file_char. rewrite Hc. reflexivity.
Qed.

(** X6, [getAssetPath] of scrape.mjs and of rescrape-blank.mjs: whatever
    the argument, and whether it parses as a URL or not, every character
    of the name is a letter, a digit, a dot, an underscore or a hyphen.
    In particular the name holds no slash and no backslash. *)
Theorem getAssetPath_safe_characters (u : string) :
  allChr is_file_char (getAssetPath u) = true /\
  allChr is_file_char (getAssetPath_rescrape u) = true.
Proof.
  split.
  - unfold getAssetPath. destruct (url_parse u None) as [urlObj|].
    + apply file_char_name.
    + apply alnum_fallback_name.
  - unfold getAssetPath_rescrape.
    destruct (url_parse u (Some "http://example.com")) as [urlObj|].
    + apply file_char_name.
    + apply alnum_fallback_name.
Qed.

(** X7, [getAssetPath] of scrape.mjs, the branch taken when the argument
    is not an absolute URL (the case of the URL paths that
    [downloadAsset] passes): the name is the word [asset_] followed by
    at most fifty characters.  It is at most 56 characters long, and it
    depends on the first fifty characters of the argument only: two
    paths that agree there get the same name. *)
Theorem getAssetPath_fallback_prefix (p1 p2 : string) :
  url_parse p1 None = None -> url_parse p2 None = None ->
  Js.firstn 50 p1 = Js.firstn 50 p2 ->
  getAssetPath p1 = getAssetPath p2 /\ String.length (getAssetPath p1) <= 56.
Proof.
  intros H1 H2 H. unfold getAssetPath. rewrite H1, H2.
  rewrite !StringFacts.replace_all_chr, !StringFacts.firstn_substChr, H.
  split; [reflexivity|].
  rewrite <- StringFacts.firstn_substChr, JsFacts.length_app.
  pose proof (StringFacts.length_firstn 50
    (substChr (fun c => negb (is_alnum c)) "_" p2)) as Hl.
  simpl. simpl in Hl. lia.
Qed.

End AssetNames.

Lemma getAssetPath_fallback_prefix_witness :
  @url_parse site variant_500 None = None /\
  @url_parse site variant_800 None = None /\
  Js.firstn 50 variant_500 = Js.firstn 50 variant_800 /\
  variant_500 <> variant_800 /\
  @getAssetPath site variant_500 = @getAssetPath site variant_800 /\
  String.length (@getAssetPath site variant_500) <= 56.
Proof.
  split; [reflexivity|]. split; [reflexivity|]. split; [reflexivity|].
  split; [discriminate|].
  apply (@getAssetPath_fallback_prefix site variant_500 variant_800); reflexivity.
Defined.

Section AssetStoreInvariants.

Context `{P : Platform}.
Variable OUT : string.
Variable net : nat -> string -> reply.
Variable assetPath : string -> string.

Local Abbreviation download := (downloadAsset OUT net assetPath).
Local Abbreviation downloads := (downloadAll OUT net assetPath).

(** What one call does to the state: nothing, a request that fails, or a
    request that succeeds with a file written and an entry added. *)
Lemma download_cases (url pageUrl : string) (st : Run) :
  let st' := snd (download url pageUrl st) in
  st' = st \/
  (exists u, eligible u /\ downloadedAssets st !! u = None /\
     requests st' = requests st ++ [u] /\
     ((downloadedAssets st' = downloadedAssets st /\ disk st' = disk st) \/
      (exists filename body,
         downloadedAssets st' =
           <[u := slashes (path_relative OUT (path_join [ASSETS_DIR OUT; filename]))]>
             (downloadedAssets st) /\
         disk st' =
           writeFileSync (ensureDir (disk st) (ASSETS_DIR OUT))
             (path_join [ASSETS_DIR OUT; filename]) body))).
Proof.
  cbv zeta. unfold downloadAsset.
  destruct (_ || _); [auto|].
  destruct (url_parse url (Some pageUrl)) as [resolved|]; [|auto].
  destruct (downloadedAssets st !! href resolved) eqn:Hm; [auto|].
  destruct (url_parse (href resolved) None) as [urlObj|] eqn:Hu; [|auto].
  destruct (isSameOrigin (origin urlObj)) as [same|] eqn:Hs; [|auto].
  destruct (negb same && negb (isCommonCDN (hostname urlObj))) eqn:He; [auto|].
  right. exists (href resolved).
  assert (Hel : eligible (href resolved)).
  { exists urlObj. split; [exact Hu|].
    apply andb_false_iff in He as [He|He]; apply negb_false_iff in He.
    - left. rewrite Hs, He. reflexivity.
    - right. exact He. }
  split; [exact Hel|]. split; [exact Hm|].
  destruct (net _ _) as [|[] ct body]; cbn [snd downloadedAssets requests disk].
  - split; [reflexivity|]. left. auto.
  - split; [reflexivity|]. right. eexists _, body. split; reflexivity.
  - split; [reflexivity|]. left. auto.
Qed.

Lemma existsSync_ensureDir (fs : FileSystem) (d f : string) :
  existsSync fs f = true -> existsSync (ensureDir fs d) f = true.
Proof.
  unfold ensureDir. destruct (existsSync fs d); [auto|].
  unfold existsSync. cbn [files dirs]. rewrite !orb_true_iff, !bool_decide_eq_true.
  intros [H|H]; [left; exact H|right; set_solver].
Qed.

Lemma existsSync_write (fs : FileSystem) (p data f : string) :
  existsSync fs f = true -> existsSync (writeFileSync fs p data) f = true.
Proof.
  unfold existsSync, writeFileSync. cbn [files dirs].
  rewrite !orb_true_iff, !bool_decide_eq_true.
  intros [H|H]; [left|right; exact H].
  destruct (decide (p = f)) as [->|Hne].
  - rewrite lookup_insert_eq. eauto.
  - rewrite lookup_insert_ne by exact Hne. exact H.
Qed.

Lemma files_ensureDir (fs : FileSystem) (d : string) :
  files (ensureDir fs d) = files fs.
Proof. unfold ensureDir. destruct (existsSync fs d); reflexivity. Qed.

(** X8, [downloadAsset] of scrape.mjs and of rescrape-blank.mjs, over
    any sequence of references: every request that the asset store
    sends goes to a URL that parses and that is of the site (up to the
    [www.] prefix) or of a host that contains one of the listed CDN
    names.  No request goes anywhere else. *)
Theorem requests_go_to_eligible_hosts (refs : list (string * string)) (st : Run)
    (u : string) :
  In u (requests (downloads refs st)) -> In u (requests st) \/ eligible u.
Proof.
  revert st. induction refs as [|[url pageUrl] refs IH]; intros st Hin; [auto|].
  cbn [downloadAll] in Hin. apply IH in Hin as [Hin|Hin]; [|auto].
  destruct (download_cases url pageUrl st) as [E|(v & Hv & _ & Hr & _)].
  - rewrite E in Hin. auto.
  - rewrite Hr in Hin. apply in_app_or in Hin as [Hin|[<-|[]]]; auto.
Qed.

(** X9, [downloadAsset], over any sequence of references: the state of
    the asset store only grows.  No entry of [downloadedAssets] is ever
    removed or changed, the requests sent so far stay as they are and at
    most one request per reference is added, and whatever exists on the
    disk still exists afterwards. *)
Theorem asset_store_only_grows (refs : list (string * string)) (st : Run) :
  downloadedAssets st ⊆ downloadedAssets (downloads refs st) /\
  (exists more, requests (downloads refs st) = requests st ++ more /\
     length more <= length refs) /\
  (forall f, existsSync (disk st) f = true ->
     existsSync (disk (downloads refs st)) f = true).
Proof.
  revert st. induction refs as [|[url pageUrl] refs IH]; intros st.
  { cbn [downloadAll]. split; [reflexivity|]. split; [|auto].
    exists []. rewrite app_nil_r. auto. }
  cbn [downloadAll length].
  destruct (IH (snd (download url pageUrl st))) as (Hm & (more & Hr & Hl) & Hf).
  destruct (download_cases url pageUrl st) as [E|(v & _ & Hnone & Hreq & Hcase)].
  - rewrite E in *. split; [exact Hm|]. split; [|exact Hf].
    exists more. split; [exact Hr|lia].
  - split; [|split].
    + etrans; [|exact Hm].
      destruct Hcase as [[-> _]|(filename & body & -> & _)]; [reflexivity|].
      apply insert_subseteq. exact Hnone.
    + exists (v :: more). rewrite Hr, Hreq, <- app_assoc. split; [reflexivity|].
      simpl. lia.
    + intros f Hx. apply Hf.
      destruct Hcase as [[_ ->]|(filename & body & _ & ->)]; [exact Hx|].
      apply existsSync_write, existsSync_ensureDir, Hx.
Qed.

(** X10, [downloadAsset], over any sequence of references: if every
    local path of [downloadedAssets] names a file of the assets
    directory that is on the disk, this is still so afterwards.  The map
    never hands out the path of a file that was not written. *)
Theorem recorded_assets_are_on_disk (refs : list (string * string)) (st : Run) :
  stored OUT st -> stored OUT (downloads refs st).
Proof.
  revert st. induction refs as [|[url pageUrl] refs IH]; intros st Hst; [exact Hst|].
  cbn [downloadAll]. apply IH.
  destruct (download_cases url pageUrl st) as [E|(v & _ & Hnone & _ & Hcase)].
  { rewrite E. exact Hst. }
  destruct Hcase as [[Em Ed]|(filename & body & Em & Ed)];
    intros w p; rewrite Em, Ed.
  - apply Hst.
  - intros Hw. destruct (decide (v = w)) as [->|Hne].
    + rewrite lookup_insert_eq in Hw. injection Hw as <-.
      exists filename. split; [reflexivity|].
      unfold writeFileSync. cbn [files]. rewrite lookup_insert_eq. eauto.
    + rewrite lookup_insert_ne in Hw by exact Hne.
      destruct (Hst w p Hw) as (fn & Hp & Hfile).
      exists fn. split; [exact Hp|].
      unfold writeFileSync. cbn [files]. rewrite files_ensureDir.
      destruct (decide (path_join [ASSETS_DIR OUT; filename]
                        = path_join [ASSETS_DIR OUT; fn])) as [->|Hd].
      * rewrite lookup_insert_eq. eauto.
      * rewrite lookup_insert_ne by exact Hd. exact Hfile.
Qed.

End AssetStoreInvariants.

Lemma requests_go_to_eligible_hosts_witness :
  In sheet_url
    (requests (@downloadAll site site_out net_ok (@getAssetPath site)
                 [("/css/main.css", home_url); (evil_url, home_url)] run0)) /\
  (In sheet_url (requests run0) \/ @eligible site sheet_url).
Proof.
  assert (H : In sheet_url
    (requests (@downloadAll site site_out net_ok (@getAssetPath site)
                 [("/css/main.css", home_url); (evil_url, home_url)] run0))).
  { vm_compute. left. reflexivity. }
  split; [exact H|].
  exact (@requests_go_to_eligible_hosts site site_out net_ok (@getAssetPath site)
           [("/css/main.css", home_url); (evil_url, home_url)] run0 sheet_url H).
Defined.

Lemma recorded_assets_are_on_disk_witness :
  @stored site site_out run0 /\
  @stored site site_out
    (@downloadAll site site_out net_ok (@getAssetPath site)
       [("/css/main.css", home_url)] run0).
Proof.
  assert (H : @stored site site_out run0).
  { intros u p Hu. cbn [run0 downloadedAssets] in Hu.
    rewrite lookup_empty in Hu. discriminate. }
  split; [exact H|].
  exact (@recorded_assets_are_on_disk site site_out net_ok (@getAssetPath site)
           [("/css/main.css", home_url)] run0 H).
Defined.

(* ===================================================================== *)
(** ** MirrorDriver: the merged list of failures *)
(* ===================================================================== *)

Module MergeFacts.

Lemma existsb_eqb (x : string) (l : list string) :
  existsb (String.eqb x) l = true <-> In x l.
Proof.
  rewrite existsb_exists. split.
  - intros (y & Hy & E). apply String.eqb_eq in E. subst. exact Hy.
  - intros H. exists x. split; [exact H|apply String.eqb_refl].
Qed.

Lemma urlIn_false (urls : list string) (f : PageResult) :
  urlIn urls f = false <-> ~ In (url f) urls.
Proof.
  unfold urlIn. rewrite <- existsb_eqb. destruct (existsb _ _); intuition congruence.
Qed.

Lemma in_map_filter (p : PageResult -> bool) (l : list PageResult) (u : string) :
  In u (map url (List.filter p l)) -> In u (map url l).
Proof.
  rewrite !in_map_iff. intros (x & E & Hx). apply filter_In in Hx as [Hx _]. eauto.
Qed.

Lemma NoDup_map_filter (p : PageResult -> bool) (l : list PageResult) :
  NoDup (map url l) -> NoDup (map url (List.filter p l)).
Proof.
  induction l as [|x l IH]; [auto|].
  cbn [map List.filter]. intros H. apply NoDup_cons in H as [Hx Hl].
  destruct (p x); [|auto]. cbn [map]. apply NoDup_cons. split; [|auto].
  intros Hin. apply Hx. apply list_elem_of_In. apply list_elem_of_In in Hin.
  eapply in_map_filter, Hin.
Qed.

Lemma filter_urlIn_nil (l : list PageResult) :
  List.filter (fun f => negb (urlIn [] f)) l = l.
Proof.
  induction l as [|x l IH]; [reflexivity|].
  cbn [List.filter urlIn existsb negb]. f_equal. exact IH.
Qed.

(** The three shapes of the merged list: the stored failures followed by
    the new ones; the stored failures without the pages that succeeded;
    the failures of the run alone. *)
Lemma merge_cases (existing : option Report) (results : list PageResult)
    (urls assets : nat) :
  let failed_now := List.filter (fun r => negb (ok r)) results in
  let stored := default [] (existing ≫= failed) in
  let newFailed :=
    List.filter (fun f => negb (urlIn (map url stored) f)) failed_now in
  let merged := default [] (failed (mergeReport existing results urls assets)) in
  (newFailed <> [] /\ merged = stored ++ newFailed) \/
  (newFailed = [] /\
   merged = List.filter
              (fun f => negb (urlIn (map url (List.filter ok results)) f)) stored) \/
  (newFailed = [] /\ merged = failed_now).
Proof.
  cbv zeta. destruct existing as [existing|]; cbn [mbind option_bind default].
  2:{ cbn [mergeReport failed default map]. rewrite filter_urlIn_nil.
      destruct (List.filter _ results) eqn:E.
      - right. right. auto.
      - left. split; [discriminate|reflexivity]. }
  unfold mergeReport.
  set (stored := default [] (failed existing)).
  destruct (List.filter _ (List.filter _ results)) as [|n l] eqn:E.
  - cbn [length Nat.ltb Nat.leb].
    destruct (List.filter ok results) as [|s l'] eqn:Es.
    + right. right. cbn [map]. auto.
    + destruct (failed existing) as [old|] eqn:Eo.
      * right. left. split; [reflexivity|]. cbn [failed default map].
        unfold stored. reflexivity.
      * right. right. cbn [map failed default]. auto.
  - left. split; [discriminate|]. reflexivity.
Qed.

End MergeFacts.

(** X11, the report merge of scrape.mjs: whatever the stored report and
    the results of the run, every URL of the written list of failures is
    the URL of a page that failed in this run or a URL of the stored
    list.  The merge never lists a page that is neither. *)
Theorem mergeReport_lists_only_failures (existing : option Report)
    (results : list PageResult) (urls assets : nat) (u : string) :
  In u (failedUrls (mergeReport existing results urls assets)) ->
  In u (map url (List.filter (fun r => negb (ok r)) results)) \/
  In u (map url (default [] (existing ≫= failed))).
Proof.
  unfold failedUrls.
  destruct (MergeFacts.merge_cases existing results urls assets)
    as [[_ ->]|[[_ ->]|[_ ->]]]; intros H.
  - rewrite map_app in H. apply in_app_or in H as [H|H]; [auto|].
    left. eapply MergeFacts.in_map_filter, H.
  - right. eapply MergeFacts.in_map_filter, H.
  - auto.
Qed.

Lemma mergeReport_lists_only_failures_witness :
  In page_b (failedUrls (mergeReport (Some stored_report) run_results 2 5)) /\
  (In page_b (map url (List.filter (fun r => negb (ok r)) run_results)) \/
   In page_b (map url (default [] (Some stored_report ≫= failed)))).
Proof.
  assert (H : In page_b
                (failedUrls (mergeReport (Some stored_report) run_results 2 5))).
  { vm_compute. right. left. reflexivity. }
  split; [exact H|].
  exact (mergeReport_lists_only_failures (Some stored_report) run_results 2 5
           page_b H).
Defined.

(** X12, the report merge of scrape.mjs: a page that failed in this run,
    and that did not also succeed in it under the same URL, is in the
    written list of failures, whatever the stored report.  A failure of
    the current run is never lost. *)
Theorem mergeReport_keeps_run_failures (existing : option Report)
    (results : list PageResult) (urls assets : nat) (r : PageResult) :
  In r results -> ok r = false ->
  ~ In (url r) (map url (List.filter ok results)) ->
  In (url r) (failedUrls (mergeReport existing results urls assets)).
Proof.
  intros Hin Hok Hns. unfold failedUrls.
  assert (Hf : In r (List.filter (fun r => negb (ok r)) results)).
  { apply filter_In. rewrite Hok. auto. }
  destruct (MergeFacts.merge_cases existing results urls assets)
    as [[_ ->]|[[Hnew ->]|[_ ->]]].
  - rewrite map_app. apply in_or_app.
    destruct (urlIn (map url (default [] (existing ≫= failed))) r) eqn:E.
    + left. apply MergeFacts.existsb_eqb in E. exact E.
    + right. apply in_map, filter_In. rewrite E. auto.
  - assert (E : urlIn (map url (default [] (existing ≫= failed))) r = true).
    { destruct (urlIn _ r) eqn:E; [reflexivity|].
      assert (Hx : In r []) by (rewrite <- Hnew; apply filter_In; rewrite E; auto).
      destruct Hx. }
    apply MergeFacts.existsb_eqb, in_map_iff in E as (f & Ef & Hfin).
    rewrite <- Ef. apply in_map, filter_In. split; [exact Hfin|].
    apply negb_true_iff, MergeFacts.urlIn_false. rewrite Ef. exact Hns.
  - apply in_map, Hf.
Qed.

Lemma mergeReport_keeps_run_failures_witness :
  In (MkResult page_b false "Timeout") run_results /\
  ok (MkResult page_b false "Timeout") = false /\
  ~ In (url (MkResult page_b false "Timeout")) (map url (List.filter ok run_results)) /\
  In (url (MkResult page_b false "Timeout"))
    (failedUrls (mergeReport (Some stored_report) run_results 2 5)).
Proof.
  assert (H1 : In (MkResult page_b false "Timeout") run_results).
  { right. left. reflexivity. }
  assert (H3 : ~ In (url (MkResult page_b false "Timeout"))
                 (map url (List.filter ok run_results))).
  { intros [H|[]]. discriminate H. }
  split; [exact H1|]. split; [reflexivity|]. split; [exact H3|].
  exact (mergeReport_keeps_run_failures (Some stored_report) run_results 2 5
           (MkResult page_b false "Timeout") H1 eq_refl H3).
Defined.

(** X13, the report merge of scrape.mjs (its comment: merge failed URLs,
    avoid duplicates): when no URL occurs twice in the results of the
    run and none occurs twice in the stored list of failures, no URL
    occurs twice in the written list. *)
Theorem mergeReport_no_duplicates (existing : option Report)
    (results : list PageResult) (urls assets : nat) :
  NoDup (map url results) ->
  NoDup (map url (default [] (existing ≫= failed))) ->
  NoDup (failedUrls (mergeReport existing results urls assets)).
Proof.
  intros Hr He. unfold failedUrls.
  destruct (MergeFacts.merge_cases existing results urls assets)
    as [[_ ->]|[[_ ->]|[_ ->]]].
  - rewrite map_app. apply NoDup_app. split; [exact He|]. split.
    + intros x Hx Hy. apply list_elem_of_In in Hx, Hy.
      apply in_map_iff in Hy as (f & <- & Hf). apply filter_In in Hf as [_ Hf].
      apply negb_true_iff, MergeFacts.urlIn_false in Hf. contradiction.
    + apply MergeFacts.NoDup_map_filter, MergeFacts.NoDup_map_filter, Hr.
  - apply MergeFacts.NoDup_map_filter, He.
  - apply MergeFacts.NoDup_map_filter, Hr.
Qed.

Lemma mergeReport_no_duplicates_witness :
  NoDup (map url run_results) /\
  NoDup (map url (default [] (Some stored_report ≫= failed))) /\
  NoDup (failedUrls (mergeReport (Some stored_report) run_results 2 5)).
Proof.
  assert (H1 : NoDup (map url run_results)).
  { apply NoDup_cons. split.
    - intros H. apply list_elem_of_In in H. destruct H as [H|[]]. discriminate H.
    - apply NoDup_singleton. }
  assert (H2 : NoDup (map url (default [] (Some stored_report ≫= failed)))).
  { apply NoDup_singleton. }
  split; [exact H1|]. split; [exact H2|].
  exact (mergeReport_no_duplicates (Some stored_report) run_results 2 5 H1 H2).
Defined.

(* ===================================================================== *)
(** ** LinkResolver: the pass as a whole *)
(* ===================================================================== *)

Section LinkPassFacts.

Context `{P : Platform}.
Variable OUT : string.


(** The callback of the repair pass reads the disk only through
    [existsSync]. *)
Lemma fixCallback_ext (fs fs' : FileSystem) (pageDir baseOrigin match_ href : string) :
  (forall f, existsSync fs' f = existsSync fs f) ->
  fixCallback OUT fs' pageDir baseOrigin match_ href
  = fixCallback OUT fs pageDir baseOrigin match_ href.
Proof.
  intros H. unfold fixCallback. destruct (skippedHref href); [reflexivity|].
  destruct (linkTarget_fix baseOrigin href) as [|[|c t]]; try reflexivity.
  cbn [rewriteTarget]. rewrite H. reflexivity.
Qed.

Lemma rewriteInternalLinks_fix_ext (fs fs' : FileSystem) (html filePath : string) :
  (forall f, existsSync fs' f = existsSync fs f) ->
  rewriteInternalLinks_fix OUT fs' html filePath
  = rewriteInternalLinks_fix OUT fs html filePath.
Proof.
  intros H. unfold rewriteInternalLinks_fix.
  destruct (url_parse BASE None) as [b|]; [|reflexivity]. cbn [mbind option_bind].
  f_equal. unfold Regex.replace_all. f_equal. apply map_ext.
  intros [c|m g]; [reflexivity|]. cbn [Regex.render]. apply fixCallback_ext, H.
Qed.

Lemma existsSync_rewrite (fs : FileSystem) (p old data f : string) :
  files fs !! p = Some old ->
  existsSync (writeFileSync fs p data) f = existsSync fs f.
Proof.
  intros Hp. unfold existsSync, writeFileSync. cbn [files dirs]. f_equal.
  destruct (decide (p = f)) as [->|Hne].
  - rewrite lookup_insert_eq, Hp. rewrite !bool_decide_eq_true_2; eauto.
  - rewrite lookup_insert_ne by exact Hne. reflexivity.
Qed.

(** X17, the body of the loop of [processDirectory] in fix-links.mjs:
    repairing a page changes at most the text of that page.  Every other
    file keeps its content, the directories are the same, and exactly
    the same paths exist afterwards: the pass creates and deletes
    nothing. *)
Theorem fixPage_touches_only_the_page (fs : FileSystem) (fullPath : string) :
  (forall f, f <> fullPath ->
     files (fixPage OUT fs fullPath) !! f = files fs !! f) /\
  dirs (fixPage OUT fs fullPath) = dirs fs /\
  (forall f, existsSync (fixPage OUT fs fullPath) f = existsSync fs f).
Proof.
  unfold fixPage. destruct (files fs !! fullPath) as [html|] eqn:Hp; [|auto].
  destruct (rewriteInternalLinks_fix OUT fs html fullPath) as [fixed|]; [|auto].
  destruct (String.eqb fixed html); [auto|].
  split; [|split].
  - intros f Hne. unfold writeFileSync. cbn [files].
    apply lookup_insert_ne. congruence.
  - reflexivity.
  - intros f. eapply existsSync_rewrite, Hp.
Qed.

(** X16, the body of the loop of [processDirectory] in fix-links.mjs:
    when every path that the pass writes into the page is plain (a
    relative path without quote and without dollar sign), repairing the
    page a second time leaves the disk exactly as the first repair left
    it. *)
Theorem fixPage_idempotent (fs : FileSystem) (fullPath : string) (baseUrlObj : URL) :
  url_parse BASE None = Some baseUrlObj ->
  (forall html m g rel, files fs !! fullPath = Some html ->
     In (Regex.TMatch m g) (Regex.scan re_href html) ->
     fixPath OUT fs (path_dirname fullPath) (origin baseUrlObj) (default "" g)
     = Some rel ->
     plainPath rel) ->
  fixPage OUT (fixPage OUT fs fullPath) fullPath = fixPage OUT fs fullPath.
Proof.
  intros Hb Hplain.
  destruct (files fs !! fullPath) as [html|] eqn:Hp.
  2:{ assert (E : fixPage OUT fs fullPath = fs)
        by (unfold fixPage; rewrite Hp; reflexivity).
      rewrite E. exact E. }
  destruct (rewriteInternalLinks_fix OUT fs html fullPath) as [fixed|] eqn:Hfix.
  2:{ assert (E : fixPage OUT fs fullPath = fs)
        by (unfold fixPage; rewrite Hp, Hfix; reflexivity).
      rewrite E. exact E. }
  destruct (String.eqb fixed html) eqn:Heq.
  { assert (E : fixPage OUT fs fullPath = fs)
      by (unfold fixPage; rewrite Hp, Hfix, Heq; reflexivity).
    rewrite E. exact E. }
  assert (Hagain : rewriteInternalLinks_fix OUT fs fixed fullPath = Some fixed).
  { revert Hfix. unfold rewriteInternalLinks_fix. rewrite Hb.
    cbn [mbind option_bind]. intros [= <-]. f_equal.
    unfold Regex.replace_all, Regex.scan.
    destruct (scan_go_relinked OUT fs (path_dirname fullPath) (origin baseUrlObj)
                (S (String.length html)) html) as [_ H]; [lia| |apply H; lia].
    intros m g rel. apply Hplain. reflexivity. }
  assert (E : fixPage OUT fs fullPath = writeFileSync fs fullPath fixed).
  { unfold fixPage. rewrite Hp, Hfix, Heq. reflexivity. }
  rewrite E. unfold fixPage. unfold writeFileSync at 1. cbn [files].
  rewrite lookup_insert_eq.
  rewrite (rewriteInternalLinks_fix_ext fs (writeFileSync fs fullPath fixed));
    [|intros f; eapply existsSync_rewrite, Hp].
  rewrite Hagain, String.eqb_refl. reflexivity.
Qed.

End LinkPassFacts.


Lemma fixPage_idempotent_witness :
  @url_parse site BASE None = Some base_url /\
  files (@fixPage site site_out mirror_home home_page) !! home_page
  = Some "<a href='../about/index.html'>About</a> <a href='#top'>Top</a>" /\
  @fixPage site site_out (@fixPage site site_out mirror_home home_page) home_page
  = @fixPage site site_out mirror_home home_page.
Proof.
  split; [reflexivity|]. split; [vm_compute; reflexivity|].
  apply (@fixPage_idempotent site site_out mirror_home home_page base_url);
    [reflexivity|].
  intros html m g rel Hf Hin Hw.
  assert (Hh : html = home_html).
  { vm_compute in Hf. injection Hf as <-. reflexivity. }
  subst html. vm_compute in Hin.
  repeat (destruct Hin as [Hin|Hin]; [try discriminate|]); [| |destruct Hin].
  - injection Hin as <- <-. vm_compute in Hw. injection Hw as <-.
    unfold plainPath. repeat split; try reflexivity. discriminate.
  - injection Hin as <- <-. vm_compute in Hw. discriminate.
Defined.

(* ===================================================================== *)
(** ** CssAssetExtractor: references found and references rewritten *)
(* ===================================================================== *)

Section CssErrorFacts.

Context `{P : Platform}.
Variable OUT : string.

(** X18, the stylesheet rewrite of [rewriteHtml]: the rewrite of a
    stylesheet throws (the [TypeError] of [new URL], which [rewriteHtml]
    does not catch) exactly when the stylesheet
    holds a [url(...)] reference whose trimmed text is neither a data
    URI nor a fragment, has no local path in the asset map as written,
    and does not parse as a URL against the stylesheet URL.  In every
    other case the rewrite returns a text. *)
Theorem rewriteCss_throws_iff (assetMap : gmap string string)
    (cssLocalPath cssUrl css : string) :
  rewriteCss OUT assetMap cssLocalPath cssUrl css = None <->
  exists m g, In (Regex.TMatch m g) (Regex.scan re_css_url css) /\
    Js.startsWith "data:" (Js.trim (default "" g))
    || Js.startsWith "#" (Js.trim (default "" g)) = false /\
    Js.truthy (assetMap !! Js.trim (default "" g)) = None /\
    url_parse (Js.trim (default "" g)) (Some cssUrl) = None.
Proof.
  unfold rewriteCss, Regex.replace_allM.
  rewrite fmap_None, mapM_None, Exists_exists.
  split.
  - intros ([c|m g] & Hin & Hx); [discriminate|].
    apply list_elem_of_In in Hin. exists m, g. split; [exact Hin|].
    cbn [Regex.renderM] in Hx. unfold rewriteCssUrl, cssLookup in Hx.
    destruct (_ || _); [discriminate|]. split; [reflexivity|].
    destruct (Js.truthy _) as [l|]; [discriminate|]. split; [reflexivity|].
    destruct (url_parse _ _) as [u|]; [|reflexivity].
    cbn [mbind option_bind] in Hx. destruct (Js.truthy _); discriminate.
  - intros (m & g & Hin & Hd & Ht & Hu). exists (Regex.TMatch m g).
    split; [apply list_elem_of_In, Hin|].
    cbn [Regex.renderM]. unfold rewriteCssUrl, cssLookup.
    rewrite Hd, Ht, Hu. reflexivity.
Qed.

End CssErrorFacts.

(** X19, [extractAssetsFromCss] of scrape.mjs and rescrape-blank.mjs:
    a string is in the returned set exactly when it is the captured text
    of an [@import] rule, as written, or the trimmed captured text of a
    [url(...)] reference that starts neither with [data:] nor with a
    hash sign.  So every reference that the stylesheet rewrite looks up
    in the asset map has been extracted for download under the same
    text, and no data URI or fragment of a [url(...)] is ever
    extracted. *)
Theorem extracted_assets_characterised (cssContent cssUrl x : string) :
  In x (extractAssetsFromCss cssContent cssUrl) <->
  (exists m g, In (Regex.TMatch m g) (Regex.scan re_css_import cssContent) /\
     x = default "" g) \/
  (exists m g, In (Regex.TMatch m g) (Regex.scan re_css_url cssContent) /\
     x = Js.trim (default "" g) /\
     Js.startsWith "data:" x = false /\ Js.startsWith "#" x = false).
Proof.
  unfold extractAssetsFromCss.
  rewrite (SetFacts.in_fold_setAdd
             (fun m => negb (Js.startsWith "data:" (Js.trim m))
                       && negb (Js.startsWith "#" (Js.trim m))) Js.trim).
  rewrite (SetFacts.in_fold_setAdd (fun _ => true) (fun m => m)).
  cbn [In]. split.
  - intros [[[]|(c & Hc & _ & ->)]|(c & Hc & Hk & ->)].
    + left. apply SetFacts.in_captures, Hc.
    + right. apply SetFacts.in_captures in Hc as (m & g & Hin & ->).
      apply andb_true_iff in Hk as [H1 H2]. apply negb_true_iff in H1, H2.
      exists m, g. auto.
  - intros [(m & g & Hin & ->)|(m & g & Hin & -> & H1 & H2)].
    + left. right. exists (default "" g). split; [|auto].
      apply SetFacts.in_captures. eauto.
    + right. exists (default "" g). split; [apply SetFacts.in_captures; eauto|].
      rewrite H1, H2. auto.
Qed.
